(** * Kingdom Kitchen: preference learning and scoring engine

    A shallow embedding of the recommendation core of the meal planner:
    - [src/lib/features.ts]        feature extraction and explanations
      ([extractFeatures], [explainSuggestion]),
    - [src/lib/recommendation.ts]  scoring, personal and family suggestions
      and the next-recipe selector ([calculateScore],
      [getSuggestionsForUser], [getFamilySuggestions],
      [getNextRecipeToRate], [getRatingDelta]),
    - the database schema appended to it: the rating trigger
      [update_preference_weights] and the SQL functions
      [calculate_recipe_score], [get_next_recipe_to_rate] and
      [get_family_suggestions].

    Numbers.  Weights are stored in a [DECIMAL(4,3)] column, so every
    weight, delta and score is a multiple of one thousandth.  They are
    modelled as integers counting thousandths ([1000] is [1.0], [150] is
    [0.15]); sums are the exact decimal sums.  External ratings are
    [DECIMAL(3,2)] and count hundredths.

    Strings are byte strings holding UTF-8; substring search on UTF-8
    bytes agrees with substring search on the characters. *)

From Stdlib Require Import ZArith List String Ascii Lia QArith Qround Sorted.
From stdpp Require Import gmap strings list fin_maps sorting.

Open Scope Z_scope.

(** ** JavaScript runtime pieces used by the sources *)

Module Js.

(** [Array.prototype.sort] with a comparator: stable, an element moves
    behind another one only when the comparator is positive. *)
Fixpoint sort_insert {A : Type} (cmp : A -> A -> Z) (x : A) (l : list A) : list A :=
  match l with
  | [] => [x]
  | y :: ys => if cmp x y <=? 0 then x :: y :: ys else y :: sort_insert cmp x ys
  end.

Definition sort {A : Type} (cmp : A -> A -> Z) (l : list A) : list A :=
  fold_right (sort_insert cmp) [] l.

(** [Array.prototype.slice(0, n)]. *)
Definition slice0 {A : Type} (n : nat) (l : list A) : list A := firstn n l.

(** [String.prototype.includes]: [needle] occurs in [hay]. *)
Fixpoint includes (hay needle : string) : bool :=
  if String.prefix needle hay then true
  else match hay with
       | EmptyString => false
       | String _ rest => includes rest needle
       end.

(** [Array.prototype.join(' ')]. *)
Fixpoint join_space (parts : list string) : string :=
  match parts with
  | [] => ""
  | [p] => p
  | p :: ps => p +:+ " " +:+ join_space ps
  end.

(** [String.prototype.length]: UTF-16 code units of a UTF-8 byte string.
    Continuation bytes count for nothing, the lead byte of a four-byte
    sequence for two. *)
Definition code_units (c : ascii) : nat :=
  let n := nat_of_ascii c in
  if (n <? 128)%nat then 1%nat
  else if (n <? 192)%nat then 0%nat
  else if (n <? 240)%nat then 1%nat
  else 2%nat.

Fixpoint length (s : string) : nat :=
  match s with
  | EmptyString => 0%nat
  | String c rest => (code_units c + length rest)%nat
  end.

(** A JS object whose iteration order matters: properties in insertion
    order.  [o[k] = v] overwrites in place or appends. *)
Definition object (V : Type) : Type := list (string * V).

Fixpoint get {V : Type} (o : object V) (k : string) : option V :=
  match o with
  | [] => None
  | (k', v) :: rest => if String.eqb k' k then Some v else get rest k
  end.

Fixpoint set {V : Type} (o : object V) (k : string) (v : V) : object V :=
  match o with
  | [] => [(k, v)]
  | (k', v') :: rest =>
      if String.eqb k' k then (k', v) :: rest else (k', v') :: set rest k v
  end.

Definition entries {V : Type} (o : object V) : list (string * V) := o.

(** Numbers that may be [Infinity] (the start value of a running minimum). *)
Inductive number : Type :=
| Infinity
| Num (z : Z).

Definition Math_min (a : number) (b : Z) : number :=
  match a with
  | Infinity => Num b
  | Num z => Num (Z.min z b)
  end.

(** [a >= 0]. *)
Definition ge0 (a : number) : bool :=
  match a with
  | Infinity => true
  | Num z => 0 <=? z
  end.

(** [Math.round(x * 100) / 100] on thousandths: nearest hundredth, a
    half rounds towards plus infinity. *)
Definition round2 (x : Z) : Z := ((x + 5) / 10) * 10.

Definition round2_number (a : number) : number :=
  match a with
  | Infinity => Infinity
  | Num z => Num (round2 z)
  end.

End Js.

(** ** Types ([src/lib/types.ts]) *)

(** A value of a recipe feature as stored in the JSON column: absent
    ([undefined]/[null]), one string, or an array of strings. *)
Inductive FeatureValue : Type :=
| FNull
| FScalar (s : string)
| FArray (vs : list string).

(** [RecipeFeatures]: a JS object from feature name to value. *)
Definition RecipeFeatures : Type := Js.object FeatureValue.

Record PreferenceWeight : Type := {
  profile_id : string;
  feature_type : string;
  feature_value : string;
  weight : Z;
  sample_count : Z
}.

Record Profile : Type := {
  id : string;
  household_id : string;
  display_name : string
}.

Record Recipe : Type := {
  recipe_id_of : string;
  name : string;
  image_url : option string;
  features : RecipeFeatures;
  external_rating : option Z
}.

Record Rating : Type := {
  rating_profile_id : string;
  rating_recipe_id : string
}.

Record FamilyScoredRecipe : Type := {
  recipe_id : string;
  recipe_name : string;
  fs_image_url : option string;
  min_score : Js.number;
  scores : gmap string Z
}.

(** The tables the engine reads through the storage client, rows in
    storage order. *)
Record Database : Type := {
  profiles : list Profile;
  preference_weights : list PreferenceWeight;
  recipes : list Recipe;
  ratings : list Rating
}.

(** ** [src/lib/recommendation.ts] *)

Module Recommendation.

(** The template string [`${type}:${value}`]. *)
Definition weight_key (t v : string) : string := t +:+ ":" +:+ v.

(** [weightMap]: filled by one [set] per weight, in list order. *)
Definition buildWeightMap (userWeights : list PreferenceWeight) : gmap string Z :=
  fold_left (fun m w => <[weight_key (feature_type w) (feature_value w) := weight w]> m)
            userWeights ∅.

(** [totalScore += weight] when the key is in the map. *)
Definition addWeight (weightMap : gmap string Z) (featureType : string)
  (totalScore : Z) (val : string) : Z :=
  match weightMap !! weight_key featureType val with
  | Some w => totalScore + w
  | None => totalScore
  end.

Definition scoreFeature (weightMap : gmap string Z) (totalScore : Z)
  (entry : string * FeatureValue) : Z :=
  match entry with
  | (_, FNull) => totalScore
  | (featureType, FArray vals) => fold_left (addWeight weightMap featureType) vals totalScore
  | (featureType, FScalar v) => addWeight weightMap featureType totalScore v
  end.

Definition calculateScore (recipeFeatures : RecipeFeatures)
  (userWeights : list PreferenceWeight) : Z :=
  let weightMap := buildWeightMap userWeights in
  fold_left (scoreFeature weightMap) (Js.entries recipeFeatures) 0.

(** The storage query [.order('external_rating', { ascending: false,
    nullsFirst: false })]: highest rating first, rows without a rating
    last.  The store is taken to answer a query as a function of its
    rows: rows with equal ratings keep their storage order. *)
Definition external_rating_cmp (a b : Recipe) : Z :=
  match external_rating a, external_rating b with
  | Some x, Some y => y - x
  | Some _, None => -1
  | None, Some _ => 1
  | None, None => 0
  end.

Definition order_by_external_rating (rows : list Recipe) : list Recipe :=
  Js.sort external_rating_cmp rows.

(** *** [getFamilySuggestions] *)

Definition householdProfiles (db : Database) (householdId : string) : list Profile :=
  List.filter (fun p => String.eqb (household_id p) householdId) (profiles db).

Definition householdWeights (db : Database) (profileIds : list string) : list PreferenceWeight :=
  List.filter (fun w => existsb (String.eqb (profile_id w)) profileIds) (preference_weights db).

Definition groupWeights (profs : list Profile) (allWeights : list PreferenceWeight)
  : gmap string (list PreferenceWeight) :=
  fold_left (fun m p =>
               <[id p := List.filter (fun w => String.eqb (profile_id w) (id p)) allWeights]> m)
            profs ∅.

(** One turn of the inner loop: the member's score is rounded into
    [scores] and folded, unrounded, into [minScore]. *)
Definition scoreMember (recipeFeatures : RecipeFeatures)
  (weightsByProfile : gmap string (list PreferenceWeight))
  (acc : gmap string Z * Js.number) (profile : Profile) : gmap string Z * Js.number :=
  let weights := default [] (weightsByProfile !! id profile) in
  let score := calculateScore recipeFeatures weights in
  (<[display_name profile := Js.round2 score]> (fst acc), Js.Math_min (snd acc) score).

Definition scoreFamily (recipeFeatures : RecipeFeatures)
  (weightsByProfile : gmap string (list PreferenceWeight)) (profs : list Profile)
  : gmap string Z * Js.number :=
  fold_left (scoreMember recipeFeatures weightsByProfile) profs (∅, Js.Infinity).

(** One turn of the outer loop: push the recipe when [minScore >= 0]. *)
Definition scoreRecipe (weightsByProfile : gmap string (list PreferenceWeight))
  (profs : list Profile) (familyScored : list FamilyScoredRecipe) (recipe : Recipe)
  : list FamilyScoredRecipe :=
  let '(scores, minScore) := scoreFamily (features recipe) weightsByProfile profs in
  if Js.ge0 minScore then
    familyScored ++ [ {| recipe_id := recipe_id_of recipe;
                         recipe_name := name recipe;
                         fs_image_url := image_url recipe;
                         min_score := Js.round2_number minScore;
                         scores := scores |} ]
  else familyScored.

(** [b.min_score - a.min_score]; [Infinity - Infinity] is [NaN], which
    the sort treats as equal. *)
Definition min_score_cmp (a b : FamilyScoredRecipe) : Z :=
  match min_score a, min_score b with
  | Js.Num x, Js.Num y => y - x
  | Js.Infinity, Js.Num _ => -1
  | Js.Num _, Js.Infinity => 1
  | Js.Infinity, Js.Infinity => 0
  end.

(** The list [familyScored] as it stands after the scoring loop, before
    it is sorted and cut to [limit]. *)
Definition familyScoredOf (db : Database) (profs : list Profile) : list FamilyScoredRecipe :=
  let profileIds := map id profs in
  let allWeights := householdWeights db profileIds in
  let weightsByProfile := groupWeights profs allWeights in
  let pool := firstn 200 (order_by_external_rating (recipes db)) in
  fold_left (scoreRecipe weightsByProfile profs) pool [].

Definition getFamilySuggestions (db : Database) (householdId : string) (limit : nat)
  : list FamilyScoredRecipe :=
  let profs := householdProfiles db householdId in
  match profs with
  | [] => []
  | _ => Js.slice0 limit (Js.sort min_score_cmp (familyScoredOf db profs))
  end.

(** *** [getNextRecipeToRate]

    [random] is the value drawn by [Math.random()], a number in [0, 1). *)
Definition profileRatings (db : Database) (profileId : string) : list Rating :=
  List.filter (fun r => String.eqb (rating_profile_id r) profileId) (ratings db).

Definition unratedQuery (db : Database) (ratedIds : list string) : list Recipe :=
  match ratedIds with
  | [] => recipes db
  | _ => List.filter (fun r => negb (existsb (String.eqb (recipe_id_of r)) ratedIds)) (recipes db)
  end.

Definition randomIndex (random : Q) (len : nat) : nat :=
  Z.to_nat (Qfloor (random * inject_Z (Z.of_nat len))).

Definition getNextRecipeToRate (db : Database) (profileId : string) (random : Q)
  : option Recipe :=
  let ratingCount := Z.of_nat (length (profileRatings db profileId)) in
  let ratedIds := map rating_recipe_id (profileRatings db profileId) in
  let query := order_by_external_rating (unratedQuery db ratedIds) in
  let rows := if ratingCount <? 20 then firstn 1 query else firstn 20 query in
  match rows with
  | [] => None
  | _ =>
      if 20 <=? ratingCount then nth_error rows (randomIndex random (length rows))
      else nth_error rows 0
  end.

(** The handler of [GET /api/recipes/next] reads the [exclude] query
    parameter and calls [getNextRecipeToRate(profile.id, authHeader,
    excludeId || undefined)].  The function declares two parameters, so
    the third argument is dropped at the call. *)
Definition GET_next (db : Database) (profileId : string) (excludeId : option string)
  (random : Q) : option Recipe :=
  getNextRecipeToRate db profileId random.

End Recommendation.

(** ** [src/lib/features.ts] *)

Module Features.

Record Ingredient : Type := {
  amount : string;
  ingredient : string;
  unit : option string
}.

(** The regular expressions of [normalizeIngredient]. *)
Inductive Regex : Type :=
| leading_descriptor     (* /^(färsk|hackad|...|tärnad)\s+/ *)
| trailing_descriptor    (* /\s+(färsk|hackad|...|tärnad)$/ *)
| parenthetical.         (* /\s*\([^)]*\)\s*/g *)

(** The string primitives of the runtime that depend on the Unicode
    tables: case mapping, white space and regular-expression replacement
    by the empty string.  Everything below holds for every runtime. *)
Class StringRuntime : Type := {
  toLowerCase : string -> string;
  trim : string -> string;
  replace_empty : Regex -> string -> string
}.

Definition PROTEIN_KEYWORDS : list (string * string) :=
  [ ("nötfärs", "beef"); ("köttfärs", "beef"); ("fläskfärs", "pork");
    ("blandfärs", "mixed_meat"); ("kyckling", "chicken");
    ("kycklingfilé", "chicken"); ("lax", "salmon"); ("torsk", "cod");
    ("räkor", "shrimp"); ("fisk", "fish"); ("bacon", "pork");
    ("skinka", "ham"); ("korv", "sausage"); ("ägg", "egg"); ("tofu", "tofu");
    ("linser", "lentils"); ("bönor", "beans"); ("kikärtor", "chickpeas");
    ("fläsk", "pork"); ("lamm", "lamb");
    ("beef", "beef"); ("chicken", "chicken"); ("pork", "pork");
    ("salmon", "salmon"); ("fish", "fish"); ("shrimp", "shrimp");
    ("egg", "egg"); ("eggs", "egg") ].

Definition CARB_KEYWORDS : list (string * string) :=
  [ ("pasta", "pasta"); ("spaghetti", "pasta"); ("penne", "pasta");
    ("tagliatelle", "pasta"); ("ris", "rice"); ("rice", "rice");
    ("potatis", "potato"); ("potato", "potato"); ("bröd", "bread");
    ("bread", "bread"); ("couscous", "couscous"); ("nudlar", "noodles");
    ("noodles", "noodles"); ("bulgur", "bulgur"); ("quinoa", "quinoa") ].

Definition CUISINE_KEYWORDS : list (string * string) :=
  [ ("sojasås", "asian"); ("soy sauce", "asian"); ("ingefära", "asian");
    ("ginger", "asian"); ("wasabi", "japanese"); ("miso", "japanese");
    ("curry", "indian"); ("garam masala", "indian"); ("tikka", "indian");
    ("tandoori", "indian"); ("taco", "mexican"); ("salsa", "mexican");
    ("tortilla", "mexican"); ("parmesan", "italian");
    ("mozzarella", "italian"); ("basilika", "italian"); ("pesto", "italian");
    ("feta", "greek"); ("tzatziki", "greek"); ("hummus", "middle_eastern");
    ("tahini", "middle_eastern"); ("harissa", "middle_eastern");
    ("lingon", "swedish"); ("dill", "swedish"); ("grädde", "swedish");
    ("cream", "swedish") ].

Inductive SpiceLevel : Type := mild | medium | hot.

Definition spice_name (l : SpiceLevel) : string :=
  match l with
  | mild => "mild"
  | medium => "medium"
  | hot => "hot"
  end.

Definition SPICE_INDICATORS : list (string * SpiceLevel) :=
  [ ("chili", hot); ("jalapeño", hot); ("habanero", hot); ("sriracha", hot);
    ("cayenne", hot); ("sambal", hot); ("curry", medium); ("paprika", mild);
    ("peppar", mild); ("pepper", mild) ].

Section Extract.
Context {rt : StringRuntime}.

Definition normalizeIngredient (ingredient : string) : string :=
  trim (replace_empty parenthetical
         (replace_empty trailing_descriptor
           (replace_empty leading_descriptor
             (trim (toLowerCase ingredient))))).

(** The text blob: the lowercased name and ingredient names joined by
    single spaces. *)
Definition allTextOf (ingredients : list Ingredient) (recipeName : string) : string :=
  Js.join_space (toLowerCase recipeName
                 :: map (fun i => toLowerCase (ingredient i)) ingredients).

(** [allText.includes(keyword.toLowerCase())]. *)
Definition matches (allText keyword : string) : bool :=
  Js.includes allText (toLowerCase keyword).

(** [Set.prototype.add] on a set kept in insertion order. *)
Definition set_add (s : list string) (x : string) : list string :=
  if existsb (String.eqb x) s then s else s ++ [x].

Definition extractProteins (allText : string) : list string :=
  fold_left (fun proteins '(keyword, protein) =>
               if matches allText keyword then set_add proteins protein else proteins)
            PROTEIN_KEYWORDS [].

(** The carb loop leaves at its first match. *)
Definition extractCarb (allText : string) : option string :=
  match find (fun '(keyword, _) => matches allText keyword) CARB_KEYWORDS with
  | Some (_, carb) => Some carb
  | None => None
  end.

(** [cuisineCounts[cuisine] = (cuisineCounts[cuisine] || 0) + 1]. *)
Definition countCuisines (table : list (string * string)) (allText : string)
  : Js.object Z :=
  fold_left (fun cuisineCounts '(keyword, cuisine) =>
               if matches allText keyword
               then Js.set cuisineCounts cuisine
                      (default 0 (Js.get cuisineCounts cuisine) + 1)
               else cuisineCounts)
            table [].

(** [Object.entries(cuisineCounts).sort((a, b) => b[1] - a[1])[0]]. *)
Definition topCuisineOf (cuisineCounts : Js.object Z) : option (string * Z) :=
  head (Js.sort (fun a b => snd b - snd a) (Js.entries cuisineCounts)).

Definition detectCuisine (allText : string) : option string :=
  match topCuisineOf (countCuisines CUISINE_KEYWORDS allText) with
  | Some topCuisine => Some (fst topCuisine)
  | None => None
  end.

(** The spice loop: [hot] leaves the loop, [medium] is kept, [mild]
    changes nothing. *)
Fixpoint scanSpice (table : list (string * SpiceLevel)) (allText : string)
  (spiceLevel : SpiceLevel) : SpiceLevel :=
  match table with
  | [] => spiceLevel
  | (keyword, level) :: rest =>
      if matches allText keyword then
        match level with
        | hot => hot
        | medium => scanSpice rest allText medium
        | mild => scanSpice rest allText spiceLevel
        end
      else scanSpice rest allText spiceLevel
  end.

(** [(prepTime || 0) + (cookTime || 0)], minutes. *)
Definition prepTimeBucket (prepTime cookTime : option Z) : option string :=
  let totalTime := default 0 prepTime + default 0 cookTime in
  if 0 <? totalTime then
    if totalTime <=? 30 then Some "quick"
    else if totalTime <=? 60 then Some "medium"
    else Some "long"
  else None.

Definition keyIngredientsOf (ingredients : list Ingredient) : list string :=
  firstn 10 (List.filter (fun i => (2 <? Js.length i)%nat)
                    (map (fun i => normalizeIngredient (ingredient i)) ingredients)).

(** [features.k = v] when the value is there. *)
Definition assign (features : RecipeFeatures) (k : string) (v : option FeatureValue)
  : RecipeFeatures :=
  match v with
  | Some fv => Js.set features k fv
  | None => features
  end.

Definition extractFeatures (ingredients : list Ingredient) (recipeName : string)
  (prepTime cookTime : option Z) : RecipeFeatures :=
  let features : RecipeFeatures := [] in
  let allText := allTextOf ingredients recipeName in
  let proteins := extractProteins allText in
  let features :=
    assign features "protein"
           (if (0 <? length proteins)%nat then Some (FArray proteins) else None) in
  let features := assign features "carb" (FScalar <$> extractCarb allText) in
  let features := assign features "cuisine" (FScalar <$> detectCuisine allText) in
  let spiceLevel := scanSpice SPICE_INDICATORS allText mild in
  let features := assign features "spice_level" (Some (FScalar (spice_name spiceLevel))) in
  let features :=
    assign features "prep_time_bucket" (FScalar <$> prepTimeBucket prepTime cookTime) in
  let keyIngredients := keyIngredientsOf ingredients in
  assign features "ingredients"
         (if (0 <? length keyIngredients)%nat then Some (FArray keyIngredients) else None).

End Extract.

(** A runtime for text in ASCII and Latin-1 letters (the alphabet of the
    keyword tables); white space is the ASCII white space. *)
Module Latin1.

Definition is_space (c : ascii) : bool :=
  let n := nat_of_ascii c in
  ((9 <=? n) && (n <=? 13) || (n =? 32))%nat.

(** [A-Z], and the two-byte letters [U+00C0 .. U+00DE] without the
    multiplication sign, move to their small letters. *)
Fixpoint toLowerCase (s : string) : string :=
  match s with
  | EmptyString => EmptyString
  | String c rest =>
      let n := nat_of_ascii c in
      if ((65 <=? n) && (n <=? 90))%nat
      then String (ascii_of_nat (n + 32)) (toLowerCase rest)
      else if (n =? 195)%nat then
        match rest with
        | String d rest' =>
            let m := nat_of_ascii d in
            if ((128 <=? m) && (m <=? 158) && negb (m =? 151))%nat
            then String c (String (ascii_of_nat (m + 32)) (toLowerCase rest'))
            else String c (toLowerCase rest)
        | EmptyString => String c EmptyString
        end
      else String c (toLowerCase rest)
  end.

Fixpoint trim_start (s : string) : string :=
  match s with
  | EmptyString => EmptyString
  | String c rest => if is_space c then trim_start rest else s
  end.

Definition reverse (s : string) : string :=
  string_of_list_ascii (rev (list_ascii_of_string s)).

Definition trim_end (s : string) : string := reverse (trim_start (reverse s)).

Definition trim (s : string) : string := trim_end (trim_start s).

Definition DESCRIPTORS : list string :=
  [ "färsk"; "hackad"; "strimlad"; "skivad"; "riven"; "kokt"; "stekt"; "tärnad" ].

Definition starts_with_space (s : string) : bool :=
  match s with
  | EmptyString => false
  | String c _ => is_space c
  end.

(** [s] without a leading [word] and the white space after it. *)
Definition strip_word (word s : string) : option string :=
  let rest := String.substring (String.length word) (String.length s - String.length word) s in
  if String.prefix word s && starts_with_space rest then Some (trim_start rest) else None.

Fixpoint strip_first (words : list string) (s : string) : string :=
  match words with
  | [] => s
  | w :: ws => match strip_word w s with
               | Some rest => rest
               | None => strip_first ws s
               end
  end.

Fixpoint after_close (s : string) : option string :=
  match s with
  | EmptyString => None
  | String c rest => if Ascii.eqb c ")" then Some rest else after_close rest
  end.

(** A parenthetical with the white space around it at the front of [s]. *)
Definition strip_parenthetical (s : string) : option string :=
  match trim_start s with
  | String c rest => if Ascii.eqb c "(" then trim_start <$> after_close rest else None
  | EmptyString => None
  end.

Fixpoint remove_parentheticals (fuel : nat) (s : string) : string :=
  match fuel with
  | O => s
  | S fuel' =>
      match s with
      | EmptyString => EmptyString
      | String c rest =>
          match strip_parenthetical s with
          | Some s' => remove_parentheticals fuel' s'
          | None => String c (remove_parentheticals fuel' rest)
          end
      end
  end.

Definition replace_empty (re : Regex) (s : string) : string :=
  match re with
  | leading_descriptor => strip_first DESCRIPTORS s
  | trailing_descriptor => reverse (strip_first (map reverse DESCRIPTORS) (reverse s))
  | parenthetical => remove_parentheticals (S (String.length s)) s
  end.

Definition runtime : StringRuntime :=
  {| Features.toLowerCase := toLowerCase;
     Features.trim := trim;
     Features.replace_empty := replace_empty |}.

End Latin1.

End Features.

(** ** The database schema: the rating trigger and the SQL functions *)

Module Schema.

Inductive rating_value : Type := loved | liked | neutral | disliked | hated.

Inductive feature_type : Type :=
| cuisine | protein | carb | cooking_method | prep_time_bucket
| ingredient | spice_level | meal_type.

#[global] Instance feature_type_eq_dec : EqDecision feature_type.
Proof. solve_decision. Defined.

Definition feature_type_code (t : feature_type) : nat :=
  match t with
  | cuisine => 0 | protein => 1 | carb => 2 | cooking_method => 3
  | prep_time_bucket => 4 | ingredient => 5 | spice_level => 6 | meal_type => 7
  end%nat.

Definition feature_type_of_code (n : nat) : option feature_type :=
  match n with
  | 0 => Some cuisine | 1 => Some protein | 2 => Some carb
  | 3 => Some cooking_method | 4 => Some prep_time_bucket
  | 5 => Some ingredient | 6 => Some spice_level | 7 => Some meal_type
  | _ => None
  end%nat.

#[global] Instance feature_type_countable : Countable feature_type.
Proof.
  apply (inj_countable feature_type_code feature_type_of_code).
  intros []; reflexivity.
Defined.

(** The cast [feature_key::feature_type]: a label of the enum, or the
    error "invalid input value for enum". *)
Definition cast_feature_type (feature_key : string) : option feature_type :=
  if String.eqb feature_key "cuisine" then Some cuisine
  else if String.eqb feature_key "protein" then Some protein
  else if String.eqb feature_key "carb" then Some carb
  else if String.eqb feature_key "cooking_method" then Some cooking_method
  else if String.eqb feature_key "prep_time_bucket" then Some prep_time_bucket
  else if String.eqb feature_key "ingredient" then Some ingredient
  else if String.eqb feature_key "spice_level" then Some spice_level
  else if String.eqb feature_key "meal_type" then Some meal_type
  else None.

(** A value of the [features] JSONB object. *)
Inductive jsonb : Type :=
| JNull
| JString (s : string)
| JArray (elems : list string).

(** The double quote and the backslash. *)
Definition dquote : string := String (ascii_of_nat 34) EmptyString.
Definition backslash : string := String (ascii_of_nat 92) EmptyString.

(** The escapes of a JSON string literal for the quote and the
    backslash; other bytes are copied. *)
Fixpoint json_escape (s : string) : string :=
  match s with
  | EmptyString => EmptyString
  | String c rest =>
      if Ascii.eqb c (ascii_of_nat 34) then backslash +:+ dquote +:+ json_escape rest
      else if Ascii.eqb c (ascii_of_nat 92) then backslash +:+ backslash +:+ json_escape rest
      else String c (json_escape rest)
  end.

(** The cast [feature_val::text] of a scalar: the JSON text of the value,
    so a string keeps its quotes. *)
Definition jsonb_text (feature_val : jsonb) : string :=
  match feature_val with
  | JNull => "null"
  | JString s => dquote +:+ json_escape s +:+ dquote
  | JArray _ => ""
  end.

(** A row of [ratings] as the trigger sees it in [NEW]. *)
Record ratings_row : Type := {
  profile_id : string;
  recipe_id : string;
  rating : rating_value;
  excluded_ingredients : list string
}.

(** The table [preference_weights] under its unique key [(profile_id,
    feature_type, feature_value)]; a row holds [(weight, sample_count)],
    the weight in thousandths. *)
Abbreviation weights_table := (gmap (string * feature_type * string) (Z * Z)).

(** [recipes.features] by recipe id. *)
Abbreviation recipes_table := (gmap string (list (string * jsonb))).

(** [CASE NEW.rating ... END]. *)
Definition weight_delta_of (r : rating_value) : Z :=
  match r with
  | loved => 150
  | liked => 80
  | neutral => 0
  | disliked => -80
  | hated => -150
  end.

(** [INSERT ... VALUES (.., weight_delta, 1) ON CONFLICT .. DO UPDATE SET
    weight = GREATEST(-1.0, LEAST(1.0, weight + weight_delta)),
    sample_count = sample_count + 1]. *)
Definition upsert_feature (tbl : weights_table) (pid : string) (ft : feature_type)
  (value : string) (weight_delta : Z) : weights_table :=
  match tbl !! (pid, ft, value) with
  | Some (w, n) =>
      <[(pid, ft, value) := (Z.max (-1000) (Z.min 1000 (w + weight_delta)), n + 1)]> tbl
  | None => <[(pid, ft, value) := (weight_delta, 1)]> tbl
  end.

(** [INSERT ... VALUES (.., 'ingredient', ingredient, -0.2, 1) ON CONFLICT
    .. DO UPDATE SET weight = GREATEST(-1.0, weight - 0.2),
    sample_count = sample_count + 1]. *)
Definition upsert_excluded (tbl : weights_table) (pid : string) (value : string)
  : weights_table :=
  match tbl !! (pid, ingredient, value) with
  | Some (w, n) => <[(pid, ingredient, value) := (Z.max (-1000) (w - 200), n + 1)]> tbl
  | None => <[(pid, ingredient, value) := (-200, 1)]> tbl
  end.

(** One statement of the feature loop; [None] is a raised error. *)
Definition upsert_cast (pid : string) (feature_key : string) (weight_delta : Z)
  (tbl : option weights_table) (value : string) : option weights_table :=
  tbl ← tbl;
  ft ← cast_feature_type feature_key;
  Some (upsert_feature tbl pid ft value weight_delta).

(** The body of [FOR feature_key, feature_val IN SELECT * FROM
    jsonb_each(recipe_features) LOOP]. *)
Definition update_feature (pid : string) (weight_delta : Z)
  (tbl : option weights_table) (entry : string * jsonb) : option weights_table :=
  match entry with
  | (feature_key, JArray elems) =>
      fold_left (upsert_cast pid feature_key weight_delta) elems tbl
  | (feature_key, feature_val) =>
      upsert_cast pid feature_key weight_delta tbl (jsonb_text feature_val)
  end.

(** The state of the table after the feature loop. *)
Definition feature_updates (recipe_features : list (string * jsonb)) (NEW : ratings_row)
  (tbl : weights_table) : option weights_table :=
  fold_left (update_feature (profile_id NEW) (weight_delta_of (rating NEW)))
            recipe_features (Some tbl).

(** [IF array_length(NEW.excluded_ingredients, 1) > 0 THEN FOREACH ...]. *)
Definition excluded_updates (NEW : ratings_row) (tbl : weights_table) : weights_table :=
  match excluded_ingredients NEW with
  | [] => tbl
  | _ => fold_left (fun t ingredient => upsert_excluded t (profile_id NEW) ingredient)
                   (excluded_ingredients NEW) tbl
  end.

(** The trigger function.  [None]: an error was raised. *)
Definition update_preference_weights (recipes : recipes_table) (NEW : ratings_row)
  (tbl : weights_table) : option weights_table :=
  let recipe_features := default [] (recipes !! recipe_id NEW) in
  tbl ← feature_updates recipe_features NEW tbl;
  Some (excluded_updates NEW tbl).

(** [on_rating_insert]: the trigger runs inside the inserting statement;
    when it raises, the statement is rolled back and the table is as
    before. *)
Definition on_rating_insert (recipes : recipes_table) (tbl : weights_table)
  (NEW : ratings_row) : weights_table :=
  default tbl (update_preference_weights recipes NEW tbl).

(** The stored weight of a key, [0] for a key without a row. *)
Definition weight_of (tbl : weights_table) (k : string * feature_type * string) : Z :=
  match tbl !! k with
  | Some (w, _) => w
  | None => 0
  end.

Definition sample_count_of (tbl : weights_table) (k : string * feature_type * string) : Z :=
  match tbl !! k with
  | Some (_, n) => n
  | None => 0
  end.

(** [get_next_recipe_to_rate]: [ORDER BY r.external_rating DESC NULLS
    LAST, RANDOM() LIMIT 1] over the recipes without a rating of the
    profile.  [RANDOM] gives the number drawn for the row of each recipe. *)
Definition random_order_cmp (RANDOM : string -> Z) (a b : Recipe) : Z :=
  let c := Recommendation.external_rating_cmp a b in
  if c =? 0 then RANDOM (recipe_id_of a) - RANDOM (recipe_id_of b) else c.

Definition not_rated_by (db : Database) (p_profile_id : string) (r : Recipe) : bool :=
  negb (existsb (fun rt => String.eqb (rating_recipe_id rt) (recipe_id_of r)
                           && String.eqb (rating_profile_id rt) p_profile_id)
                (ratings db)).

Definition get_next_recipe_to_rate (db : Database) (p_profile_id : string)
  (RANDOM : string -> Z) : option Recipe :=
  head (Js.sort (random_order_cmp RANDOM)
                (List.filter (not_rated_by db p_profile_id) (recipes db))).

End Schema.

(** ** The SQL functions that read the weights *)

Module SqlFunctions.

Definition feature_type_label (t : Schema.feature_type) : string :=
  match t with
  | Schema.cuisine => "cuisine"
  | Schema.protein => "protein"
  | Schema.carb => "carb"
  | Schema.cooking_method => "cooking_method"
  | Schema.prep_time_bucket => "prep_time_bucket"
  | Schema.ingredient => "ingredient"
  | Schema.spice_level => "spice_level"
  | Schema.meal_type => "meal_type"
  end.

(** The JSONB value behind a feature value. *)
Definition to_jsonb (v : FeatureValue) : Schema.jsonb :=
  match v with
  | FNull => Schema.JNull
  | FScalar s => Schema.JString s
  | FArray vs => Schema.JArray vs
  end.

(** [SELECT weight INTO user_weight FROM preference_weights WHERE
    profile_id = p_profile_id AND feature_type = feature_key::feature_type
    AND feature_value = ..]: the weight of the row, [NULL] without one.
    The outer [None] is the error of the cast, taken to be raised whenever
    the name is no label of the enum. *)
Definition select_weight (db : Database) (p_profile_id feature_key value : string)
  : option (option Z) :=
  ft ← Schema.cast_feature_type feature_key;
  Some (weight <$>
        find (fun w => String.eqb (profile_id w) p_profile_id
                       && String.eqb (feature_type w) (feature_type_label ft)
                       && String.eqb (feature_value w) value)
             (preference_weights db)).

(** [IF user_weight IS NOT NULL THEN total_score := total_score + user_weight]. *)
Definition add_user_weight (db : Database) (p_profile_id feature_key : string)
  (total_score : option Z) (value : string) : option Z :=
  total_score ← total_score;
  user_weight ← select_weight db p_profile_id feature_key value;
  Some (match user_weight with
        | Some w => total_score + w
        | None => total_score
        end).

Definition score_entry (db : Database) (p_profile_id : string) (total_score : option Z)
  (entry : string * FeatureValue) : option Z :=
  match to_jsonb (snd entry) with
  | Schema.JArray elems =>
      fold_left (add_user_weight db p_profile_id (fst entry)) elems total_score
  | feature_val =>
      add_user_weight db p_profile_id (fst entry) total_score (Schema.jsonb_text feature_val)
  end.

Definition calculate_recipe_score (db : Database) (p_profile_id p_recipe_id : string)
  : option Z :=
  let recipe_features :=
    match find (fun r => String.eqb (recipe_id_of r) p_recipe_id) (recipes db) with
    | Some r => features r
    | None => []
    end in
  fold_left (score_entry db p_profile_id) recipe_features (Some 0).

(** One group of [aggregated]: [MIN(score)] and [jsonb_object_agg(pname,
    score)] over the rows of a recipe; no rows, no group. *)
Definition aggregate (r : Recipe) (rows : list (string * Z)) : list FamilyScoredRecipe :=
  match rows with
  | [] => []
  | (_, score) :: rest =>
      [ {| recipe_id := recipe_id_of r;
           recipe_name := name r;
           fs_image_url := image_url r;
           min_score := Js.Num (fold_left Z.min (map snd rest) score);
           scores := fold_left (fun m row => <[fst row := snd row]> m) rows ∅ |} ]
  end.

(** The rows of [recipe_scores] for one recipe: the cross join with the
    profiles of the household. *)
Definition recipe_scores (db : Database) (household : list Profile) (r : Recipe)
  : option (list (string * Z)) :=
  mapM (fun p => score ← calculate_recipe_score db (id p) (recipe_id_of r);
                 Some (display_name p, score)) household.

(** [get_family_suggestions]: [WHERE min_score > 0 ORDER BY min_score DESC
    LIMIT p_limit]. *)
Definition get_family_suggestions (db : Database) (p_household_id : string) (p_limit : nat)
  : option (list FamilyScoredRecipe) :=
  let household_profiles :=
    List.filter (fun p => String.eqb (household_id p) p_household_id) (profiles db) in
  aggregated ← mapM (fun r => aggregate r <$> recipe_scores db household_profiles r)
                    (recipes db);
  Some (firstn p_limit
          (Js.sort Recommendation.min_score_cmp
             (List.filter (fun row => match min_score row with
                                      | Js.Num m => 0 <? m
                                      | Js.Infinity => false
                                      end)
                          (concat aggregated)))).

End SqlFunctions.

(** ** Reference definitions: what the specification says *)

Module Spec.

Import Recommendation.

Definition sumZ {A : Type} (g : A -> Z) (l : list A) : Z :=
  fold_right (fun x acc => g x + acc) 0 l.

(** A feature name or a weight type without a colon, as every name of
    [RecipeFeatures] and of [FeatureType] is. *)
Fixpoint colon_free (s : string) : bool :=
  match s with
  | EmptyString => true
  | String c rest => negb (Ascii.eqb c ":") && colon_free rest
  end.

(** [(t, v)] is present in the feature set: [v] is the scalar value of
    feature [t], or a member of the set-valued feature [t]. *)
Definition value_has (fv : FeatureValue) (v : string) : bool :=
  match fv with
  | FNull => false
  | FScalar s => String.eqb s v
  | FArray vs => existsb (String.eqb v) vs
  end.

Definition has_feature (f : RecipeFeatures) (t v : string) : bool :=
  existsb (fun '(k, fv) => String.eqb k t && value_has fv v) f.

(** The sum of the weights whose [(type, value)] pair is present in the
    feature set. *)
Definition matched_weight_sum (f : RecipeFeatures) (ws : list PreferenceWeight) : Z :=
  sumZ (fun w => if has_feature f (feature_type w) (feature_value w) then weight w else 0) ws.

(** A feature set: names are distinct and colon free, set-valued
    features list each member once. *)
Definition feature_set (f : RecipeFeatures) : Prop :=
  NoDup (map fst f) /\
  Forall (fun e => colon_free (fst e) = true /\
                   match snd e with FArray vs => NoDup vs | _ => True end) f.

(** The [(name, value)] pairs of a feature set, one per scalar and one
    per array member. *)
Definition feature_pairs (f : RecipeFeatures) : list (string * string) :=
  flat_map (fun e => match snd e with
                     | FNull => []
                     | FScalar s => [(fst e, s)]
                     | FArray vs => map (pair (fst e)) vs
                     end) f.

Definition lookup0 (m : gmap string Z) (k : string) : Z := default 0 (m !! k).

(** Each [(feature_type, feature_value)] key occurs at most once. *)
Definition unique_keys (ws : list PreferenceWeight) : Prop :=
  NoDup (map (fun w => (feature_type w, feature_value w)) ws) /\
  Forall (fun w => colon_free (feature_type w) = true) ws.

(** The weight list without the weights of type ['ingredient']. *)
Definition without_ingredient_weights (ws : list PreferenceWeight) : list PreferenceWeight :=
  List.filter (fun w => negb (String.eqb (feature_type w) "ingredient")) ws.

(** The feature names [extractFeatures] assigns. *)
Definition extracted_names : list string :=
  [ "protein"; "carb"; "cuisine"; "spice_level"; "prep_time_bucket"; "ingredients" ].

Definition pair_key (w : PreferenceWeight) : string * string :=
  (feature_type w, feature_value w).

(** The weight of [w] when its key is [p], nothing otherwise. *)
Definition indicator (p : string * string) (w : PreferenceWeight) : Z :=
  if decide (pair_key w = p) then weight w else 0.

(** The weights of one profile as stored. *)
Definition profileWeights (db : Database) (p : Profile) : list PreferenceWeight :=
  List.filter (fun w => String.eqb (profile_id w) (id p)) (preference_weights db).

(** The individual scores of the members for one recipe. *)
Definition memberScores (db : Database) (profs : list Profile) (recipe : Recipe) : list Z :=
  map (fun p => calculateScore (features recipe) (profileWeights db p)) profs.

Definition is_minimum (m : Z) (l : list Z) : Prop :=
  m ∈ l /\ forall s, s ∈ l -> m <= s.

(** [weightsByProfile], [minScore] and the pushed record as
    [getFamilySuggestions] computes them for one recipe of the pool. *)
Definition weightsByProfileOf (db : Database) (profs : list Profile)
  : gmap string (list PreferenceWeight) :=
  groupWeights profs (householdWeights db (map id profs)).

Definition groupScore (db : Database) (profs : list Profile) (recipe : Recipe) : Js.number :=
  snd (scoreFamily (features recipe) (weightsByProfileOf db profs) profs).

Definition entryOf (db : Database) (profs : list Profile) (recipe : Recipe)
  : FamilyScoredRecipe :=
  {| recipe_id := recipe_id_of recipe;
     recipe_name := name recipe;
     fs_image_url := image_url recipe;
     min_score := Js.round2_number (groupScore db profs recipe);
     scores := fst (scoreFamily (features recipe) (weightsByProfileOf db profs) profs) |}.

(** The candidate pool: the two hundred best externally rated recipes. *)
Definition poolOf (db : Database) : list Recipe :=
  firstn 200 (order_by_external_rating (recipes db)).

(** The candidates that pass the family filter, in pool order. *)
Definition accepted (db : Database) (profs : list Profile) : list Recipe :=
  List.filter (fun r => Js.ge0 (groupScore db profs r)) (poolOf db).

(** The recipes a profile has rated, and the recipes left for it. *)
Definition ratedIdsOf (db : Database) (profileId : string) : list string :=
  map rating_recipe_id (profileRatings db profileId).

Definition unratedRecipes (db : Database) (profileId : string) : list Recipe :=
  List.filter (fun r => negb (existsb (String.eqb (recipe_id_of r)) (ratedIdsOf db profileId)))
              (recipes db).

(** [r] has the highest external rating among the recipes left for the
    profile, a missing rating counting as the lowest. *)
Definition best_unrated (db : Database) (profileId : string) (r : Recipe) : Prop :=
  r ∈ recipes db /\ (recipe_id_of r ∉ ratedIdsOf db profileId) /\
  forall r', r' ∈ recipes db -> (recipe_id_of r' ∉ ratedIdsOf db profileId) ->
             external_rating_cmp r r' <= 0.

(** *** The weight table *)

(** Every stored weight lies in [-1.0, 1.0]. *)
Definition in_bounds (tbl : Schema.weights_table) : Prop :=
  forall k, -1000 <= Schema.weight_of tbl k <= 1000.

(** The upsert of the feature loop on the key as a whole. *)
Definition upsert_key (weight_delta : Z) (tbl : Schema.weights_table)
  (k : string * Schema.feature_type * string) : Schema.weights_table :=
  Schema.upsert_feature tbl (fst (fst k)) (snd (fst k)) (snd k) weight_delta.

(** What one upsert leaves in a row. *)
Definition upserted (weight_delta : Z) (row : option (Z * Z)) : Z * Z :=
  match row with
  | Some (w, n) => (Z.max (-1000) (Z.min 1000 (w + weight_delta)), n + 1)
  | None => (weight_delta, 1)
  end.

Definition penalised (row : option (Z * Z)) : Z * Z :=
  match row with
  | Some (w, n) => (Z.max (-1000) (w - 200), n + 1)
  | None => (-200, 1)
  end.

(** The upsert of the exclusion loop on the key as a whole. *)
Definition penalise_key (tbl : Schema.weights_table)
  (k : string * Schema.feature_type * string) : Schema.weights_table :=
  Schema.upsert_excluded tbl (fst (fst k)) (snd k).

(** The keys the feature loop writes, one per scalar feature and one per
    array member, in loop order. *)
Definition feature_keys (pid : string) (recipe_features : list (string * Schema.jsonb))
  : list (string * Schema.feature_type * string) :=
  flat_map (fun entry =>
              match Schema.cast_feature_type (fst entry) with
              | Some ft =>
                  match snd entry with
                  | Schema.JArray elems => map (fun e => (pid, ft, e)) elems
                  | v => [(pid, ft, Schema.jsonb_text v)]
                  end
              | None => []
              end) recipe_features.

(** The keys the exclusion loop writes. *)
Definition excluded_keys (NEW : Schema.ratings_row)
  : list (string * Schema.feature_type * string) :=
  map (fun x => (Schema.profile_id NEW, Schema.ingredient, x))
      (Schema.excluded_ingredients NEW).

Section CuisineSpec.
Context {rt : Features.StringRuntime}.

(** How many keywords of the table that stand for [cuisine] occur in the
    text. *)
Definition keyword_hits (table : list (string * string)) (allText cuisine : string) : Z :=
  Z.of_nat (length (List.filter (fun kc => String.eqb cuisine (snd kc)
                                           && Features.matches allText (fst kc)) table)).

(** The cuisines of the matching keywords, in table order. *)
Definition hitsOf (table : list (string * string)) (allText : string) : list string :=
  map snd (List.filter (fun kc => Features.matches allText (fst kc)) table).

(** [cuisine] wins over every cuisine met earlier: whatever keyword
    matches before the first matching keyword of [cuisine] belongs to a
    cuisine with strictly fewer hits. *)
Definition first_among_equals (table : list (string * string)) (allText cuisine : string)
  : Prop :=
  forall pre kw post,
    table = pre ++ (kw, cuisine) :: post ->
    Features.matches allText kw = true ->
    (forall kc, kc ∈ pre -> snd kc = cuisine -> Features.matches allText (fst kc) = false) ->
    forall kc, kc ∈ pre -> Features.matches allText (fst kc) = true ->
               keyword_hits table allText (snd kc) < keyword_hits table allText cuisine.

End CuisineSpec.

(** [cuisineCounts[c] = (cuisineCounts[c] || 0) + 1]. *)
Definition bump (o : Js.object Z) (c : string) : Js.object Z :=
  Js.set o c (default 0 (Js.get o c) + 1).

(** Number of occurrences of [c] in a list. *)
Definition occ (c : string) (l : list string) : Z :=
  Z.of_nat (length (List.filter (String.eqb c) l)).

(** [r] is the first of the best: every unrated recipe stored before it
    has a strictly lower external rating, none stored after it a higher. *)
Definition first_best_unrated (db : Database) (profileId : string) (r : Recipe) : Prop :=
  exists l1 l2, unratedRecipes db profileId = l1 ++ r :: l2 /\
                (forall y, y ∈ l1 -> 0 < external_rating_cmp y r) /\
                (forall y, y ∈ l2 -> external_rating_cmp r y <= 0).

(** The list is in non-increasing order of the rounded group score. *)
Definition rounded_before (a b : FamilyScoredRecipe) : Prop :=
  exists x y, min_score a = Js.Num x /\ min_score b = Js.Num y /\ y <= x.

End Spec.

(** ** Concrete inputs used to exercise the definitions *)

Module Examples.

Definition salmon_features : RecipeFeatures :=
  [ ("protein", FArray ["salmon"; "egg"]); ("cuisine", FScalar "swedish");
    ("spice_level", FScalar "mild"); ("ingredients", FArray ["lax"; "dill"]) ].

Definition mk_weight (pid t v : string) (w : Z) : PreferenceWeight :=
  {| profile_id := pid; feature_type := t; feature_value := v;
     weight := w; sample_count := 1 |}.

Definition lisa_weights : list PreferenceWeight :=
  [ mk_weight "lisa" "protein" "salmon" (-600);
    mk_weight "lisa" "cuisine" "swedish" 150;
    mk_weight "lisa" "carb" "pasta" 800;
    mk_weight "lisa" "ingredient" "lax" (-200) ].

Definition mk_profile (pid household : string) : Profile :=
  {| id := pid; household_id := household; display_name := pid |}.

Definition mk_recipe (rid : string) (f : RecipeFeatures) (rating : option Z) : Recipe :=
  {| recipe_id_of := rid; name := rid; image_url := None;
     features := f; external_rating := rating |}.

(** The family of the veto scenario: the fish recipe scores -0.6, +0.5
    and 0.0. *)
Definition fish_recipe : Recipe := mk_recipe "fish" [("protein", FArray ["fish"])] (Some 470).
Definition pasta_recipe : Recipe := mk_recipe "pasta" [("carb", FScalar "pasta")] (Some 450).

Definition veto_db : Database :=
  {| profiles := [mk_profile "lisa" "h"; mk_profile "erik" "h"; mk_profile "kid" "h"];
     preference_weights :=
       [ mk_weight "lisa" "protein" "fish" (-600); mk_weight "erik" "protein" "fish" 500;
         mk_weight "lisa" "carb" "pasta" 800; mk_weight "erik" "carb" "pasta" 700;
         mk_weight "kid" "carb" "pasta" 900 ];
     recipes := [fish_recipe; pasta_recipe];
     ratings := [] |}.

(** A household nobody has rated for yet. *)
Definition cold_db : Database :=
  {| profiles := [mk_profile "lisa" "h"];
     preference_weights := [];
     recipes := [fish_recipe; pasta_recipe];
     ratings := [] |}.

(** Two recipes whose group scores, 0.001 and 0.004, round to the same
    hundredth. *)
Definition recipe_a : Recipe := mk_recipe "a" [("cuisine", FScalar "a")] (Some 470).
Definition recipe_b : Recipe := mk_recipe "b" [("cuisine", FScalar "b")] (Some 450).

Definition close_db : Database :=
  {| profiles := [mk_profile "lisa" "h"];
     preference_weights :=
       [ mk_weight "lisa" "cuisine" "a" 1; mk_weight "lisa" "cuisine" "b" 4 ];
     recipes := [recipe_a; recipe_b];
     ratings := [] |}.

(** Two unrated recipes with the same external rating, and two outcomes
    of the draws of [RANDOM()]. *)
Definition tie_db : Database :=
  {| profiles := [mk_profile "lisa" "h"; mk_profile "erik" "h"];
     preference_weights := [];
     recipes := [mk_recipe "a" [] (Some 470); mk_recipe "b" [] (Some 470)];
     ratings := [] |}.

Definition draw_a_first (rid : string) : Z := if String.eqb rid "a" then 1 else 2.
Definition draw_b_first (rid : string) : Z := if String.eqb rid "a" then 2 else 1.

(** A profile that has rated the fish recipe. *)
Definition rated_db : Database :=
  {| profiles := [mk_profile "lisa" "h"];
     preference_weights := [];
     recipes := [fish_recipe; pasta_recipe];
     ratings := [ {| rating_profile_id := "lisa"; rating_recipe_id := "fish" |} ] |}.

Definition mk_ingredient (n : string) : Features.Ingredient :=
  {| Features.amount := "1"; Features.ingredient := n; Features.unit := None |}.

(** Two hits for indian (curry, tikka), one for swedish (grädde). *)
Definition tikka_ingredients : list Features.Ingredient :=
  [ mk_ingredient "Kycklingfilé"; mk_ingredient "Curry"; mk_ingredient "Grädde (vispad)" ].
Definition tikka_name : string := "Kyckling Tikka Masala".

(** One hit each for mexican (taco) and italian (parmesan). *)
Definition taco_ingredients : list Features.Ingredient :=
  [ mk_ingredient "Riven parmesan"; mk_ingredient "Tacokrydda" ].
Definition taco_name : string := "Fredagsmys".

(** The salmon recipe of the exclusion scenario, with the ingredient
    under the name the enum knows, and a recipe without it. *)
Definition salmon_jsonb : list (string * Schema.jsonb) :=
  [ ("cuisine", Schema.JString "swedish"); ("ingredient", Schema.JArray ["lax"; "dill"]) ].

Definition plain_salmon_jsonb : list (string * Schema.jsonb) :=
  [ ("cuisine", Schema.JString "swedish"); ("protein", Schema.JArray ["salmon"]) ].

Definition stored_recipes : gmap string (list (string * Schema.jsonb)) :=
  {[ "salmon" := salmon_jsonb; "plain" := plain_salmon_jsonb;
     "extracted" := [ ("ingredients", Schema.JArray ["lax"]) ] ]}.

Definition mk_rating (rid : string) (r : Schema.rating_value) (excluded : list string)
  : Schema.ratings_row :=
  {| Schema.profile_id := "lisa"; Schema.recipe_id := rid; Schema.rating := r;
     Schema.excluded_ingredients := excluded |}.

Definition lax_key : string * Schema.feature_type * string :=
  ("lisa", Schema.ingredient, "lax").

End Examples.

(** ** Further code of the cited files *)

(** *** [explainSuggestion] and [formatFeature] ([src/lib/features.ts]) *)

Module Explain.

(** [Array.prototype.join(sep)]. *)
Fixpoint join (sep : string) (parts : list string) : string :=
  match parts with
  | [] => ""
  | [p] => p
  | p :: ps => p +:+ sep +:+ join sep ps
  end.

Definition formatFeature (type value : string) : string :=
  if String.eqb type "cuisine" then value +:+ " food"
  else if String.eqb type "protein" then value
  else if String.eqb type "carb" then value
  else if String.eqb type "prep_time_bucket" then value +:+ " meals"
  else if String.eqb type "ingredient" then value
  else if String.eqb type "spice_level" then value +:+ " spice"
  else value.

(** The test of one weight: [w.weight <= 0.3] leaves; a missing, [null]
    or empty feature value leaves; an array must include the value, a
    scalar must equal it.  (A name found only on the prototype of the
    object yields a function or an object, which is neither an array nor
    equal to a string: it pushes nothing, like a missing name.) *)
Definition explains (recipeFeatures : RecipeFeatures) (w : PreferenceWeight) : bool :=
  if weight w <=? 300 then false
  else match Js.get recipeFeatures (feature_type w) with
       | None => false
       | Some FNull => false
       | Some (FScalar s) =>
           if String.eqb s "" then false else String.eqb s (feature_value w)
       | Some (FArray vs) => existsb (String.eqb (feature_value w)) vs
       end.

Definition collectPositives (recipeFeatures : RecipeFeatures)
  (userWeights : list PreferenceWeight) : list string :=
  fold_left (fun positives w =>
               if explains recipeFeatures w
               then positives ++ [formatFeature (feature_type w) (feature_value w)]
               else positives)
            userWeights [].

Definition explainSuggestion (recipeFeatures : RecipeFeatures)
  (userWeights : list PreferenceWeight) : string :=
  let positives := collectPositives recipeFeatures userWeights in
  match positives with
  | [] => "Matches general preferences"
  | _ => "You like " +:+ join ", " (firstn 3 positives)
  end.

End Explain.

(** *** [getSuggestionsForUser] and [getRatingDelta]
    ([src/lib/recommendation.ts]) *)

Module Suggestions.

Record ScoredRecipe : Type := {
  recipe : Recipe;
  score : Z
}.

(** The weights query [.eq('profile_id', profileId)]. *)
Definition userWeights (db : Database) (profileId : string) : list PreferenceWeight :=
  List.filter (fun w => String.eqb (profile_id w) profileId) (preference_weights db).

(** [getSuggestionsForUser].  [pool] stands for the rows the recipes query
    returned (its [not in] filter is a string handed to the store; at most
    100 rows); they are scored, sorted by [b.score - a.score] and cut to
    [limit]. *)
Definition getSuggestionsForUser (db : Database) (profileId : string)
  (pool : list Recipe) (limit : nat) : list ScoredRecipe :=
  let weights := userWeights db profileId in
  Js.slice0 limit
    (Js.sort (fun a b => score b - score a)
       (map (fun r => {| recipe := r;
                         score := Recommendation.calculateScore (features r) weights |})
            pool)).

Definition getRatingDelta (rating : string) : Z :=
  if String.eqb rating "loved" then 150
  else if String.eqb rating "liked" then 80
  else if String.eqb rating "neutral" then 0
  else if String.eqb rating "disliked" then -80
  else if String.eqb rating "hated" then -150
  else 0.

(** The label of a value of the enum [rating_value]. *)
Definition rating_label (r : Schema.rating_value) : string :=
  match r with
  | Schema.loved => "loved"
  | Schema.liked => "liked"
  | Schema.neutral => "neutral"
  | Schema.disliked => "disliked"
  | Schema.hated => "hated"
  end.

End Suggestions.

(** *** What the further properties speak of *)

Module FeaturesSpec.

Section WithRuntime.
Context {rt : Features.StringRuntime}.

(** A keyword of the spice table with the given level occurs in the text. *)
Definition spice_match (allText : string) (level : Features.SpiceLevel) : Prop :=
  exists kw, (kw, level) ∈ Features.SPICE_INDICATORS /\
             Features.matches allText kw = true.

(** [kc] is the first entry of the table whose keyword occurs in the text. *)
Definition first_match (table : list (string * string)) (allText : string)
  (kc : string * string) : Prop :=
  exists pre post, table = pre ++ kc :: post /\
                   Features.matches allText (fst kc) = true /\
                   forall kc', kc' ∈ pre -> Features.matches allText (fst kc') = false.

End WithRuntime.

(** The names of an extracted feature set come in assignment order. *)
Definition assignment_order : list string :=
  [ "protein"; "carb"; "cuisine"; "spice_level"; "prep_time_bucket"; "ingredients" ].

(** A value that is there and, for an array, has a member. *)
Definition substantial (v : FeatureValue) : Prop :=
  match v with
  | FNull => False
  | FScalar _ => True
  | FArray vs => vs <> []
  end.

End FeaturesSpec.

(** *** The stored tables as the scorers read them *)

Module Store.

(** [JSON.stringify] of a feature set, as the column [recipes.features]
    takes it. *)
Definition stored_features (f : RecipeFeatures) : list (string * Schema.jsonb) :=
  map (fun e => (fst e, SqlFunctions.to_jsonb (snd e))) f.

(** A row of [preference_weights] as the client receives it. *)
Definition row_of (k : string * Schema.feature_type * string) (v : Z * Z)
  : PreferenceWeight :=
  {| profile_id := fst (fst k);
     feature_type := SqlFunctions.feature_type_label (snd (fst k));
     feature_value := snd k;
     weight := fst v;
     sample_count := snd v |}.

(** [.from('preference_weights').select('*')], the rows in some order. *)
Definition rows_of (tbl : Schema.weights_table) : list PreferenceWeight :=
  map (fun kv => row_of (fst kv) (snd kv)) (map_to_list tbl).

(** [.eq('profile_id', profileId)]. *)
Definition profile_rows (tbl : Schema.weights_table) (profileId : string)
  : list PreferenceWeight :=
  List.filter (fun w => String.eqb (profile_id w) profileId) (rows_of tbl).

(** How often a key stands in a list of written keys. *)
Definition touches (k : string * Schema.feature_type * string)
  (keys : list (string * Schema.feature_type * string)) : Z :=
  Z.of_nat (length (List.filter (fun k' => bool_decide (k' = k)) keys)).

(** An entry of the features on which the feature loop runs a statement
    whose cast fails: a name that is no label of the enum, with a scalar or
    an array that has a member. *)
Definition unknown_name (entry : string * Schema.jsonb) : bool :=
  match Schema.cast_feature_type (fst entry), snd entry with
  | Some _, _ => false
  | None, Schema.JArray [] => false
  | None, _ => true
  end.

(** The keys of the table [calculateScore] looks up for a feature set:
    the scalar itself and the array members, nothing for [null] or for a
    name that is no label. *)
Definition ts_keys (pid : string) (f : RecipeFeatures)
  : list (string * Schema.feature_type * string) :=
  flat_map (fun e =>
              match Schema.cast_feature_type (fst e) with
              | Some ft =>
                  match snd e with
                  | FNull => []
                  | FScalar s => [(pid, ft, s)]
                  | FArray vs => map (fun v => (pid, ft, v)) vs
                  end
              | None => []
              end) f.

(** The unique key of a row. *)
Definition full_key (w : PreferenceWeight) : string * string * string :=
  (profile_id w, feature_type w, feature_value w).

(** The members of the set-valued features. *)
Definition array_members (f : RecipeFeatures) : list string :=
  flat_map (fun e => match snd e with FArray vs => vs | _ => [] end) f.

End Store.

(** *** Further concrete inputs *)

Module Samples.

Import Examples.

(** A pasta dish: the keywords [pasta] and [spaghetti] both occur. *)
Definition carbonara_ingredients : list Features.Ingredient :=
  [ mk_ingredient "spaghetti"; mk_ingredient "bacon"; mk_ingredient "äggulor";
    mk_ingredient "parmesan"; mk_ingredient "grädde"; mk_ingredient "vitlök" ].
Definition carbonara_name : string := "Pasta Carbonara".

(** A dish with a medium keyword (curry) before a hot one (chili). *)
Definition vindaloo_ingredients : list Features.Ingredient :=
  [ mk_ingredient "kyckling"; mk_ingredient "curry"; mk_ingredient "chili";
    mk_ingredient "ris" ].
Definition vindaloo_name : string := "Vindaloo".

(** The features of the first recipe of [src/sql/seed-recipes.sql]. *)
Definition seed_meatballs : list (string * Schema.jsonb) :=
  [ ("cuisine", Schema.JString "swedish"); ("protein", Schema.JArray ["beef"; "pork"]);
    ("spice_level", Schema.JString "mild"); ("prep_time_bucket", Schema.JString "medium");
    ("ingredients", Schema.JArray ["blandfärs"; "ägg"; "grädde"; "lök"; "ströbröd"]) ].

Definition seed_recipes : gmap string (list (string * Schema.jsonb)) :=
  {[ "meatballs" := seed_meatballs ]}.

(** The recipe [plain] of [stored_recipes] as the client reads it. *)
Definition plain_features : RecipeFeatures :=
  [ ("cuisine", FScalar "swedish"); ("protein", FArray ["salmon"]) ].

Definition plain_recipe : Recipe := mk_recipe "plain" plain_features (Some 450).

(** The table after lisa loved that recipe, and the store with it. *)
Definition learned_table : Schema.weights_table :=
  Schema.on_rating_insert stored_recipes ∅ (mk_rating "plain" Schema.loved []).

Definition learned_db : Database :=
  {| profiles := [mk_profile "lisa" "h"];
     preference_weights := Store.rows_of learned_table;
     recipes := [plain_recipe];
     ratings := [ {| rating_profile_id := "lisa"; rating_recipe_id := "plain" |} ] |}.

(** The recipe store of the extracted tikka recipe. *)
Definition tikka_stored : list (string * Schema.jsonb) :=
  Store.stored_features
    (Features.extractFeatures (rt := Features.Latin1.runtime)
       tikka_ingredients tikka_name (Some 20) (Some 25)).

Definition tikka_recipes : gmap string (list (string * Schema.jsonb)) :=
  {[ "tikka" := tikka_stored ]}.

(** A profile with twenty ratings and two recipes left. *)
Definition rated_ids : list string :=
  [ "r01"; "r02"; "r03"; "r04"; "r05"; "r06"; "r07"; "r08"; "r09"; "r10";
    "r11"; "r12"; "r13"; "r14"; "r15"; "r16"; "r17"; "r18"; "r19"; "r20" ].

Definition seasoned_db : Database :=
  {| profiles := [mk_profile "lisa" "h"];
     preference_weights := [];
     recipes := map (fun rid => mk_recipe rid [] (Some 500)) rated_ids
                ++ [fish_recipe; pasta_recipe];
     ratings := map (fun rid => {| rating_profile_id := "lisa"; rating_recipe_id := rid |})
                    rated_ids |}.

End Samples.

(** * Properties *)

(** A decidable proposition settled by evaluation. *)
Ltac by_decide :=
  match goal with |- ?P => apply (bool_decide_unpack P); vm_compute; exact I end.

Section ScoringEngine.

Import Recommendation Spec.

Lemma sumZ_app {A} (g : A -> Z) (l1 l2 : list A) :
  sumZ g (l1 ++ l2) = sumZ g l1 + sumZ g l2.
Proof. induction l1 as [|x l1 IH]; simpl; [reflexivity|]. rewrite IH. lia. Qed.

Lemma sumZ_ext {A} (g h : A -> Z) (l : list A) :
  (forall x, In x l -> g x = h x) -> sumZ g l = sumZ h l.
Proof.
  induction l as [|x l IH]; simpl; intros Hgh; [reflexivity|].
  rewrite Hgh by (left; reflexivity). rewrite IH; [reflexivity|].
  intros y Hy. apply Hgh. right. exact Hy.
Qed.

Lemma sumZ_zero {A} (l : list A) : sumZ (fun _ => 0) l = 0.
Proof. induction l as [|x l IH]; simpl; [reflexivity|]. rewrite IH. reflexivity. Qed.

Lemma sumZ_plus {A} (g h : A -> Z) (l : list A) :
  sumZ (fun x => g x + h x) l = sumZ g l + sumZ h l.
Proof. induction l as [|x l IH]; simpl; [reflexivity|]. rewrite IH. lia. Qed.

Lemma sumZ_swap {A B} (g : A -> B -> Z) (la : list A) (lb : list B) :
  sumZ (fun a => sumZ (fun b => g a b) lb) la
  = sumZ (fun b => sumZ (fun a => g a b) la) lb.
Proof.
  induction la as [|a la IH]; simpl.
  - symmetry. apply sumZ_zero.
  - rewrite IH. symmetry. apply sumZ_plus.
Qed.

Lemma sumZ_map {A B} (g : B -> Z) (h : A -> B) (l : list A) :
  sumZ g (map h l) = sumZ (fun x => g (h x)) l.
Proof. induction l as [|x l IH]; simpl; [reflexivity|]. rewrite IH. reflexivity. Qed.

(** The indicator sum over a duplicate-free list picks at most one term. *)
Lemma sumZ_indicator {A} `{EqDecision A} (q : A) (c : Z) (l : list A) :
  NoDup l ->
  sumZ (fun p => if decide (p = q) then c else 0) l = if decide (q ∈ l) then c else 0.
Proof.
  induction l as [|x l IH]; intros Hnd.
  - simpl. destruct (decide (q ∈ [])) as [Hin|]; [inversion Hin|reflexivity].
  - apply NoDup_cons in Hnd as [Hx Hnd]. simpl. rewrite (IH Hnd).
    destruct (decide (x = q)) as [->|Hne].
    + destruct (decide (q ∈ l)) as [Hin|Hin]; [tauto|].
      destruct (decide (q ∈ q :: l)) as [|Hn]; [lia|].
      exfalso. apply Hn. left.
    + destruct (decide (q ∈ l)) as [Hin|Hin];
        destruct (decide (q ∈ x :: l)) as [Hin'|Hin']; try lia.
      * exfalso. apply Hin'. right. exact Hin.
      * apply elem_of_cons in Hin' as [->|]; tauto.
Qed.

Lemma weight_key_inj t1 v1 t2 v2 :
  colon_free t1 = true -> colon_free t2 = true ->
  weight_key t1 v1 = weight_key t2 v2 -> t1 = t2 /\ v1 = v2.
Proof.
  unfold weight_key. revert t2.
  induction t1 as [|c1 t1 IH]; intros [|c2 t2] H1 H2 Heq;
    cbn [colon_free] in H1, H2; cbv [String.append] in Heq; fold String.append in Heq.
  - injection Heq as Heq. subst. split; reflexivity.
  - injection Heq as Hc _. subst c2. simpl in H2. discriminate.
  - injection Heq as Hc _. subst c1. simpl in H1. discriminate.
  - injection Heq as Hc Heq. subst c2.
    apply andb_true_iff in H1 as [_ H1]. apply andb_true_iff in H2 as [_ H2].
    destruct (IH t2 H1 H2 Heq) as [-> ->]. split; reflexivity.
Qed.

Lemma indicator_absent p ws :
  p ∉ map pair_key ws -> sumZ (indicator p) ws = 0.
Proof.
  induction ws as [|w ws IH]; simpl; intros Hn; [reflexivity|].
  apply not_elem_of_cons in Hn as [Hne Hn]. rewrite (IH Hn).
  unfold indicator. destruct (decide (pair_key w = p)); [congruence|reflexivity].
Qed.

(** What a key of the finished [weightMap] holds: the weight of the one
    entry of the list under that pair. *)
Lemma weightMap_lookup t v ws :
  colon_free t = true -> unique_keys ws ->
  lookup0 (buildWeightMap ws) (weight_key t v) = sumZ (indicator (t, v)) ws.
Proof.
  intros Ht [Hnd Hcf]. unfold buildWeightMap.
  change (NoDup (map pair_key ws)) in Hnd.
  assert (Hgen : forall m,
    lookup0 (fold_left (fun m w =>
               <[weight_key (feature_type w) (feature_value w) := weight w]> m) ws m)
            (weight_key t v)
    = if decide ((t, v) ∈ map pair_key ws) then sumZ (indicator (t, v)) ws
      else lookup0 m (weight_key t v)).
  { induction ws as [|w ws IH]; intros m.
    - simpl. destruct (decide ((t, v) ∈ [])) as [Hin|]; [inversion Hin|reflexivity].
    - simpl in Hnd. apply NoDup_cons in Hnd as [Hw Hnd].
      apply Forall_cons in Hcf as [Hwcf Hcf].
      simpl. rewrite (IH Hnd Hcf). unfold indicator at 2.
      destruct (decide (pair_key w = (t, v))) as [Heq|Hne].
      + rewrite Heq in Hw.
        destruct (decide ((t, v) ∈ map pair_key ws)) as [|_]; [tauto|].
        destruct (decide ((t, v) ∈ pair_key w :: map pair_key ws)) as [_|Hn].
        * rewrite (indicator_absent _ _ Hw). unfold pair_key in Heq.
          injection Heq as -> ->. unfold lookup0. rewrite lookup_insert_eq. simpl. lia.
        * exfalso. apply Hn. rewrite Heq. left.
      + assert (Hk : weight_key (feature_type w) (feature_value w) <> weight_key t v).
        { intros Hk. apply weight_key_inj in Hk as [? ?]; [|assumption..].
          apply Hne. unfold pair_key. congruence. }
        destruct (decide ((t, v) ∈ map pair_key ws)) as [Hin|Hin];
          destruct (decide ((t, v) ∈ pair_key w :: map pair_key ws)) as [Hin'|Hin'].
        * lia.
        * exfalso. apply Hin'. right. exact Hin.
        * apply elem_of_cons in Hin' as [Heq|]; [congruence|tauto].
        * unfold lookup0. rewrite lookup_insert_ne by exact Hk. reflexivity. }
  rewrite Hgen. destruct (decide ((t, v) ∈ map pair_key ws)) as [|Hn]; [reflexivity|].
  rewrite (indicator_absent _ _ Hn). unfold lookup0. rewrite lookup_empty. reflexivity.
Qed.

Lemma addWeight_fold m t vals total :
  fold_left (addWeight m t) vals total
  = total + sumZ (fun v => lookup0 m (weight_key t v)) vals.
Proof.
  revert total. induction vals as [|v vals IH]; intros total; simpl; [lia|].
  rewrite IH. unfold addWeight, lookup0.
  destruct (m !! weight_key t v); simpl; lia.
Qed.

(** The loop of [calculateScore] adds one map lookup per pair. *)
Lemma calculateScore_pairs f ws :
  calculateScore f ws
  = sumZ (fun p => lookup0 (buildWeightMap ws) (weight_key (fst p) (snd p)))
         (feature_pairs f).
Proof.
  unfold calculateScore, Js.entries.
  assert (Hgen : forall total,
    fold_left (scoreFeature (buildWeightMap ws)) f total
    = total + sumZ (fun p => lookup0 (buildWeightMap ws) (weight_key (fst p) (snd p)))
                   (feature_pairs f)).
  { induction f as [|[k fv] f IH]; intros total; simpl; [lia|].
    rewrite IH, sumZ_app. destruct fv as [|s|vs]; simpl.
    - lia.
    - unfold addWeight, lookup0. destruct (_ !! _); simpl; lia.
    - rewrite addWeight_fold, sumZ_map. simpl. lia. }
  rewrite Hgen. lia.
Qed.

Lemma has_feature_pairs f t v :
  has_feature f t v = true <-> (t, v) ∈ feature_pairs f.
Proof.
  unfold has_feature, feature_pairs.
  induction f as [|[k fv] f IH]; simpl.
  - split; [discriminate|]. intros H. inversion H.
  - rewrite orb_true_iff, elem_of_app, IH, andb_true_iff. apply or_iff_compat_r.
    destruct fv as [|s|vs]; simpl.
    + split; [intros [_ ?]; discriminate|]. intros H. inversion H.
    + rewrite !String.eqb_eq, list_elem_of_singleton. split.
      * intros [-> ->]. reflexivity.
      * intros [= -> ->]. split; reflexivity.
    + rewrite String.eqb_eq, existsb_exists, list_elem_of_fmap. split.
      * intros [-> [x [Hx Hv]]]. apply String.eqb_eq in Hv as ->.
        exists x. split; [reflexivity|]. apply list_elem_of_In. exact Hx.
      * intros [x [[= -> ->] Hx]]. split; [reflexivity|].
        exists x. split; [apply list_elem_of_In; exact Hx|apply String.eqb_refl].
Qed.

Lemma feature_pairs_head (k : string) (fv : FeatureValue) (p : string * string) :
  p ∈ match fv with
      | FNull => []
      | FScalar s => [(k, s)]
      | FArray vs => map (pair k) vs
      end -> fst p = k.
Proof.
  destruct fv as [|s|vs]; intros H.
  - inversion H.
  - apply list_elem_of_singleton in H as ->. reflexivity.
  - apply list_elem_of_fmap in H as [x [-> _]]. reflexivity.
Qed.

Lemma feature_pairs_key f p : p ∈ feature_pairs f -> fst p ∈ map fst f.
Proof.
  unfold feature_pairs. induction f as [|[k fv] f IH]; simpl.
  - intros H. inversion H.
  - rewrite elem_of_app. intros [H|H].
    + apply feature_pairs_head in H as ->. left.
    + right. apply IH. exact H.
Qed.

Lemma feature_pairs_NoDup f : feature_set f -> NoDup (feature_pairs f).
Proof.
  intros [Hk Hv]. unfold feature_pairs.
  induction f as [|[k fv] f IH]; simpl; [constructor|].
  simpl in Hk. apply NoDup_cons in Hk as [Hk Hks].
  apply Forall_cons in Hv as [[_ Hfv] Hv]. simpl in Hfv.
  apply NoDup_app. split; [|split; [|apply IH; assumption]].
  - destruct fv as [|s|vs]; simpl.
    + constructor.
    + apply NoDup_singleton.
    + apply NoDup_fmap_2; [|exact Hfv]. intros x y [=]. assumption.
  - intros p Hp Hp'. apply feature_pairs_key in Hp'. apply Hk.
    apply feature_pairs_head in Hp as <-. exact Hp'.
Qed.

Lemma feature_pairs_colon_free f p :
  feature_set f -> p ∈ feature_pairs f -> colon_free (fst p) = true.
Proof.
  intros [_ Hv] Hp. apply feature_pairs_key in Hp.
  apply list_elem_of_fmap in Hp as [e [-> He]].
  rewrite Forall_forall in Hv. apply (Hv e). exact He.
Qed.


End ScoringEngine.

Section ScoringWitness.

Import Recommendation Spec Examples.


End ScoringWitness.

Section IngredientWeights.

Import Recommendation Spec Features.

Lemma set_keys {V} (o : Js.object V) (k : string) (v : V) (x : string) :
  x ∈ map fst (Js.set o k v) -> x = k \/ x ∈ map fst o.
Proof.
  induction o as [|[k' v'] o IH]; simpl.
  - intros H. apply list_elem_of_singleton in H. left. exact H.
  - destruct (String.eqb k' k); simpl; intros H.
    + right. exact H.
    + apply elem_of_cons in H as [->|H].
      * right. left.
      * destruct (IH H) as [->|Hx]; [left; reflexivity|right; right; exact Hx].
Qed.

Lemma assign_keys (f : RecipeFeatures) (k : string) (v : option FeatureValue) (x : string) :
  x ∈ map fst (assign f k v) -> x = k \/ x ∈ map fst f.
Proof.
  destruct v as [fv|]; simpl; [apply set_keys|]. intros H. right. exact H.
Qed.

(** Every name in an extracted feature set is one of the six assigned. *)
Lemma extractFeatures_names `{StringRuntime} ingredients recipeName prepTime cookTime x :
  x ∈ map fst (extractFeatures ingredients recipeName prepTime cookTime) ->
  x ∈ extracted_names.
Proof.
  unfold extractFeatures, extracted_names. intros Hx.
  repeat (apply assign_keys in Hx as [->|Hx]; [set_solver|]).
  inversion Hx.
Qed.

(** A key built from an extracted name is never a key of an
    ['ingredient'] weight: ['ingredients:...'] and ['ingredient:...']
    part at the eleventh character. *)
Lemma extracted_key_not_ingredient k v v' :
  k ∈ extracted_names -> weight_key k v <> weight_key "ingredient" v'.
Proof.
  unfold extracted_names. intros Hk.
  repeat (apply elem_of_cons in Hk as [->|Hk]; [cbv [weight_key String.append]; discriminate|]).
  inversion Hk.
Qed.

(** Dropping weights whose key differs from [K] does not change what
    the finished map holds at [K]. *)
Lemma weightMap_filter (keep : PreferenceWeight -> bool) (K : string) ws :
  (forall w, w ∈ ws -> keep w = false ->
             weight_key (feature_type w) (feature_value w) <> K) ->
  buildWeightMap ws !! K = buildWeightMap (List.filter keep ws) !! K.
Proof.
  unfold buildWeightMap. intros Hdrop.
  assert (Hgen : forall m1 m2 : gmap string Z, m1 !! K = m2 !! K ->
    fold_left (fun m w =>
                 <[weight_key (feature_type w) (feature_value w) := weight w]> m) ws m1 !! K
    = fold_left (fun m w =>
                 <[weight_key (feature_type w) (feature_value w) := weight w]> m)
                (List.filter keep ws) m2 !! K).
  { induction ws as [|w ws IH]; intros m1 m2 Hm; simpl; [exact Hm|].
    assert (Hrest : forall w', w' ∈ ws -> keep w' = false ->
              weight_key (feature_type w') (feature_value w') <> K).
    { intros w' Hin. apply Hdrop. right. exact Hin. }
    destruct (keep w) eqn:Hkeep; simpl.
    - apply IH; [exact Hrest|]. rewrite !lookup_insert. case_decide; [reflexivity|exact Hm].
    - apply IH; [exact Hrest|]. rewrite lookup_insert_ne; [exact Hm|].
      apply Hdrop; [left|exact Hkeep]. }
  apply Hgen. reflexivity.
Qed.

(** C6.  The score of an extracted feature set does not depend on the
    weights of type ['ingredient']: the extracted ingredients sit under
    the name ['ingredients'], which no ['ingredient'] weight key matches. *)
Theorem extracted_score_ignores_ingredient_weights `{StringRuntime}
  (ingredients : list Ingredient) (recipeName : string) (prepTime cookTime : option Z)
  (ws : list PreferenceWeight) :
  calculateScore (extractFeatures ingredients recipeName prepTime cookTime) ws
  = calculateScore (extractFeatures ingredients recipeName prepTime cookTime)
                   (without_ingredient_weights ws).
Proof.
  rewrite !calculateScore_pairs. apply sumZ_ext. intros [k v] Hin. simpl.
  unfold lookup0, without_ingredient_weights. rewrite <- weightMap_filter; [reflexivity|].
  intros w _ Hw. apply negb_false_iff, String.eqb_eq in Hw. rewrite Hw.
  intros Heq. symmetry in Heq. revert Heq. apply extracted_key_not_ingredient.
  apply (extractFeatures_names ingredients recipeName prepTime cookTime).
  apply list_elem_of_In in Hin. apply (feature_pairs_key _ (k, v)). exact Hin.
Qed.

End IngredientWeights.

(** ** The stable sort *)

Section Sort.

Context {A : Type} (cmp : A -> A -> Z).

Lemma sort_insert_perm x l : Js.sort_insert cmp x l ≡ₚ x :: l.
Proof.
  induction l as [|y l IH]; simpl; [reflexivity|].
  destruct (cmp x y <=? 0); [reflexivity|].
  rewrite IH. apply Permutation_swap.
Qed.

Lemma sort_perm l : Js.sort cmp l ≡ₚ l.
Proof.
  induction l as [|x l IH]; simpl; [reflexivity|].
  fold (Js.sort cmp l). rewrite sort_insert_perm, IH. reflexivity.
Qed.

Lemma sort_elem_of x l : x ∈ Js.sort cmp l <-> x ∈ l.
Proof. rewrite (sort_perm l). reflexivity. Qed.

Lemma sort_length l : length (Js.sort cmp l) = length l.
Proof. apply Permutation_length, sort_perm. Qed.

(** The comparator orders: of two elements one may stand first, and
    standing first is transitive. *)
Hypothesis cmp_total : forall a b, 0 < cmp a b -> cmp b a <= 0.
Hypothesis cmp_trans : forall a b c, cmp a b <= 0 -> cmp b c <= 0 -> cmp a c <= 0.

Lemma sort_insert_sorted x l :
  StronglySorted (fun a b => cmp a b <= 0) l ->
  StronglySorted (fun a b => cmp a b <= 0) (Js.sort_insert cmp x l).
Proof.
  induction l as [|y l IH]; simpl; intros Hs.
  - constructor; [constructor|constructor].
  - apply StronglySorted_inv in Hs as [Hl Hy].
    destruct (cmp x y <=? 0) eqn:Hxy.
    + apply Z.leb_le in Hxy. constructor; [constructor; assumption|].
      constructor; [exact Hxy|]. rewrite Forall_forall in Hy |- *.
      intros z Hz. apply (cmp_trans x y z Hxy). apply Hy. exact Hz.
    + apply Z.leb_gt in Hxy. constructor; [apply IH; exact Hl|].
      rewrite Forall_forall in Hy |- *. intros z Hz.
      rewrite (sort_insert_perm x l) in Hz. apply elem_of_cons in Hz as [->|Hz].
      * apply cmp_total. exact Hxy.
      * apply Hy. exact Hz.
Qed.

Lemma sort_sorted l : StronglySorted (fun a b => cmp a b <= 0) (Js.sort cmp l).
Proof.
  induction l as [|x l IH]; simpl; [constructor|].
  apply sort_insert_sorted. exact IH.
Qed.

(** The first element of the sorted list: it may stand before every
    element, and every element that preceded it in the input stands
    strictly behind it. *)
Lemma sort_head x l :
  head (Js.sort cmp l) = Some x ->
  exists l1 l2, l = l1 ++ x :: l2 /\
                (forall y, y ∈ l1 -> 0 < cmp y x) /\
                (forall y, y ∈ l2 -> cmp x y <= 0).
Proof.
  revert x. induction l as [|a l IH]; simpl; intros x Hx; [discriminate|].
  fold (Js.sort cmp l) in Hx.
  destruct (Js.sort cmp l) as [|h t] eqn:Hsort.
  - simpl in Hx. injection Hx as <-.
    assert (l = []) as ->.
    { apply length_zero_iff_nil. rewrite <- (sort_length l), Hsort. reflexivity. }
    exists [], []. split; [reflexivity|]. split; intros y Hy; inversion Hy.
  - destruct (IH h eq_refl) as (l1 & l2 & -> & H1 & H2).
    simpl in Hx. destruct (cmp a h <=? 0) eqn:Hah; simpl in Hx; injection Hx as <-.
    + apply Z.leb_le in Hah. exists [], (l1 ++ h :: l2).
      split; [reflexivity|]. split; [intros y Hy; inversion Hy|].
      intros y Hy. apply elem_of_app in Hy as [Hy|Hy].
      * apply (cmp_trans a h y Hah). apply cmp_total, H1. exact Hy.
      * apply elem_of_cons in Hy as [->|Hy]; [exact Hah|].
        apply (cmp_trans a h y Hah), H2. exact Hy.
    + apply Z.leb_gt in Hah. exists (a :: l1), l2.
      split; [reflexivity|]. split; [|exact H2].
      intros y Hy. apply elem_of_cons in Hy as [->|Hy]; [exact Hah|apply H1; exact Hy].
Qed.

Lemma sort_head_none l : head (Js.sort cmp l) = None -> l = [].
Proof.
  intros Hh. apply length_zero_iff_nil. rewrite <- (sort_length l).
  destruct (Js.sort cmp l); [reflexivity|discriminate].
Qed.

End Sort.

(** ** Family aggregation *)

Section FamilyAggregator.

Import Recommendation Spec.

Lemma groupWeights_lookup profs allWeights p :
  p ∈ profs ->
  groupWeights profs allWeights !! id p
  = Some (List.filter (fun w => String.eqb (profile_id w) (id p)) allWeights).
Proof.
  intros Hp. unfold groupWeights.
  assert (Hgen : forall (m : gmap string (list PreferenceWeight)) k,
    fold_left (fun m p =>
                 <[id p := List.filter (fun w => String.eqb (profile_id w) (id p))
                                       allWeights]> m) profs m !! k
    = if decide (k ∈ map id profs)
      then Some (List.filter (fun w => String.eqb (profile_id w) k) allWeights)
      else m !! k).
  { clear p Hp. induction profs as [|a profs IH]; intros m k; simpl.
    - destruct (decide (k ∈ [])) as [Hin|]; [inversion Hin|reflexivity].
    - rewrite IH. destruct (decide (k ∈ map id profs)) as [Hin|Hin].
      + destruct (decide (k ∈ id a :: map id profs)) as [|Hn]; [reflexivity|].
        exfalso. apply Hn. right. exact Hin.
      + rewrite lookup_insert. destruct (decide (id a = k)) as [Heq|Hne]; [subst k|].
        * destruct (decide (id a ∈ id a :: map id profs)) as [|Hn]; [reflexivity|].
          exfalso. apply Hn. left.
        * destruct (decide (k ∈ id a :: map id profs)) as [Hin'|]; [|reflexivity].
          apply elem_of_cons in Hin' as [->|]; [congruence|tauto]. }
  rewrite Hgen. destruct (decide (id p ∈ map id profs)) as [|Hn]; [reflexivity|].
  exfalso. apply Hn. apply list_elem_of_fmap. exists p. split; [reflexivity|exact Hp].
Qed.

Lemma householdWeights_member db profs p :
  p ∈ profs ->
  List.filter (fun w => String.eqb (profile_id w) (id p))
              (householdWeights db (map id profs))
  = profileWeights db p.
Proof.
  intros Hp. unfold householdWeights, profileWeights.
  induction (preference_weights db) as [|w ws IH]; simpl; [reflexivity|].
  destruct (String.eqb (profile_id w) (id p)) eqn:Hw.
  - assert (existsb (String.eqb (profile_id w)) (map id profs) = true) as ->.
    { apply existsb_exists. exists (id p). split; [|exact Hw].
      apply in_map, list_elem_of_In. exact Hp. }
    simpl. rewrite Hw, IH. reflexivity.
  - destruct (existsb _ _); simpl; [rewrite Hw|]; exact IH.
Qed.

(** The weights the loop hands to [calculateScore] for a member are the
    member's stored weights. *)
Lemma member_weights db profs p :
  p ∈ profs -> default [] (weightsByProfileOf db profs !! id p) = profileWeights db p.
Proof.
  intros Hp. unfold weightsByProfileOf.
  rewrite (groupWeights_lookup _ _ _ Hp). simpl. apply householdWeights_member. exact Hp.
Qed.

Lemma scoreFamily_min f wbp profs acc :
  snd (fold_left (scoreMember f wbp) profs acc)
  = fold_left Js.Math_min
              (map (fun p => calculateScore f (default [] (wbp !! id p))) profs) (snd acc).
Proof.
  revert acc. induction profs as [|p profs IH]; intros acc; simpl; [reflexivity|].
  rewrite IH. reflexivity.
Qed.

Lemma fold_Math_min l a :
  exists m, fold_left Js.Math_min l (Js.Num a) = Js.Num m /\ is_minimum m (a :: l).
Proof.
  revert a. induction l as [|x l IH]; intros a; simpl.
  - exists a. split; [reflexivity|]. split; [left|].
    intros s Hs. apply list_elem_of_singleton in Hs as ->. lia.
  - destruct (IH (Z.min a x)) as (m & Hm & Hin & Hle). exists m.
    split; [exact Hm|]. split.
    + apply elem_of_cons in Hin as [->|Hin].
      * destruct (Z.min_spec a x) as [[_ ->]|[_ ->]]; [left|right; left].
      * right. right. exact Hin.
    + intros s Hs. assert (Hmin : m <= Z.min a x) by (apply Hle; left).
      apply elem_of_cons in Hs as [->|Hs]; [lia|].
      apply elem_of_cons in Hs as [->|Hs]; [lia|]. apply Hle. right. exact Hs.
Qed.

Lemma memberScores_loop db profs recipe :
  map (fun p => calculateScore (features recipe)
                  (default [] (weightsByProfileOf db profs !! id p))) profs
  = memberScores db profs recipe.
Proof.
  unfold memberScores. apply map_ext_in. intros p Hp.
  rewrite member_weights; [reflexivity|]. apply list_elem_of_In. exact Hp.
Qed.

Lemma minScore_minimum db profs recipe :
  profs <> [] ->
  exists m, groupScore db profs recipe = Js.Num m /\
            is_minimum m (memberScores db profs recipe).
Proof.
  intros Hne. unfold groupScore, scoreFamily. rewrite scoreFamily_min, memberScores_loop.
  unfold memberScores. destruct profs as [|p profs]; [congruence|].
  simpl. apply fold_Math_min.
Qed.



Lemma scoreRecipe_fold db profs pool acc :
  fold_left (scoreRecipe (weightsByProfileOf db profs) profs) pool acc
  = acc ++ map (entryOf db profs)
               (List.filter (fun r => Js.ge0 (groupScore db profs r)) pool).
Proof.
  revert acc. induction pool as [|r pool IH]; intros acc; simpl.
  - rewrite app_nil_r. reflexivity.
  - rewrite IH. unfold scoreRecipe, entryOf, groupScore.
    destruct (scoreFamily (features r) (weightsByProfileOf db profs) profs)
      as [sc ms] eqn:Hsf. simpl.
    destruct (Js.ge0 ms); simpl; [|reflexivity].
    rewrite Hsf. rewrite <- app_assoc. reflexivity.
Qed.

(** [familyScored] after the loop: the entries of the accepted
    candidates, in pool order. *)
Lemma familyScoredOf_accepted db profs :
  familyScoredOf db profs = map (entryOf db profs) (accepted db profs).
Proof. unfold familyScoredOf. apply (scoreRecipe_fold db profs _ []). Qed.

Lemma getFamilySuggestions_unfold db householdId limit :
  householdProfiles db householdId <> [] ->
  getFamilySuggestions db householdId limit
  = firstn limit (Js.sort min_score_cmp
                    (familyScoredOf db (householdProfiles db householdId))).
Proof.
  intros Hne. unfold getFamilySuggestions, Js.slice0.
  destruct (householdProfiles db householdId); [congruence|reflexivity].
Qed.

Lemma accepted_iff db profs r :
  r ∈ accepted db profs <->
  r ∈ poolOf db /\ Js.ge0 (groupScore db profs r) = true.
Proof.
  unfold accepted. rewrite !list_elem_of_In, filter_In. reflexivity.
Qed.

Lemma elem_of_firstn {A} (x : A) n l : x ∈ firstn n l -> x ∈ l.
Proof.
  revert n. induction l as [|y l IH]; intros [|n]; simpl; intros H; try (inversion H; fail).
  apply elem_of_cons in H as [->|H]; [left|right; apply (IH n); exact H].
Qed.

Lemma suggestion_accepted db householdId limit e :
  e ∈ getFamilySuggestions db householdId limit ->
  exists r, r ∈ accepted db (householdProfiles db householdId) /\
            e = entryOf db (householdProfiles db householdId) r.
Proof.
  destruct (householdProfiles db householdId) as [|p profs] eqn:Hp.
  - unfold getFamilySuggestions. rewrite Hp. intros H. inversion H.
  - rewrite getFamilySuggestions_unfold by congruence. rewrite Hp. intros He.
    apply elem_of_firstn, sort_elem_of in He. rewrite familyScoredOf_accepted in He.
    apply list_elem_of_fmap in He as [r [-> Hr]]. exists r. split; [exact Hr|reflexivity].
Qed.

(** Without stored weights every score is zero. *)
Lemma calculateScore_no_weights f : calculateScore f [] = 0.
Proof.
  rewrite calculateScore_pairs. rewrite (sumZ_ext _ (fun _ => 0)); [apply sumZ_zero|].
  intros p _. unfold lookup0, buildWeightMap. simpl. rewrite lookup_empty. reflexivity.
Qed.

Lemma cold_start_group_score db householdId recipe :
  householdProfiles db householdId <> [] -> preference_weights db = [] ->
  groupScore db (householdProfiles db householdId) recipe = Js.Num 0.
Proof.
  intros Hne Hw.
  destruct (minScore_minimum db _ recipe Hne) as (m & Hm & Hin & _).
  rewrite Hm. f_equal. unfold memberScores in Hin.
  apply list_elem_of_fmap in Hin as [p [-> _]].
  unfold profileWeights. rewrite Hw. simpl. apply calculateScore_no_weights.
Qed.

Example veto_scores :
  memberScores Examples.veto_db (householdProfiles Examples.veto_db "h") Examples.fish_recipe
  = [-600; 500; 0] /\
  groupScore Examples.veto_db (householdProfiles Examples.veto_db "h") Examples.fish_recipe
  = Js.Num (-600) /\
  map recipe_id (getFamilySuggestions Examples.veto_db "h" 10) = ["pasta"].
Proof. vm_compute. repeat split. Qed.

Lemma length_accepted db profs :
  length (familyScoredOf db profs) = length (accepted db profs).
Proof. rewrite familyScoredOf_accepted. apply length_map. Qed.




(** The SQL function [get_family_suggestions] keeps a recipe only when
    its group score is positive: the cold household gets no suggestion from
    it, and both recipes from [getFamilySuggestions]. *)
Example sql_family_rejects_cold_start :
  SqlFunctions.get_family_suggestions Examples.cold_db "h" 10 = Some [] /\
  map recipe_id (getFamilySuggestions Examples.cold_db "h" 10) = ["fish"; "pasta"].
Proof. vm_compute. split; reflexivity. Qed.

End FamilyAggregator.

(** ** Ranking of the family suggestions *)

Section FamilyRanking.

Import Recommendation Spec.

Lemma min_score_cmp_total a b : 0 < min_score_cmp a b -> min_score_cmp b a <= 0.
Proof. unfold min_score_cmp. destruct (min_score a), (min_score b); lia. Qed.

Lemma min_score_cmp_trans a b c :
  min_score_cmp a b <= 0 -> min_score_cmp b c <= 0 -> min_score_cmp a c <= 0.
Proof.
  unfold min_score_cmp. destruct (min_score a), (min_score b), (min_score c); lia.
Qed.

(** Rounding keeps the order and moves a score by less than a hundredth. *)
Lemma round2_close x y : Js.round2 y <= Js.round2 x -> y < x + 10.
Proof. unfold Js.round2. intros H. Z.to_euclidean_division_equations. lia. Qed.

Lemma round2_monotone x y : x <= y -> Js.round2 x <= Js.round2 y.
Proof.
  unfold Js.round2. intros H.
  apply Z.mul_le_mono_nonneg_r; [lia|]. apply Z.div_le_mono; lia.
Qed.

Lemma scoreFamily_scores f wbp profs acc n v :
  fst (fold_left (scoreMember f wbp) profs acc) !! n = Some v ->
  (exists p, p ∈ profs /\ display_name p = n /\
             v = Js.round2 (calculateScore f (default [] (wbp !! id p)))) \/
  fst acc !! n = Some v.
Proof.
  revert acc. induction profs as [|p profs IH]; intros acc; simpl; intros H.
  - right. exact H.
  - destruct (IH _ H) as [(q & Hq & Hn & Hv)|Hacc].
    + left. exists q. split; [right; exact Hq|]. split; assumption.
    + simpl in Hacc. rewrite lookup_insert in Hacc.
      destruct (decide (display_name p = n)) as [Heq|Hne].
      * left. exists p. split; [left|]. split; [exact Heq|]. congruence.
      * right. exact Hacc.
Qed.




End FamilyRanking.

(** ** The next recipe to rate *)

Section NextRecipeSelector.

Import Recommendation Spec.

Lemma external_rating_cmp_total a b :
  0 < external_rating_cmp a b -> external_rating_cmp b a <= 0.
Proof.
  unfold external_rating_cmp. destruct (external_rating a), (external_rating b); lia.
Qed.

Lemma external_rating_cmp_trans a b c :
  external_rating_cmp a b <= 0 -> external_rating_cmp b c <= 0 ->
  external_rating_cmp a c <= 0.
Proof.
  unfold external_rating_cmp.
  destruct (external_rating a), (external_rating b), (external_rating c); lia.
Qed.

Lemma existsb_eqb_elem_of (x : string) (l : list string) :
  existsb (String.eqb x) l = true <-> x ∈ l.
Proof.
  rewrite existsb_exists, list_elem_of_In. split.
  - intros [y [Hy Heq]]. apply String.eqb_eq in Heq as ->. exact Hy.
  - intros Hx. exists x. split; [exact Hx|apply String.eqb_refl].
Qed.

Lemma filter_ext_elem {A} (f g : A -> bool) (l : list A) :
  (forall x, f x = g x) -> List.filter f l = List.filter g l.
Proof.
  intros Hfg. induction l as [|x l IH]; simpl; [reflexivity|].
  rewrite Hfg, IH. reflexivity.
Qed.

(** The query built from [ratedIds]: the recipes whose id is not among
    them (the [not in] clause is left out for an empty list). *)
Lemma unratedQuery_filter db profileId :
  unratedQuery db (map rating_recipe_id (profileRatings db profileId))
  = unratedRecipes db profileId.
Proof.
  unfold unratedQuery, unratedRecipes, ratedIdsOf.
  destruct (map rating_recipe_id (profileRatings db profileId)) as [|i ids];
    [|reflexivity].
  simpl. induction (recipes db) as [|r l IH]; simpl; [reflexivity|].
  rewrite <- IH. reflexivity.
Qed.

Lemma unratedRecipes_elem db profileId r :
  r ∈ unratedRecipes db profileId <->
  r ∈ recipes db /\ (recipe_id_of r ∉ ratedIdsOf db profileId).
Proof.
  unfold unratedRecipes. rewrite <- existsb_eqb_elem_of.
  rewrite (list_elem_of_In _ r), filter_In, negb_true_iff, <- (list_elem_of_In _ r).
  apply and_iff_compat_l. destruct (existsb _ _); split; congruence.
Qed.

Lemma unratedRecipes_same_history db p1 p2 :
  (forall rid, rid ∈ ratedIdsOf db p1 <-> rid ∈ ratedIdsOf db p2) ->
  unratedRecipes db p1 = unratedRecipes db p2.
Proof.
  intros Hsame. unfold unratedRecipes. apply filter_ext_elem. intros r. f_equal.
  apply eq_true_iff_eq. rewrite !existsb_eqb_elem_of. apply Hsame.
Qed.

(** In the cold-start branch the selector returns the head of the
    ordered query and draws nothing. *)
Lemma cold_start_head db profileId random :
  (length (profileRatings db profileId) < 20)%nat ->
  getNextRecipeToRate db profileId random
  = head (order_by_external_rating (unratedRecipes db profileId)).
Proof.
  intros Hcold. unfold getNextRecipeToRate. rewrite unratedQuery_filter.
  assert ((Z.of_nat (length (profileRatings db profileId)) <? 20) = true) as ->
    by (apply Z.ltb_lt; lia).
  assert ((20 <=? Z.of_nat (length (profileRatings db profileId))) = false) as ->
    by (apply Z.leb_gt; lia).
  destruct (order_by_external_rating (unratedRecipes db profileId)); reflexivity.
Qed.

Lemma head_best db profileId r :
  head (order_by_external_rating (unratedRecipes db profileId)) = Some r ->
  best_unrated db profileId r.
Proof.
  intros Hh. unfold order_by_external_rating in Hh.
  apply sort_head in Hh as (l1 & l2 & Hl & H1 & H2);
    [|apply external_rating_cmp_total|apply external_rating_cmp_trans].
  assert (Hr : r ∈ unratedRecipes db profileId).
  { rewrite Hl. apply elem_of_app. right. left. }
  apply unratedRecipes_elem in Hr as [Hin Hun]. split; [exact Hin|]. split; [exact Hun|].
  intros r' Hin' Hun'.
  assert (Hr' : r' ∈ unratedRecipes db profileId)
    by (apply unratedRecipes_elem; split; assumption).
  rewrite Hl in Hr'. apply elem_of_app in Hr' as [Hr'|Hr'].
  - apply external_rating_cmp_total, H1. exact Hr'.
  - apply elem_of_cons in Hr' as [->|Hr'].
    + unfold external_rating_cmp. destruct (external_rating r); lia.
    + apply H2. exact Hr'.
Qed.

Lemma picked_row {A} (rows : list A) (established : bool) (index : nat) (r : A) :
  match rows with
  | [] => None
  | _ => if established then nth_error rows index else nth_error rows 0
  end = Some r ->
  r ∈ rows.
Proof.
  destruct rows as [|x rows]; [discriminate|].
  destruct established; intros H; apply list_elem_of_In, (nth_error_In _ _ H).
Qed.

(** Whatever the branch, the selector returns a recipe of the query. *)
Lemma next_is_unrated db profileId random r :
  getNextRecipeToRate db profileId random = Some r ->
  r ∈ recipes db /\ (recipe_id_of r ∉ ratedIdsOf db profileId).
Proof.
  unfold getNextRecipeToRate. rewrite unratedQuery_filter. intros Hr.
  apply picked_row in Hr. apply unratedRecipes_elem.
  apply (sort_elem_of external_rating_cmp).
  destruct (Z.of_nat (length (profileRatings db profileId)) <? 20);
    apply elem_of_firstn in Hr; exact Hr.
Qed.

(** The SQL sibling filters the same recipes. *)
Lemma not_rated_by_ratedIds db profileId r :
  Schema.not_rated_by db profileId r
  = negb (existsb (String.eqb (recipe_id_of r)) (ratedIdsOf db profileId)).
Proof.
  unfold Schema.not_rated_by, ratedIdsOf, profileRatings. f_equal.
  induction (ratings db) as [|rt l IH]; simpl; [reflexivity|].
  rewrite IH, (String.eqb_sym (rating_recipe_id rt)).
  destruct (String.eqb (rating_profile_id rt) profileId); simpl.
  - rewrite andb_true_r. reflexivity.
  - rewrite andb_false_r. reflexivity.
Qed.

Lemma random_order_cmp_total RANDOM a b :
  0 < Schema.random_order_cmp RANDOM a b -> Schema.random_order_cmp RANDOM b a <= 0.
Proof.
  unfold Schema.random_order_cmp, external_rating_cmp.
  destruct (external_rating a), (external_rating b); simpl;
    repeat match goal with |- context [?x =? ?y] => destruct (Z.eqb_spec x y) end; lia.
Qed.

Lemma random_order_cmp_trans RANDOM a b c :
  Schema.random_order_cmp RANDOM a b <= 0 -> Schema.random_order_cmp RANDOM b c <= 0 ->
  Schema.random_order_cmp RANDOM a c <= 0.
Proof.
  unfold Schema.random_order_cmp, external_rating_cmp.
  destruct (external_rating a), (external_rating b), (external_rating c); simpl;
    repeat match goal with |- context [?x =? ?y] => destruct (Z.eqb_spec x y) end; lia.
Qed.

Lemma random_order_refines RANDOM a b :
  Schema.random_order_cmp RANDOM a b <= 0 -> external_rating_cmp a b <= 0.
Proof.
  unfold Schema.random_order_cmp.
  destruct (Z.eqb_spec (external_rating_cmp a b) 0); lia.
Qed.

Lemma sql_next_best db profileId RANDOM r :
  Schema.get_next_recipe_to_rate db profileId RANDOM = Some r ->
  best_unrated db profileId r.
Proof.
  unfold Schema.get_next_recipe_to_rate.
  rewrite (filter_ext_elem _ _ _ (not_rated_by_ratedIds db profileId)).
  fold (unratedRecipes db profileId). intros Hh.
  apply sort_head in Hh as (l1 & l2 & Hl & H1 & H2);
    [|apply random_order_cmp_total|apply random_order_cmp_trans].
  assert (Hr : r ∈ unratedRecipes db profileId).
  { rewrite Hl. apply elem_of_app. right. left. }
  apply unratedRecipes_elem in Hr as [Hin Hun]. split; [exact Hin|]. split; [exact Hun|].
  intros r' Hin' Hun'.
  assert (Hr' : r' ∈ unratedRecipes db profileId)
    by (apply unratedRecipes_elem; split; assumption).
  rewrite Hl in Hr'. apply elem_of_app in Hr' as [Hr'|Hr'].
  - apply (random_order_refines RANDOM), random_order_cmp_total, H1. exact Hr'.
  - apply elem_of_cons in Hr' as [->|Hr'].
    + unfold external_rating_cmp. destruct (external_rating r); lia.
    + apply (random_order_refines RANDOM), H2. exact Hr'.
Qed.

Lemma sql_next_none db profileId RANDOM :
  Schema.get_next_recipe_to_rate db profileId RANDOM = None <->
  unratedRecipes db profileId = [].
Proof.
  unfold Schema.get_next_recipe_to_rate.
  rewrite (filter_ext_elem _ _ _ (not_rated_by_ratedIds db profileId)).
  fold (unratedRecipes db profileId). split.
  - apply sort_head_none.
  - intros ->. reflexivity.
Qed.




(** The selector never returns a recipe the profile has rated. *)
Lemma next_never_rated db profileId excludeId random r :
  GET_next db profileId excludeId random = Some r ->
  recipe_id_of r ∉ ratedIdsOf db profileId.
Proof. unfold GET_next. intros Hr. apply (next_is_unrated _ _ _ _ Hr). Qed.

(** C8 at the failing input.  The handler is asked to leave out the
    recipe just served and returns it all the same: for a fresh profile
    with [exclude = fish], and for a profile that has rated the fish recipe
    with [exclude = pasta]. *)
Theorem next_returns_excluded :
  option_map recipe_id_of (GET_next Examples.cold_db "lisa" (Some "fish") (1 # 2))
  = Some "fish" /\
  option_map recipe_id_of (GET_next Examples.rated_db "lisa" (Some "pasta") (1 # 2))
  = Some "pasta".
Proof. vm_compute. split; reflexivity. Qed.

End NextRecipeSelector.

(** ** Cuisine detection *)

Section Cuisine.

Import Spec Features.
Context {rt : StringRuntime}.

Lemma get_set {V} (o : Js.object V) (k k' : string) (v : V) :
  Js.get (Js.set o k v) k' = if decide (k = k') then Some v else Js.get o k'.
Proof.
  induction o as [|[k0 v0] o IH]; simpl.
  - destruct (String.eqb_spec k k'), (decide (k = k')); congruence.
  - destruct (String.eqb_spec k0 k) as [->|Hne]; simpl.
    + destruct (String.eqb_spec k k'), (decide (k = k')); congruence.
    + destruct (String.eqb_spec k0 k') as [->|Hne'].
      * destruct (decide (k = k')); congruence.
      * exact IH.
Qed.

Lemma get_elem_of {V} (o : Js.object V) (k : string) (v : V) :
  Js.get o k = Some v -> (k, v) ∈ o.
Proof.
  induction o as [|[k0 v0] o IH]; simpl; [discriminate|].
  destruct (String.eqb_spec k0 k) as [->|Hne].
  - intros [= ->]. left.
  - intros H. right. apply IH. exact H.
Qed.

Lemma elem_of_get {V} (o : Js.object V) (k : string) (v : V) :
  NoDup (map fst o) -> (k, v) ∈ o -> Js.get o k = Some v.
Proof.
  induction o as [|[k0 v0] o IH]; simpl; intros Hnd Hin; [inversion Hin|].
  apply NoDup_cons in Hnd as [Hk0 Hnd].
  apply elem_of_cons in Hin as [[= <- <-]|Hin].
  - rewrite String.eqb_refl. reflexivity.
  - destruct (String.eqb_spec k0 k) as [->|Hne]; [|apply IH; assumption].
    exfalso. apply Hk0. apply list_elem_of_fmap. exists (k, v). split; [reflexivity|exact Hin].
Qed.

Lemma set_keys_eq {V} (o : Js.object V) (k : string) (v : V) :
  map fst (Js.set o k v) = if decide (k ∈ map fst o) then map fst o else map fst o ++ [k].
Proof.
  induction o as [|[k0 v0] o IH]; simpl.
  - destruct (decide (k ∈ [])) as [Hin|]; [inversion Hin|reflexivity].
  - destruct (String.eqb_spec k0 k) as [->|Hne]; simpl.
    + destruct (decide (k ∈ k :: map fst o)) as [|Hn]; [reflexivity|].
      exfalso. apply Hn. left.
    + rewrite IH. destruct (decide (k ∈ map fst o)) as [Hin|Hin];
        destruct (decide (k ∈ k0 :: map fst o)) as [Hin'|Hin']; try reflexivity.
      * exfalso. apply Hin'. right. exact Hin.
      * apply elem_of_cons in Hin' as [->|]; [congruence|tauto].
Qed.

Lemma bump_NoDup o c : NoDup (map fst o) -> NoDup (map fst (bump o c)).
Proof.
  intros Hnd. unfold bump. rewrite set_keys_eq.
  destruct (decide (c ∈ map fst o)) as [|Hn]; [exact Hnd|].
  apply NoDup_app. split; [exact Hnd|]. split; [|apply NoDup_singleton].
  intros x Hx Hx'. apply list_elem_of_singleton in Hx' as ->. tauto.
Qed.

Lemma fold_bump_NoDup l o :
  NoDup (map fst o) -> NoDup (map fst (fold_left bump l o)).
Proof.
  revert o. induction l as [|a l IH]; intros o Hnd; simpl; [exact Hnd|].
  apply IH, bump_NoDup. exact Hnd.
Qed.

(** The keys met so far stay in front, in their order. *)
Lemma fold_bump_keys_prefix l o :
  exists ext, map fst (fold_left bump l o) = map fst o ++ ext.
Proof.
  revert o. induction l as [|a l IH]; intros o; simpl.
  - exists []. rewrite app_nil_r. reflexivity.
  - destruct (IH (bump o a)) as [ext Hext]. rewrite Hext. unfold bump.
    rewrite set_keys_eq. destruct (decide (a ∈ map fst o)).
    + exists ext. reflexivity.
    + exists (a :: ext). rewrite <- app_assoc. reflexivity.
Qed.

Lemma fold_bump_keys l o x :
  x ∈ map fst (fold_left bump l o) <-> x ∈ l \/ x ∈ map fst o.
Proof.
  revert o. induction l as [|a l IH]; intros o; simpl.
  - split; [intros H; right; exact H|]. intros [H|H]; [inversion H|exact H].
  - rewrite IH. unfold bump. rewrite set_keys_eq, elem_of_cons.
    destruct (decide (a ∈ map fst o)) as [Hin|Hin].
    + split; [tauto|]. intros [[->|H]|H]; tauto.
    + rewrite elem_of_app, list_elem_of_singleton. tauto.
Qed.

Lemma occ_cons c a l : occ c (a :: l) = (if decide (a = c) then 1 else 0) + occ c l.
Proof.
  unfold occ. simpl. destruct (String.eqb_spec c a), (decide (a = c)); try congruence.
  - simpl. lia.
  - lia.
Qed.

Lemma occ_nonneg c l : 0 <= occ c l.
Proof. unfold occ. lia. Qed.

Lemma occ_pos c l : 0 < occ c l <-> c ∈ l.
Proof.
  induction l as [|a l IH].
  - unfold occ. simpl. split; [lia|]. intros H. inversion H.
  - rewrite occ_cons, elem_of_cons. pose proof (occ_nonneg c l).
    destruct (decide (a = c)) as [->|Hne].
    + split; [intros _; left; reflexivity|lia].
    + rewrite <- IH. split; [intros Hp; right; lia|]. intros [->|Hp]; [congruence|lia].
Qed.

(** What the finished count object holds for a cuisine. *)
Lemma fold_bump_get l o c :
  Js.get (fold_left bump l o) c
  = if decide (occ c l = 0) then Js.get o c
    else Some (default 0 (Js.get o c) + occ c l).
Proof.
  revert o. induction l as [|a l IH]; intros o; simpl.
  - destruct (decide (occ c [] = 0)) as [|Hn]; [reflexivity|].
    exfalso. apply Hn. reflexivity.
  - rewrite IH, occ_cons. unfold bump. rewrite get_set. pose proof (occ_nonneg c l).
    destruct (decide (a = c)) as [->|Hne];
      destruct (decide (occ c l = 0)) as [Hz|Hz];
      repeat case_decide; try lia; simpl; try reflexivity; f_equal; lia.
Qed.

Lemma countCuisines_fold table allText :
  countCuisines table allText = fold_left bump (hitsOf table allText) [].
Proof.
  unfold countCuisines, hitsOf. generalize ([] : Js.object Z).
  induction table as [|[kw c] table IH]; intros o; simpl; [reflexivity|].
  rewrite IH. destruct (matches allText kw); reflexivity.
Qed.

Lemma occ_hits table allText c :
  occ c (hitsOf table allText) = keyword_hits table allText c.
Proof.
  unfold occ, hitsOf, keyword_hits. f_equal.
  induction table as [|[kw c'] table IH]; simpl; [reflexivity|].
  destruct (matches allText kw); simpl.
  - destruct (String.eqb c c'); simpl; rewrite IH; reflexivity.
  - rewrite andb_false_r. exact IH.
Qed.

Lemma hitsOf_app t1 t2 allText :
  hitsOf (t1 ++ t2) allText = hitsOf t1 allText ++ hitsOf t2 allText.
Proof. unfold hitsOf. rewrite List.filter_app, map_app. reflexivity. Qed.

Lemma hitsOf_elem table allText c :
  c ∈ hitsOf table allText <->
  exists kc, kc ∈ table /\ snd kc = c /\ matches allText (fst kc) = true.
Proof.
  unfold hitsOf. rewrite list_elem_of_fmap. split.
  - intros (kc & -> & Hkc). apply list_elem_of_In, filter_In in Hkc as [Hin Hm].
    exists kc. split; [apply list_elem_of_In; exact Hin|]. split; [reflexivity|exact Hm].
  - intros (kc & Hin & <- & Hm). exists kc. split; [reflexivity|].
    apply list_elem_of_In, filter_In. split; [apply list_elem_of_In; exact Hin|exact Hm].
Qed.

(** An entry of the count object: the cuisine has that many hits, at
    least one. *)
Lemma countCuisines_entry table allText c n :
  (c, n) ∈ countCuisines table allText ->
  n = keyword_hits table allText c /\ 0 < n.
Proof.
  rewrite countCuisines_fold. intros Hin.
  apply elem_of_get in Hin; [|apply fold_bump_NoDup; constructor].
  rewrite fold_bump_get in Hin. simpl in Hin.
  pose proof (occ_nonneg c (hitsOf table allText)).
  destruct (decide (occ c (hitsOf table allText) = 0)); [discriminate|].
  injection Hin as <-. rewrite <- occ_hits. lia.
Qed.

Lemma countCuisines_present table allText c :
  0 < keyword_hits table allText c ->
  (c, keyword_hits table allText c) ∈ countCuisines table allText.
Proof.
  intros Hpos. apply get_elem_of. rewrite countCuisines_fold, fold_bump_get.
  rewrite occ_hits. destruct (decide (keyword_hits table allText c = 0)); [lia|].
  simpl. f_equal.
Qed.

Lemma NoDup_split_unique {A} (a1 b1 a2 b2 : list A) (x : A) :
  NoDup (a1 ++ x :: b1) -> a1 ++ x :: b1 = a2 ++ x :: b2 -> a1 = a2.
Proof.
  revert a2. induction a1 as [|y a1 IH]; intros [|z a2] Hnd Heq; simpl in *.
  - reflexivity.
  - injection Heq as <- Heq. apply NoDup_cons in Hnd as [Hx _].
    exfalso. apply Hx. rewrite Heq. apply elem_of_app. right. left.
  - injection Heq as -> Heq. apply NoDup_cons in Hnd as [Hx _].
    exfalso. apply Hx. apply elem_of_app. right. left.
  - injection Heq as -> Heq. apply NoDup_cons in Hnd as [_ Hnd].
    f_equal. apply IH; assumption.
Qed.

End Cuisine.

Section CuisineChoice.

Import Spec Features.
Context {rt : StringRuntime}.

(** The winner of the count: most hits, and ahead of every cuisine met
    before it. *)
Lemma topCuisine_spec table allText c n :
  topCuisineOf (countCuisines table allText) = Some (c, n) ->
  n = keyword_hits table allText c /\ 0 < n /\
  (forall c', keyword_hits table allText c' <= n) /\
  first_among_equals table allText c.
Proof.
  unfold topCuisineOf, Js.entries. intros Hh.
  apply sort_head in Hh as (l1 & l2 & Hl & H1 & H2); [|intros a b; lia|intros a b d; lia].
  assert (Hin : (c, n) ∈ countCuisines table allText).
  { rewrite Hl. apply elem_of_app. right. left. }
  destruct (countCuisines_entry _ _ _ _ Hin) as [Hn Hpos].
  split; [exact Hn|]. split; [exact Hpos|]. split.
  - intros c'. destruct (decide (0 < keyword_hits table allText c')) as [Hp|]; [|lia].
    apply countCuisines_present in Hp. rewrite Hl in Hp.
    apply elem_of_app in Hp as [Hp|Hp].
    + specialize (H1 _ Hp). simpl in H1. lia.
    + apply elem_of_cons in Hp as [[= _ ->]|Hp]; [lia|].
      specialize (H2 _ Hp). simpl in H2. lia.
  - intros pre kw post Ht Hm Hfirst kc Hkc Hmk. rewrite <- Hn.
    set (o1 := fold_left bump (hitsOf pre allText) []).
    assert (Hc : c ∉ map fst o1).
    { intros Hc. apply fold_bump_keys in Hc as [Hc|Hc]; [|inversion Hc].
      apply hitsOf_elem in Hc as (kc' & Hin' & Hsnd & Hm').
      rewrite (Hfirst kc' Hin' Hsnd) in Hm'. discriminate. }
    assert (Hkeys : exists ext, map fst (countCuisines table allText)
                                = map fst o1 ++ c :: ext).
    { rewrite countCuisines_fold, Ht, hitsOf_app. unfold hitsOf at 2. simpl.
      rewrite Hm. simpl. rewrite fold_left_app. simpl. fold o1.
      destruct (fold_bump_keys_prefix
                  (map snd (List.filter (fun kc => matches allText (fst kc)) post))
                  (bump o1 c)) as [ext Hext].
      exists ext. rewrite Hext. unfold bump. rewrite set_keys_eq.
      destruct (decide (c ∈ map fst o1)); [tauto|]. rewrite <- app_assoc. reflexivity. }
    destruct Hkeys as [ext Hkeys].
    assert (Hl1 : map fst l1 = map fst o1).
    { apply (NoDup_split_unique _ (map fst l2) _ ext c).
      - change (c :: map fst l2) with (map fst ((c, n) :: l2)).
        rewrite <- map_app, <- Hl, countCuisines_fold. apply fold_bump_NoDup. constructor.
      - change (c :: map fst l2) with (map fst ((c, n) :: l2)).
        rewrite <- map_app, <- Hl. exact Hkeys. }
    assert (Hk : snd kc ∈ map fst l1).
    { rewrite Hl1. apply fold_bump_keys. left. apply hitsOf_elem.
      exists kc. split; [exact Hkc|]. split; [reflexivity|exact Hmk]. }
    apply list_elem_of_fmap in Hk as ([c' m] & Hc' & Hy). simpl in Hc'.
    specialize (H1 _ Hy). simpl in H1.
    assert (Hy' : (c', m) ∈ countCuisines table allText).
    { rewrite Hl. apply elem_of_app. left. exact Hy. }
    apply countCuisines_entry in Hy' as [-> _]. rewrite Hc'. lia.
Qed.

Lemma topCuisine_none table allText :
  topCuisineOf (countCuisines table allText) = None ->
  forall kc, kc ∈ table -> matches allText (fst kc) = false.
Proof.
  unfold topCuisineOf, Js.entries. intros Hh kc Hkc.
  apply sort_head_none in Hh. destruct (matches allText (fst kc)) eqn:Hm; [|reflexivity].
  assert (Hk : snd kc ∈ map fst (countCuisines table allText)).
  { rewrite countCuisines_fold. apply fold_bump_keys. left. apply hitsOf_elem.
    exists kc. split; [exact Hkc|]. split; [reflexivity|exact Hm]. }
  rewrite Hh in Hk. inversion Hk.
Qed.

Lemma get_assign f k v k' :
  Js.get (assign f k v) k'
  = if decide (k = k') then match v with Some fv => Some fv | None => Js.get f k' end
    else Js.get f k'.
Proof.
  destruct v as [fv|]; simpl; [apply get_set|]. destruct (decide (k = k')); reflexivity.
Qed.

(** The [cuisine] property of the extracted features is what the
    cuisine detection found. *)
Lemma extractFeatures_cuisine ingredients recipeName prepTime cookTime :
  Js.get (extractFeatures ingredients recipeName prepTime cookTime) "cuisine"
  = FScalar <$> detectCuisine (allTextOf ingredients recipeName).
Proof.
  unfold extractFeatures. rewrite !get_assign.
  repeat (case_decide; [discriminate|]). case_decide; [|congruence].
  repeat (case_decide; [discriminate|]).
  destruct (detectCuisine _); reflexivity.
Qed.

(** C10 (cuisine detection).  The [cuisine] feature is absent when no
    keyword of the table occurs in the text and present when one does; when
    present it is the cuisine with the most matching keywords, and among
    cuisines with as many it is the one met first in table order. *)
Theorem cuisine_is_most_frequent (ingredients : list Ingredient) (recipeName : string)
  (prepTime cookTime : option Z) :
  ((forall kc, kc ∈ CUISINE_KEYWORDS ->
               matches (allTextOf ingredients recipeName) (fst kc) = false) ->
   Js.get (extractFeatures ingredients recipeName prepTime cookTime) "cuisine" = None) /\
  ((exists kc, kc ∈ CUISINE_KEYWORDS /\
               matches (allTextOf ingredients recipeName) (fst kc) = true) ->
   exists c, Js.get (extractFeatures ingredients recipeName prepTime cookTime) "cuisine"
             = Some (FScalar c)) /\
  (forall v, Js.get (extractFeatures ingredients recipeName prepTime cookTime) "cuisine"
             = Some v ->
     exists c, v = FScalar c /\
       0 < keyword_hits CUISINE_KEYWORDS (allTextOf ingredients recipeName) c /\
       (forall c', keyword_hits CUISINE_KEYWORDS (allTextOf ingredients recipeName) c'
                   <= keyword_hits CUISINE_KEYWORDS (allTextOf ingredients recipeName) c) /\
       first_among_equals CUISINE_KEYWORDS (allTextOf ingredients recipeName) c).
Proof.
  rewrite extractFeatures_cuisine. unfold detectCuisine.
  destruct (topCuisineOf (countCuisines CUISINE_KEYWORDS (allTextOf ingredients recipeName)))
    as [[c n]|] eqn:Htop.
  - destruct (topCuisine_spec _ _ _ _ Htop) as (Hn & Hpos & Hmax & Hfirst). subst n.
    split; [|split].
    + intros Hnone. exfalso.
      rewrite <- occ_hits in Hpos. apply occ_pos, hitsOf_elem in Hpos as (kc & Hin & _ & Hm).
      rewrite (Hnone kc Hin) in Hm. discriminate.
    + intros _. exists c. reflexivity.
    + intros v [= <-]. exists c. simpl. repeat split; assumption.
  - split; [|split].
    + intros _. reflexivity.
    + intros (kc & Hin & Hm). rewrite (topCuisine_none _ _ Htop kc Hin) in Hm. discriminate.
    + intros v Hv. discriminate.
Qed.

End CuisineChoice.

Lemma cuisine_is_most_frequent_witness :
  Js.get (Features.extractFeatures (rt := Features.Latin1.runtime)
            Examples.tikka_ingredients Examples.tikka_name (Some 20) (Some 25)) "cuisine"
  = Some (FScalar "indian") /\
  exists c, FScalar "indian" = FScalar c /\
    0 < Spec.keyword_hits (rt := Features.Latin1.runtime) Features.CUISINE_KEYWORDS
          (Features.allTextOf (rt := Features.Latin1.runtime)
             Examples.tikka_ingredients Examples.tikka_name) c.
Proof.
  assert (Hget : Js.get (Features.extractFeatures (rt := Features.Latin1.runtime)
                   Examples.tikka_ingredients Examples.tikka_name (Some 20) (Some 25))
                   "cuisine" = Some (FScalar "indian")) by (vm_compute; reflexivity).
  split; [exact Hget|].
  destruct (proj2 (proj2 (cuisine_is_most_frequent (rt := Features.Latin1.runtime)
              Examples.tikka_ingredients Examples.tikka_name (Some 20) (Some 25)))
              (FScalar "indian") Hget) as (c & Hc & Hpos & _).
  exists c. split; assumption.
Defined.

Example tikka_features :
  Features.extractFeatures (rt := Features.Latin1.runtime)
    Examples.tikka_ingredients Examples.tikka_name (Some 20) (Some 25)
  = [ ("protein", FArray ["chicken"]); ("cuisine", FScalar "indian");
      ("spice_level", FScalar "medium"); ("prep_time_bucket", FScalar "medium");
      ("ingredients", FArray ["kycklingfilé"; "curry"; "grädde"]) ].
Proof. vm_compute. reflexivity. Qed.

Example taco_tie :
  Js.get (Features.extractFeatures (rt := Features.Latin1.runtime)
            Examples.taco_ingredients Examples.taco_name None None) "cuisine"
  = Some (FScalar "mexican") /\
  Features.keyIngredientsOf (rt := Features.Latin1.runtime) Examples.taco_ingredients
  = ["parmesan"; "tacokrydda"].
Proof. vm_compute. split; reflexivity. Qed.

(** ** The rating trigger *)

Section WeightUpdater.

Import Spec Schema.

Lemma weight_delta_small r : -150 <= weight_delta_of r <= 150.
Proof. destruct r; simpl; lia. Qed.

Lemma upsert_feature_lookup tbl pid ft value delta k :
  upsert_feature tbl pid ft value delta !! k
  = if decide ((pid, ft, value) = k) then Some (upserted delta (tbl !! k)) else tbl !! k.
Proof.
  unfold upsert_feature, upserted.
  destruct (decide ((pid, ft, value) = k)) as [<-|Hne].
  - destruct (tbl !! (pid, ft, value)) as [[w n]|]; rewrite lookup_insert_eq; reflexivity.
  - destruct (tbl !! (pid, ft, value)) as [[w n]|]; rewrite lookup_insert_ne by exact Hne;
      reflexivity.
Qed.

Lemma upsert_excluded_lookup tbl pid value k :
  upsert_excluded tbl pid value !! k
  = if decide ((pid, ingredient, value) = k) then Some (penalised (tbl !! k)) else tbl !! k.
Proof.
  unfold upsert_excluded, penalised.
  destruct (decide ((pid, ingredient, value) = k)) as [<-|Hne].
  - destruct (tbl !! (pid, ingredient, value)) as [[w n]|]; rewrite lookup_insert_eq;
      reflexivity.
  - destruct (tbl !! (pid, ingredient, value)) as [[w n]|];
      rewrite lookup_insert_ne by exact Hne; reflexivity.
Qed.

Lemma upsert_key_lookup delta tbl k k' :
  upsert_key delta tbl k !! k'
  = if decide (k = k') then Some (upserted delta (tbl !! k')) else tbl !! k'.
Proof.
  destruct k as [[pid ft] value]. unfold upsert_key. simpl. apply upsert_feature_lookup.
Qed.

(** The feature loop, when it raises nothing, is the fold of the upsert
    over the keys of the features. *)
Lemma upsert_cast_none pid fk delta elems :
  fold_left (upsert_cast pid fk delta) elems None = None.
Proof. induction elems as [|e elems IH]; simpl; [reflexivity|exact IH]. Qed.

Lemma update_feature_none pid delta fs :
  fold_left (update_feature pid delta) fs None = None.
Proof.
  induction fs as [|[fk v] fs IH]; simpl; [reflexivity|].
  destruct v; simpl; try exact IH. rewrite upsert_cast_none. exact IH.
Qed.

Lemma upsert_cast_some pid fk delta tbl e :
  upsert_cast pid fk delta (Some tbl) e
  = match cast_feature_type fk with
    | Some ft => Some (upsert_key delta tbl (pid, ft, e))
    | None => None
    end.
Proof. unfold upsert_cast. simpl. destruct (cast_feature_type fk); reflexivity. Qed.

Lemma upsert_cast_fold pid fk delta elems tbl tbl' :
  fold_left (upsert_cast pid fk delta) elems (Some tbl) = Some tbl' ->
  tbl' = fold_left (upsert_key delta)
                   (match cast_feature_type fk with
                    | Some ft => map (fun e => (pid, ft, e)) elems
                    | None => []
                    end) tbl.
Proof.
  revert tbl. induction elems as [|e elems IH]; intros tbl; cbn [fold_left].
  - intros [= <-]. destruct (cast_feature_type fk); reflexivity.
  - rewrite upsert_cast_some. intros H.
    destruct (cast_feature_type fk) as [ft|] eqn:Hcast.
    + apply IH in H. exact H.
    + rewrite upsert_cast_none in H. discriminate.
Qed.

Lemma feature_loop_fold pid delta fs tbl tbl' :
  fold_left (update_feature pid delta) fs (Some tbl) = Some tbl' ->
  tbl' = fold_left (upsert_key delta) (feature_keys pid fs) tbl.
Proof.
  revert tbl. induction fs as [|[fk v] fs IH]; intros tbl; cbn [fold_left].
  - intros [= <-]. reflexivity.
  - unfold feature_keys. cbn [flat_map fst snd]. fold (feature_keys pid fs).
    rewrite fold_left_app. unfold update_feature at 2.
    destruct v as [|s|elems].
    + rewrite upsert_cast_some. destruct (cast_feature_type fk) as [ft|];
        [apply IH|rewrite update_feature_none; discriminate].
    + rewrite upsert_cast_some. destruct (cast_feature_type fk) as [ft|];
        [apply IH|rewrite update_feature_none; discriminate].
    + destruct (fold_left (upsert_cast pid fk delta) elems (Some tbl)) as [mid|] eqn:Hmid.
      * apply upsert_cast_fold in Hmid as ->. intros H. apply IH in H. exact H.
      * rewrite update_feature_none. discriminate.
Qed.

Lemma excluded_updates_fold NEW tbl :
  excluded_updates NEW tbl
  = fold_left (fun t k => upsert_excluded t (fst (fst k)) (snd k)) (excluded_keys NEW) tbl.
Proof.
  unfold excluded_updates, excluded_keys.
  destruct (excluded_ingredients NEW) as [|x xs] eqn:Hx; [reflexivity|].
  rewrite <- Hx. clear Hx. revert tbl.
  induction (excluded_ingredients NEW) as [|y ys IH]; intros tbl; simpl; [reflexivity|].
  apply IH.
Qed.

Lemma fold_upsert_other delta keys tbl k :
  k ∉ keys -> fold_left (upsert_key delta) keys tbl !! k = tbl !! k.
Proof.
  revert tbl. induction keys as [|a keys IH]; intros tbl Hk; simpl; [reflexivity|].
  apply not_elem_of_cons in Hk as [Hne Hk]. rewrite (IH _ Hk), upsert_key_lookup.
  destruct (decide (a = k)); [congruence|reflexivity].
Qed.

Lemma fold_upsert_once delta keys tbl k :
  NoDup keys -> k ∈ keys ->
  fold_left (upsert_key delta) keys tbl !! k = Some (upserted delta (tbl !! k)).
Proof.
  revert tbl. induction keys as [|a keys IH]; intros tbl Hnd Hk; [inversion Hk|].
  apply NoDup_cons in Hnd as [Ha Hnd]. simpl.
  apply elem_of_cons in Hk as [->|Hk].
  - rewrite (fold_upsert_other _ _ _ _ Ha), upsert_key_lookup.
    destruct (decide (a = a)); [reflexivity|congruence].
  - rewrite (IH _ Hnd Hk), upsert_key_lookup.
    destruct (decide (a = k)) as [->|]; [tauto|reflexivity].
Qed.

Lemma fold_penalise_other (xs : list string) pid tbl k :
  k ∉ map (fun x => (pid, ingredient, x)) xs ->
  fold_left penalise_key (map (fun x => (pid, ingredient, x)) xs) tbl !! k = tbl !! k.
Proof.
  revert tbl. induction xs as [|a xs IH]; intros tbl Hk; simpl; [reflexivity|].
  simpl in Hk. apply not_elem_of_cons in Hk as [Hne Hk].
  rewrite (IH _ Hk). unfold penalise_key. simpl. rewrite upsert_excluded_lookup.
  destruct (decide ((pid, ingredient, a) = k)); [congruence|reflexivity].
Qed.

Lemma fold_penalise_once (xs : list string) pid tbl x :
  NoDup xs -> x ∈ xs ->
  fold_left penalise_key (map (fun x => (pid, ingredient, x)) xs) tbl
    !! (pid, ingredient, x)
  = Some (penalised (tbl !! (pid, ingredient, x))).
Proof.
  revert tbl. induction xs as [|a xs IH]; intros tbl Hnd Hx; [inversion Hx|].
  apply NoDup_cons in Hnd as [Ha Hnd]. simpl.
  assert (Hmem : forall y, (pid, ingredient, y) ∈ map (fun x => (pid, ingredient, x)) xs
                           -> y ∈ xs).
  { intros y Hy. apply list_elem_of_fmap in Hy as (z & [= ->] & Hz). exact Hz. }
  apply elem_of_cons in Hx as [->|Hx].
  - rewrite fold_penalise_other by (intros Hin; apply Ha, Hmem, Hin).
    unfold penalise_key. simpl. rewrite upsert_excluded_lookup.
    destruct (decide ((pid, ingredient, a) = (pid, ingredient, a))); [reflexivity|congruence].
  - rewrite (IH _ Hnd Hx). unfold penalise_key. simpl. rewrite upsert_excluded_lookup.
    destruct (decide ((pid, ingredient, a) = (pid, ingredient, x))) as [[= ->]|];
      [tauto|reflexivity].
Qed.

(** The trigger as two folds. *)
Lemma trigger_folds recipes NEW tbl tbl' :
  update_preference_weights recipes NEW tbl = Some tbl' ->
  tbl' = fold_left penalise_key (excluded_keys NEW)
           (fold_left (upsert_key (weight_delta_of (rating NEW)))
                      (feature_keys (profile_id NEW) (default [] (recipes !! recipe_id NEW)))
                      tbl) /\
  feature_updates (default [] (recipes !! recipe_id NEW)) NEW tbl
  = Some (fold_left (upsert_key (weight_delta_of (rating NEW)))
                    (feature_keys (profile_id NEW) (default [] (recipes !! recipe_id NEW)))
                    tbl).
Proof.
  unfold update_preference_weights.
  destruct (feature_updates (default [] (recipes !! recipe_id NEW)) NEW tbl)
    as [mid|] eqn:Hmid; simpl; [|discriminate].
  intros [= <-]. unfold feature_updates in Hmid. apply feature_loop_fold in Hmid as ->.
  split; [apply excluded_updates_fold|reflexivity].
Qed.

(** *** Bounds *)

Lemma upserted_bounds delta row :
  -1000 <= delta <= 1000 -> -1000 <= fst (upserted delta row) <= 1000.
Proof. destruct row as [[w n]|]; simpl; lia. Qed.

Lemma penalised_bounds row :
  match row with Some (w, _) => w <= 1000 | None => True end ->
  -1000 <= fst (penalised row) <= 1000.
Proof. destruct row as [[w n]|]; simpl; lia. Qed.

Lemma weight_of_lookup tbl k row :
  tbl !! k = Some row -> weight_of tbl k = fst row.
Proof. unfold weight_of. intros ->. destruct row. reflexivity. Qed.

Lemma upsert_key_bounds delta tbl k :
  -1000 <= delta <= 1000 -> in_bounds tbl -> in_bounds (upsert_key delta tbl k).
Proof.
  intros Hd Hb k'. destruct (decide (k = k')) as [->|Hne].
  - rewrite (weight_of_lookup _ _ (upserted delta (tbl !! k'))).
    + apply upserted_bounds. exact Hd.
    + rewrite upsert_key_lookup. destruct (decide (k' = k')); [reflexivity|congruence].
  - unfold weight_of. rewrite upsert_key_lookup.
    destruct (decide (k = k')); [congruence|]. apply Hb.
Qed.

Lemma penalise_key_bounds tbl k : in_bounds tbl -> in_bounds (penalise_key tbl k).
Proof.
  intros Hb k'. unfold penalise_key, weight_of. rewrite upsert_excluded_lookup.
  destruct (decide (_ = k')) as [Heq|Hne]; [|apply Hb].
  specialize (Hb k'). unfold weight_of in Hb.
  destruct (tbl !! k') as [[w n]|]; simpl; lia.
Qed.

Lemma trigger_bounds recipes tbl NEW :
  in_bounds tbl -> in_bounds (on_rating_insert recipes tbl NEW).
Proof.
  intros Hb. unfold on_rating_insert.
  destruct (update_preference_weights recipes NEW tbl) as [tbl'|] eqn:Ht; simpl;
    [|exact Hb].
  apply trigger_folds in Ht as [-> _].
  assert (Hmid : in_bounds (fold_left (upsert_key (weight_delta_of (rating NEW)))
                   (feature_keys (profile_id NEW) (default [] (recipes !! recipe_id NEW)))
                   tbl)).
  { revert tbl Hb. induction (feature_keys _ _) as [|a keys IH]; intros tbl Hb; simpl;
      [exact Hb|].
    apply IH, upsert_key_bounds; [|exact Hb]. pose proof (weight_delta_small (rating NEW)). lia. }
  revert Hmid. generalize (fold_left (upsert_key (weight_delta_of (rating NEW)))
                   (feature_keys (profile_id NEW) (default [] (recipes !! recipe_id NEW)))
                   tbl).
  induction (excluded_keys NEW) as [|a keys IH]; intros t Ht; simpl; [exact Ht|].
  apply IH, penalise_key_bounds. exact Ht.
Qed.

Lemma events_bounds recipes events tbl :
  in_bounds tbl -> in_bounds (fold_left (on_rating_insert recipes) events tbl).
Proof.
  revert tbl. induction events as [|e events IH]; intros tbl Hb; simpl; [exact Hb|].
  apply IH, trigger_bounds. exact Hb.
Qed.

(** *** Saturation *)

Lemma upsert_key_floor delta tbl k k' :
  delta <= 0 -> weight_of tbl k' = -1000 -> weight_of (upsert_key delta tbl k) k' = -1000.
Proof.
  intros Hd Hw. unfold weight_of in *. rewrite upsert_key_lookup.
  destruct (decide (k = k')); [|exact Hw].
  destruct (tbl !! k') as [[w n]|]; simpl in *; lia.
Qed.

Lemma penalise_key_floor tbl k k' :
  weight_of tbl k' = -1000 -> weight_of (penalise_key tbl k) k' = -1000.
Proof.
  intros Hw. unfold penalise_key, weight_of in *. rewrite upsert_excluded_lookup.
  destruct (decide (_ = k')); [|exact Hw].
  destruct (tbl !! k') as [[w n]|]; simpl in *; lia.
Qed.

Lemma upsert_key_ceiling delta tbl k k' :
  0 <= delta -> weight_of tbl k' = 1000 -> weight_of (upsert_key delta tbl k) k' = 1000.
Proof.
  intros Hd Hw. unfold weight_of in *. rewrite upsert_key_lookup.
  destruct (decide (k = k')); [|exact Hw].
  destruct (tbl !! k') as [[w n]|]; simpl in *; lia.
Qed.

Lemma trigger_floor recipes tbl NEW k :
  weight_of tbl k = -1000 -> weight_delta_of (rating NEW) <= 0 ->
  weight_of (on_rating_insert recipes tbl NEW) k = -1000.
Proof.
  intros Hw Hd. unfold on_rating_insert.
  destruct (update_preference_weights recipes NEW tbl) as [tbl'|] eqn:Ht; simpl;
    [|exact Hw].
  apply trigger_folds in Ht as [-> _].
  assert (Hmid : weight_of (fold_left (upsert_key (weight_delta_of (rating NEW)))
                   (feature_keys (profile_id NEW) (default [] (recipes !! recipe_id NEW)))
                   tbl) k = -1000).
  { revert tbl Hw. induction (feature_keys _ _) as [|a keys IH]; intros tbl Hw; simpl;
      [exact Hw|].
    apply IH, upsert_key_floor; assumption. }
  revert Hmid. generalize (fold_left (upsert_key (weight_delta_of (rating NEW)))
                   (feature_keys (profile_id NEW) (default [] (recipes !! recipe_id NEW)))
                   tbl).
  induction (excluded_keys NEW) as [|a keys IH]; intros t Ht; simpl; [exact Ht|].
  apply IH, penalise_key_floor. exact Ht.
Qed.

Lemma trigger_ceiling recipes tbl NEW k :
  weight_of tbl k = 1000 -> 0 <= weight_delta_of (rating NEW) -> k ∉ excluded_keys NEW ->
  weight_of (on_rating_insert recipes tbl NEW) k = 1000.
Proof.
  intros Hw Hd Hk. unfold on_rating_insert.
  destruct (update_preference_weights recipes NEW tbl) as [tbl'|] eqn:Ht; simpl;
    [|exact Hw].
  apply trigger_folds in Ht as [-> _].
  unfold weight_of at 1. unfold excluded_keys in *. rewrite fold_penalise_other by exact Hk.
  fold (weight_of (fold_left (upsert_key (weight_delta_of (rating NEW)))
                   (feature_keys (profile_id NEW) (default [] (recipes !! recipe_id NEW)))
                   tbl) k).
  revert tbl Hw. induction (feature_keys _ _) as [|a keys IH]; intros tbl Hw; simpl;
    [exact Hw|].
  apply IH, upsert_key_ceiling; assumption.
Qed.

(** C3 (clamping invariant).  From a table within bounds (the empty
    table for one), after each event of any sequence of rating events every
    stored weight is within [-1.0, 1.0]; a weight at -1.0 stays there under
    a further event with a non-positive delta, a weight at +1.0 stays there
    under a further event with a non-negative delta that does not exclude
    it. *)
Theorem weights_stay_clamped (recipes : recipes_table) (tbl0 : weights_table)
  (events : list ratings_row) (NEW : ratings_row) (k : string * feature_type * string) :
  in_bounds tbl0 ->
  (forall n, -1000 <= weight_of (fold_left (on_rating_insert recipes)
                                           (firstn n events) tbl0) k <= 1000) /\
  (weight_of (fold_left (on_rating_insert recipes) events tbl0) k = -1000 ->
   weight_delta_of (rating NEW) <= 0 ->
   weight_of (on_rating_insert recipes
                (fold_left (on_rating_insert recipes) events tbl0) NEW) k = -1000) /\
  (weight_of (fold_left (on_rating_insert recipes) events tbl0) k = 1000 ->
   0 <= weight_delta_of (rating NEW) -> k ∉ excluded_keys NEW ->
   weight_of (on_rating_insert recipes
                (fold_left (on_rating_insert recipes) events tbl0) NEW) k = 1000).
Proof.
  intros Hb. split; [intros n; apply events_bounds; exact Hb|].
  split; [apply trigger_floor|apply trigger_ceiling].
Qed.

Lemma weights_stay_clamped_witness :
  weight_of (fold_left (on_rating_insert Examples.stored_recipes)
               (repeat (Examples.mk_rating "plain" hated []) 10) ∅)
            ("lisa", protein, "salmon") = -1000 /\
  weight_of (on_rating_insert Examples.stored_recipes
               (fold_left (on_rating_insert Examples.stored_recipes)
                  (repeat (Examples.mk_rating "plain" hated []) 10) ∅)
               (Examples.mk_rating "plain" disliked ["salmon"]))
            ("lisa", protein, "salmon") = -1000.
Proof.
  assert (Hb : in_bounds ∅).
  { intros k. unfold weight_of. rewrite lookup_empty. lia. }
  destruct (weights_stay_clamped Examples.stored_recipes ∅
              (repeat (Examples.mk_rating "plain" hated []) 10)
              (Examples.mk_rating "plain" disliked ["salmon"])
              ("lisa", protein, "salmon") Hb) as (_ & Hfloor & _).
  assert (Hw : weight_of (fold_left (on_rating_insert Examples.stored_recipes)
                 (repeat (Examples.mk_rating "plain" hated []) 10) ∅)
                 ("lisa", protein, "salmon") = -1000) by (vm_compute; reflexivity).
  split; [exact Hw|]. apply Hfloor; [exact Hw|]. vm_compute. discriminate.
Defined.

(** A scalar feature is stored under its JSON text, quotes included, and
    a feature name outside the enum makes the trigger raise. *)
Example trigger_keys :
  (on_rating_insert Examples.stored_recipes ∅ (Examples.mk_rating "plain" liked []))
    !! ("lisa", cuisine, dquote +:+ "swedish" +:+ dquote) = Some (80, 1) /\
  update_preference_weights Examples.stored_recipes
    (Examples.mk_rating "extracted" liked []) ∅ = None.
Proof. vm_compute. split; reflexivity. Qed.




End WeightUpdater.

(** ** The other extracted features *)

Section ExtractedFeatures.

Import Spec Features FeaturesSpec.
Context {rt : StringRuntime}.

Lemma find_first {A} (f : A -> bool) (l : list A) (x : A) :
  find f l = Some x <->
  exists pre post, l = pre ++ x :: post /\ f x = true /\
                   forall y, y ∈ pre -> f y = false.
Proof.
  induction l as [|a l IH]; simpl.
  - split; [discriminate|]. intros (pre & post & Hl & _). destruct pre; discriminate.
  - destruct (f a) eqn:Ha.
    + split.
      * intros [= <-]. exists [], l. split; [reflexivity|]. split; [exact Ha|].
        intros y Hy. inversion Hy.
      * intros ([|b pre] & post & Hl & Hx & Hpre).
        -- injection Hl as -> _. reflexivity.
        -- injection Hl as -> _. rewrite (Hpre b) in Ha by left. discriminate.
    + rewrite IH. split.
      * intros (pre & post & -> & Hx & Hpre). exists (a :: pre), post.
        split; [reflexivity|]. split; [exact Hx|].
        intros y Hy. apply elem_of_cons in Hy as [->|Hy]; [exact Ha|apply Hpre; exact Hy].
      * intros ([|b pre] & post & Hl & Hx & Hpre).
        -- injection Hl as -> _. congruence.
        -- injection Hl as -> ->. exists pre, post. split; [reflexivity|].
           split; [exact Hx|]. intros y Hy. apply Hpre. right. exact Hy.
Qed.

Lemma find_nothing {A} (f : A -> bool) (l : list A) :
  find f l = None <-> forall y, y ∈ l -> f y = false.
Proof.
  induction l as [|a l IH]; simpl.
  - split; [|reflexivity]. intros _ y Hy. inversion Hy.
  - destruct (f a) eqn:Ha.
    + split; [discriminate|]. intros H. rewrite (H a) in Ha by left. discriminate.
    + rewrite IH. split.
      * intros H y Hy. apply elem_of_cons in Hy as [->|Hy]; [exact Ha|apply H; exact Hy].
      * intros H y Hy. apply H. right. exact Hy.
Qed.

(** *** Carbohydrate: the first keyword of the table that occurs *)

Lemma extractFeatures_carb ingredients recipeName prepTime cookTime :
  Js.get (extractFeatures ingredients recipeName prepTime cookTime) "carb"
  = FScalar <$> extractCarb (allTextOf ingredients recipeName).
Proof.
  unfold extractFeatures. rewrite !get_assign.
  repeat (case_decide; [discriminate|]). case_decide; [|congruence].
  repeat (case_decide; [discriminate|]).
  destruct (extractCarb _); reflexivity.
Qed.

Lemma extractCarb_find allText :
  extractCarb allText
  = snd <$> find (fun kc => matches allText (fst kc)) CARB_KEYWORDS.
Proof.
  unfold extractCarb.
  replace (find (fun '(keyword, _) => matches allText keyword) CARB_KEYWORDS)
    with (find (fun kc => matches allText (fst kc)) CARB_KEYWORDS).
  - destruct (find _ _) as [[kw c]|]; reflexivity.
  - induction CARB_KEYWORDS as [|[kw c] l IH]; simpl; [reflexivity|].
    rewrite IH. reflexivity.
Qed.

(** X1.  The [carb] feature is the carb of the first keyword of
    [CARB_KEYWORDS], in table order, that occurs in the text, whatever
    matches later; it is absent exactly when no keyword occurs. *)
Theorem carb_first_match_wins (ingredients : list Ingredient) (recipeName : string)
  (prepTime cookTime : option Z) :
  (forall v, Js.get (extractFeatures ingredients recipeName prepTime cookTime) "carb"
             = Some v <->
             exists kw c, v = FScalar c /\
               first_match CARB_KEYWORDS (allTextOf ingredients recipeName) (kw, c)) /\
  (Js.get (extractFeatures ingredients recipeName prepTime cookTime) "carb" = None <->
   forall kc, kc ∈ CARB_KEYWORDS ->
              matches (allTextOf ingredients recipeName) (fst kc) = false).
Proof.
  rewrite extractFeatures_carb, extractCarb_find. split.
  - intros v. unfold first_match. split.
    + destruct (find _ _) as [[kw c]|] eqn:Hf; [|discriminate].
      intros [= <-]. exists kw, c. split; [reflexivity|].
      apply find_first in Hf as (pre & post & Hl & Hm & Hpre).
      exists pre, post. repeat split; assumption.
    + intros (kw & c & -> & pre & post & Hl & Hm & Hpre).
      assert (Hf : find (fun kc => matches (allTextOf ingredients recipeName) (fst kc))
                        CARB_KEYWORDS = Some (kw, c)).
      { apply find_first. exists pre, post. repeat split; assumption. }
      rewrite Hf. reflexivity.
  - rewrite <- find_nothing. destruct (find _ _); simpl; split; intros; congruence.
Qed.

(** *** Proteins: the set of the proteins whose keyword occurs *)

Lemma set_add_elem s x y : y ∈ set_add s x <-> y ∈ s \/ y = x.
Proof.
  unfold set_add. destruct (existsb (String.eqb x) s) eqn:Hx.
  - apply existsb_eqb_elem_of in Hx. split; [tauto|]. intros [H| ->]; assumption.
  - rewrite elem_of_app, list_elem_of_singleton. reflexivity.
Qed.

Lemma set_add_NoDup s x : NoDup s -> NoDup (set_add s x).
Proof.
  intros Hnd. unfold set_add. destruct (existsb (String.eqb x) s) eqn:Hx; [exact Hnd|].
  apply NoDup_app. split; [exact Hnd|]. split; [|apply NoDup_singleton].
  intros y Hy Hy'. apply list_elem_of_singleton in Hy' as ->.
  apply existsb_eqb_elem_of in Hy. congruence.
Qed.

Lemma proteins_fold allText (table : list (string * string)) (acc : list string) :
  NoDup acc ->
  NoDup (fold_left (fun proteins '(keyword, protein) =>
                      if matches allText keyword then set_add proteins protein
                      else proteins) table acc) /\
  forall p, p ∈ fold_left (fun proteins '(keyword, protein) =>
                             if matches allText keyword then set_add proteins protein
                             else proteins) table acc <->
            p ∈ acc \/ exists kw, (kw, p) ∈ table /\ matches allText kw = true.
Proof.
  revert acc. induction table as [|[kw q] table IH]; intros acc Hnd; simpl.
  - split; [exact Hnd|]. intros p. split; [tauto|].
    intros [H|(k & Hk & _)]; [exact H|inversion Hk].
  - destruct (matches allText kw) eqn:Hm.
    + destruct (IH (set_add acc q) (set_add_NoDup _ _ Hnd)) as [Hn Hiff].
      split; [exact Hn|]. intros p. rewrite Hiff, set_add_elem. split.
      * intros [[H| ->]|(k & Hk & Hmk)].
        -- left. exact H.
        -- right. exists kw. split; [left|exact Hm].
        -- right. exists k. split; [right; exact Hk|exact Hmk].
      * intros [H|(k & Hk & Hmk)]; [tauto|].
        apply elem_of_cons in Hk as [[= -> ->]|Hk]; [tauto|].
        right. exists k. split; assumption.
    + destruct (IH acc Hnd) as [Hn Hiff]. split; [exact Hn|].
      intros p. rewrite Hiff. split.
      * intros [H|(k & Hk & Hmk)]; [tauto|].
        right. exists k. split; [right; exact Hk|exact Hmk].
      * intros [H|(k & Hk & Hmk)]; [tauto|].
        apply elem_of_cons in Hk as [[= -> ->]|Hk]; [congruence|].
        right. exists k. split; assumption.
Qed.

Lemma extractFeatures_protein ingredients recipeName prepTime cookTime :
  Js.get (extractFeatures ingredients recipeName prepTime cookTime) "protein"
  = match extractProteins (allTextOf ingredients recipeName) with
    | [] => None
    | ps => Some (FArray ps)
    end.
Proof.
  unfold extractFeatures. rewrite !get_assign.
  repeat (case_decide; [discriminate|]). case_decide; [|congruence].
  destruct (extractProteins _); reflexivity.
Qed.

(** X2.  The [protein] feature is the set of the proteins of the
    keywords of [PROTEIN_KEYWORDS] that occur in the text: each such
    protein once, no other, and the feature is absent exactly when no
    keyword occurs. *)
Theorem protein_is_set_of_matches (ingredients : list Ingredient) (recipeName : string)
  (prepTime cookTime : option Z) :
  (forall v, Js.get (extractFeatures ingredients recipeName prepTime cookTime) "protein"
             = Some v ->
     exists ps, v = FArray ps /\ ps <> [] /\ NoDup ps /\
       forall p, p ∈ ps <->
                 exists kw, (kw, p) ∈ PROTEIN_KEYWORDS /\
                            matches (allTextOf ingredients recipeName) kw = true) /\
  (Js.get (extractFeatures ingredients recipeName prepTime cookTime) "protein" = None <->
   forall kc, kc ∈ PROTEIN_KEYWORDS ->
              matches (allTextOf ingredients recipeName) (fst kc) = false).
Proof.
  rewrite extractFeatures_protein. unfold extractProteins.
  destruct (proteins_fold (allTextOf ingredients recipeName) PROTEIN_KEYWORDS []
              (NoDup_nil_2)) as [Hnd Hiff].
  assert (Hiff' : forall p,
    p ∈ fold_left (fun proteins '(keyword, protein) =>
                     if matches (allTextOf ingredients recipeName) keyword
                     then set_add proteins protein else proteins) PROTEIN_KEYWORDS [] <->
    exists kw, (kw, p) ∈ PROTEIN_KEYWORDS /\
               matches (allTextOf ingredients recipeName) kw = true).
  { intros p. rewrite Hiff. split; [|tauto]. intros [H|H]; [inversion H|exact H]. }
  clear Hiff. destruct (fold_left _ PROTEIN_KEYWORDS []) as [|p0 ps] eqn:Hps.
  - split; [discriminate|]. split; [|reflexivity]. intros _ [kw p] Hin.
    simpl. destruct (matches (allTextOf ingredients recipeName) kw) eqn:Hm; [|reflexivity].
    assert (Hp : p ∈ []) by (apply Hiff'; exists kw; split; assumption). inversion Hp.
  - split.
    + intros v [= <-]. exists (p0 :: ps). repeat split; try assumption; try discriminate;
        apply Hiff'.
    + split; [discriminate|]. intros Hnone. exfalso.
      assert (Hp : p0 ∈ p0 :: ps) by left. apply Hiff' in Hp as (kw & Hin & Hm).
      pose proof (Hnone (kw, p0) Hin) as Hf. simpl in Hf. congruence.
Qed.

(** *** Spice level: hot before medium before mild *)

Lemma scanSpice_hot table allText level :
  (exists kw, (kw, hot) ∈ table /\ matches allText kw = true) ->
  scanSpice table allText level = hot.
Proof.
  revert level. induction table as [|[kw l] table IH]; intros level (k & Hin & Hm).
  - inversion Hin.
  - simpl. apply elem_of_cons in Hin as [[= <- <-]|Hin].
    + rewrite Hm. reflexivity.
    + assert (Hrest : exists kw, (kw, hot) ∈ table /\ matches allText kw = true)
        by (exists k; split; assumption).
      destruct (matches allText kw); [destruct l|]; try reflexivity; apply IH; exact Hrest.
Qed.

Lemma scanSpice_keeps_medium table allText :
  (forall kw, (kw, hot) ∈ table -> matches allText kw = false) ->
  scanSpice table allText medium = medium.
Proof.
  induction table as [|[kw l] table IH]; intros Hno; simpl; [reflexivity|].
  assert (Hno' : forall kw, (kw, hot) ∈ table -> matches allText kw = false).
  { intros k Hk. apply Hno. right. exact Hk. }
  destruct (matches allText kw) eqn:Hm; [destruct l|]; try (apply IH; exact Hno').
  rewrite (Hno kw) in Hm by left. discriminate.
Qed.

Lemma scanSpice_medium table allText level :
  (forall kw, (kw, hot) ∈ table -> matches allText kw = false) ->
  (exists kw, (kw, medium) ∈ table /\ matches allText kw = true) ->
  scanSpice table allText level = medium.
Proof.
  revert level. induction table as [|[kw l] table IH]; intros level Hno (k & Hin & Hk).
  - inversion Hin.
  - assert (Hno' : forall kw, (kw, hot) ∈ table -> matches allText kw = false).
    { intros k' Hk'. apply Hno. right. exact Hk'. }
    simpl. apply elem_of_cons in Hin as [[= <- <-]|Hin].
    + rewrite Hk. apply scanSpice_keeps_medium. exact Hno'.
    + assert (Hrest : exists kw, (kw, medium) ∈ table /\ matches allText kw = true)
        by (exists k; split; assumption).
      destruct (matches allText kw) eqn:Hm; [destruct l|]; try (apply IH; assumption).
      rewrite (Hno kw) in Hm by left. discriminate.
Qed.

Lemma scanSpice_mild table allText level :
  (forall kw, (kw, hot) ∈ table -> matches allText kw = false) ->
  (forall kw, (kw, medium) ∈ table -> matches allText kw = false) ->
  scanSpice table allText level = level.
Proof.
  revert level. induction table as [|[kw l] table IH]; intros level Hhot Hmed; simpl;
    [reflexivity|].
  assert (Hhot' : forall kw, (kw, hot) ∈ table -> matches allText kw = false).
  { intros k Hk. apply Hhot. right. exact Hk. }
  assert (Hmed' : forall kw, (kw, medium) ∈ table -> matches allText kw = false).
  { intros k Hk. apply Hmed. right. exact Hk. }
  destruct (matches allText kw) eqn:Hm; [destruct l|]; try (apply IH; assumption).
  - rewrite (Hmed kw) in Hm by left. discriminate.
  - rewrite (Hhot kw) in Hm by left. discriminate.
Qed.

Lemma extractFeatures_spice ingredients recipeName prepTime cookTime :
  Js.get (extractFeatures ingredients recipeName prepTime cookTime) "spice_level"
  = Some (FScalar (spice_name
                     (scanSpice SPICE_INDICATORS (allTextOf ingredients recipeName) mild))).
Proof.
  unfold extractFeatures. rewrite !get_assign.
  repeat (case_decide; [discriminate|]). case_decide; [reflexivity|congruence].
Qed.

(** X3.  The [spice_level] feature is always there: [hot] when any hot
    keyword occurs in the text, whatever else occurs; else [medium] when a
    medium keyword occurs; else [mild]. *)
Theorem spice_level_precedence (ingredients : list Ingredient) (recipeName : string)
  (prepTime cookTime : option Z) :
  (spice_match (allTextOf ingredients recipeName) hot ->
   Js.get (extractFeatures ingredients recipeName prepTime cookTime) "spice_level"
   = Some (FScalar "hot")) /\
  (~ spice_match (allTextOf ingredients recipeName) hot ->
   spice_match (allTextOf ingredients recipeName) medium ->
   Js.get (extractFeatures ingredients recipeName prepTime cookTime) "spice_level"
   = Some (FScalar "medium")) /\
  (~ spice_match (allTextOf ingredients recipeName) hot ->
   ~ spice_match (allTextOf ingredients recipeName) medium ->
   Js.get (extractFeatures ingredients recipeName prepTime cookTime) "spice_level"
   = Some (FScalar "mild")).
Proof.
  rewrite extractFeatures_spice. unfold spice_match.
  assert (Hno : forall level,
            ~ (exists kw, (kw, level) ∈ SPICE_INDICATORS /\
                          matches (allTextOf ingredients recipeName) kw = true) ->
            forall kw, (kw, level) ∈ SPICE_INDICATORS ->
                       matches (allTextOf ingredients recipeName) kw = false).
  { intros level Hn kw Hin.
    destruct (matches (allTextOf ingredients recipeName) kw) eqn:Hm; [|reflexivity].
    exfalso. apply Hn. exists kw. split; assumption. }
  split; [|split].
  - intros Hhot. rewrite (scanSpice_hot _ _ _ Hhot). reflexivity.
  - intros Hn Hmed. rewrite (scanSpice_medium _ _ _ (Hno hot Hn) Hmed). reflexivity.
  - intros Hn Hmed. rewrite (scanSpice_mild _ _ _ (Hno hot Hn) (Hno medium Hmed)).
    reflexivity.
Qed.

(** *** Key ingredients *)

Lemma extractFeatures_ingredients ingredients recipeName prepTime cookTime :
  Js.get (extractFeatures ingredients recipeName prepTime cookTime) "ingredients"
  = match keyIngredientsOf ingredients with
    | [] => None
    | ks => Some (FArray ks)
    end.
Proof.
  unfold extractFeatures. rewrite !get_assign.
  case_decide; [|congruence]. repeat (case_decide; [discriminate|]).
  destruct (keyIngredientsOf ingredients); reflexivity.
Qed.

Lemma sublist_filter {A} (f : A -> bool) (l : list A) : List.filter f l `sublist_of` l.
Proof.
  induction l as [|a l IH]; simpl; [constructor|].
  destruct (f a); [apply sublist_skip|apply sublist_cons]; exact IH.
Qed.

Lemma keyIngredients_spec ingredients :
  (length (keyIngredientsOf ingredients) <= 10)%nat /\
  keyIngredientsOf ingredients
    `sublist_of` map (fun i => normalizeIngredient (ingredient i)) ingredients /\
  forall k, k ∈ keyIngredientsOf ingredients -> (2 < Js.length k)%nat.
Proof.
  unfold keyIngredientsOf. split; [apply firstn_le_length|]. split.
  - etransitivity; [apply sublist_take|apply sublist_filter].
  - intros k Hk. apply elem_of_firstn, list_elem_of_In, filter_In in Hk as [_ Hk].
    apply Nat.ltb_lt. exact Hk.
Qed.


(** *** The shape of an extracted feature set *)

Lemma assign_fresh (f : RecipeFeatures) (k : string) (v : option FeatureValue) :
  k ∉ map fst f ->
  assign f k v = f ++ match v with Some fv => [(k, fv)] | None => [] end.
Proof.
  intros Hk. destruct v as [fv|]; simpl; [|rewrite app_nil_r; reflexivity].
  induction f as [|[k' v'] f IH]; simpl; [reflexivity|].
  simpl in Hk. apply not_elem_of_cons in Hk as [Hne Hk].
  destruct (String.eqb_spec k' k); [congruence|]. rewrite (IH Hk). reflexivity.
Qed.

(** X5.  An extracted feature set lists its names once each and in the
    order protein, carb, cuisine, spice_level, prep_time_bucket,
    ingredients; [spice_level] is always among them; no value is [null] and
    no array is empty. *)
Theorem extracted_features_shape (ingredients : list Ingredient) (recipeName : string)
  (prepTime cookTime : option Z) :
  map fst (extractFeatures ingredients recipeName prepTime cookTime)
    `sublist_of` assignment_order /\
  NoDup (map fst (extractFeatures ingredients recipeName prepTime cookTime)) /\
  "spice_level" ∈ map fst (extractFeatures ingredients recipeName prepTime cookTime) /\
  forall k v, (k, v) ∈ extractFeatures ingredients recipeName prepTime cookTime ->
              substantial v.
Proof.
  unfold extractFeatures, assignment_order.
  generalize (spice_name (scanSpice SPICE_INDICATORS (allTextOf ingredients recipeName) mild)).
  intros sp.
  destruct (extractProteins (allTextOf ingredients recipeName)) as [|p ps];
    destruct (extractCarb (allTextOf ingredients recipeName)) as [c|];
    destruct (detectCuisine (allTextOf ingredients recipeName)) as [cu|];
    destruct (prepTimeBucket prepTime cookTime) as [b|];
    destruct (keyIngredientsOf ingredients) as [|k ks];
    cbn;
    (split; [repeat first [apply sublist_nil | apply sublist_skip | apply sublist_cons]|]);
    (split; [by_decide|]);
    (split; [set_solver|]);
    intros k0 v Hin;
    repeat (apply elem_of_cons in Hin as [[= _ ->]|Hin]; [simpl; try exact I; discriminate|]);
    inversion Hin.
Qed.

End ExtractedFeatures.

(** ** Explanations *)

Section Explanations.

Import Spec Explain.

Lemma collectPositives_filter f ws :
  collectPositives f ws
  = map (fun w => formatFeature (feature_type w) (feature_value w))
        (List.filter (explains f) ws).
Proof.
  unfold collectPositives.
  assert (Hgen : forall acc,
    fold_left (fun positives w =>
                 if explains f w
                 then positives ++ [formatFeature (feature_type w) (feature_value w)]
                 else positives) ws acc
    = acc ++ map (fun w => formatFeature (feature_type w) (feature_value w))
                 (List.filter (explains f) ws)).
  { induction ws as [|w ws IH]; intros acc; simpl; [rewrite app_nil_r; reflexivity|].
    rewrite IH. destruct (explains f w); simpl; [|reflexivity].
    rewrite <- app_assoc. reflexivity. }
  apply (Hgen []).
Qed.

Lemma explains_confident f w : explains f w = true -> 300 < weight w.
Proof.
  unfold explains. destruct (Z.leb_spec (weight w) 300); [discriminate|]. intros _. lia.
Qed.

Lemma get_has_value (f : RecipeFeatures) t fv v :
  Js.get f t = Some fv -> value_has fv v = true -> has_feature f t v = true.
Proof.
  intros Hget Hv. apply get_elem_of in Hget. unfold has_feature.
  apply existsb_exists. exists (t, fv). split; [apply list_elem_of_In; exact Hget|].
  rewrite String.eqb_refl. exact Hv.
Qed.

Lemma explains_grounded f w :
  explains f w = true -> has_feature f (feature_type w) (feature_value w) = true.
Proof.
  unfold explains. destruct (weight w <=? 300); [discriminate|].
  destruct (Js.get f (feature_type w)) as [[|s|vs]|] eqn:Hget; try discriminate.
  - destruct (String.eqb s ""); [discriminate|]. intros Hs.
    apply (get_has_value _ _ _ _ Hget). exact Hs.
  - intros Hv. apply (get_has_value _ _ _ _ Hget). exact Hv.
Qed.

(** X6.  Weights of 0.3 or less never change the explanation: passing
    all weights gives the same text as passing only those above 0.3, which
    is what the suggestion route does. *)
Theorem explanation_ignores_weak_weights (f : RecipeFeatures) (ws : list PreferenceWeight) :
  explainSuggestion f ws
  = explainSuggestion f (List.filter (fun w => 300 <? weight w) ws).
Proof.
  unfold explainSuggestion. rewrite !collectPositives_filter.
  replace (List.filter (explains f) (List.filter (fun w => 300 <? weight w) ws))
    with (List.filter (explains f) ws); [reflexivity|].
  induction ws as [|w ws IH]; simpl; [reflexivity|].
  destruct (explains f w) eqn:He.
  - assert ((300 <? weight w) = true) as -> by (apply Z.ltb_lt, (explains_confident f w He)).
    simpl. rewrite He, IH. reflexivity.
  - destruct (300 <? weight w); simpl; [rewrite He|]; exact IH.
Qed.

(** X7.  An explanation is grounded: when no weight above 0.3 sits on a
    [(type, value)] pair of the recipe the text is the fallback, and any
    other text names at most three fragments, each the formatted pair of a
    weight above 0.3 whose pair the recipe has, in the order of the weight
    list. *)
Theorem explanation_is_grounded (f : RecipeFeatures) (ws : list PreferenceWeight) :
  ((forall w, w ∈ ws -> 300 < weight w ->
              has_feature f (feature_type w) (feature_value w) = false) ->
   explainSuggestion f ws = "Matches general preferences") /\
  (explainSuggestion f ws <> "Matches general preferences" ->
   exists shown,
     explainSuggestion f ws = "You like " +:+ join ", " shown /\
     (0 < length shown <= 3)%nat /\
     exists used, used `sublist_of` ws /\
       shown = map (fun w => formatFeature (feature_type w) (feature_value w)) used /\
       forall w, w ∈ used ->
                 300 < weight w /\
                 has_feature f (feature_type w) (feature_value w) = true).
Proof.
  unfold explainSuggestion. rewrite collectPositives_filter. split.
  - intros Hnone.
    assert (List.filter (explains f) ws = []) as ->; [|reflexivity].
    induction ws as [|w ws IH]; simpl; [reflexivity|].
    destruct (explains f w) eqn:He.
    + pose proof (explains_grounded f w He) as Hg.
      assert (Hin : w ∈ w :: ws) by left.
      pose proof (Hnone w Hin (explains_confident f w He)) as Hf. congruence.
    + apply IH. intros w' Hw'. apply Hnone. right. exact Hw'.
  - destruct (List.filter (explains f) ws) as [|w0 l] eqn:Hfil; [simpl; congruence|].
    intros _. exists (map (fun w => formatFeature (feature_type w) (feature_value w))
                          (firstn 3 (w0 :: l))).
    split; [rewrite <- firstn_map; reflexivity|]. split.
    + rewrite length_map, length_firstn. cbn [length]. lia.
    + exists (firstn 3 (w0 :: l)). split; [|split; [reflexivity|]].
      * rewrite <- Hfil. etransitivity; [apply sublist_take|apply sublist_filter].
      * intros w Hw. apply elem_of_firstn in Hw. rewrite <- Hfil in Hw.
        apply list_elem_of_In, filter_In in Hw as [_ He].
        split; [apply (explains_confident f w He)|apply (explains_grounded f w He)].
Qed.

Lemma get_missing {V} (o : Js.object V) (k : string) :
  k ∉ map fst o -> Js.get o k = None.
Proof.
  induction o as [|[k' v] o IH]; simpl; intros Hk; [reflexivity|].
  apply not_elem_of_cons in Hk as [Hne Hk].
  destruct (String.eqb_spec k' k); [congruence|]. apply IH. exact Hk.
Qed.

(** X8.  For an extracted feature set the explanation never draws on a
    weight of type ['ingredient']: the set has no feature of that name, so
    what the exclusion penalty and the learned ingredient weights say is
    never shown. *)
Theorem explanation_ignores_ingredient_weights `{Features.StringRuntime}
  (ingredients : list Features.Ingredient) (recipeName : string)
  (prepTime cookTime : option Z) (ws : list PreferenceWeight) :
  explainSuggestion (Features.extractFeatures ingredients recipeName prepTime cookTime) ws
  = explainSuggestion (Features.extractFeatures ingredients recipeName prepTime cookTime)
                      (without_ingredient_weights ws).
Proof.
  unfold explainSuggestion. rewrite !collectPositives_filter.
  replace (List.filter
             (explains (Features.extractFeatures ingredients recipeName prepTime cookTime))
             (without_ingredient_weights ws))
    with (List.filter
            (explains (Features.extractFeatures ingredients recipeName prepTime cookTime))
            ws); [reflexivity|].
  unfold without_ingredient_weights.
  induction ws as [|w ws IH]; simpl; [reflexivity|].
  destruct (String.eqb_spec (feature_type w) "ingredient") as [Heq|Hne]; simpl.
  - assert (explains (Features.extractFeatures ingredients recipeName prepTime cookTime) w
            = false) as ->; [|exact IH].
    unfold explains. destruct (weight w <=? 300); [reflexivity|].
    rewrite Heq, get_missing; [reflexivity|].
    intros Hin. apply extractFeatures_names in Hin. unfold extracted_names in Hin.
    repeat (apply elem_of_cons in Hin as [Hin|Hin]; [discriminate|]). inversion Hin.
  - rewrite IH. reflexivity.
Qed.

End Explanations.

(** ** Personal suggestions and the rating deltas *)

Section PersonalSuggestions.

Import Spec Suggestions.

(** X9.  [getRatingDelta] and the trigger use the same delta for each of
    the five rating values; any other string gets 0, and no delta is
    outside [-0.15, 0.15]. *)
Theorem rating_delta_agrees_with_trigger :
  (forall r, getRatingDelta (rating_label r) = Schema.weight_delta_of r) /\
  (forall s, (forall r, s <> rating_label r) -> getRatingDelta s = 0) /\
  (forall s, -150 <= getRatingDelta s <= 150).
Proof.
  split; [intros []; reflexivity|]. split.
  - intros s Hs. unfold getRatingDelta.
    destruct (String.eqb_spec s "loved") as [->|_]; [destruct (Hs Schema.loved eq_refl)|].
    destruct (String.eqb_spec s "liked") as [->|_]; [destruct (Hs Schema.liked eq_refl)|].
    destruct (String.eqb_spec s "neutral") as [->|_]; [reflexivity|].
    destruct (String.eqb_spec s "disliked") as [->|_];
      [destruct (Hs Schema.disliked eq_refl)|].
    destruct (String.eqb_spec s "hated") as [->|_]; [destruct (Hs Schema.hated eq_refl)|].
    reflexivity.
  - intros s. unfold getRatingDelta.
    repeat match goal with |- context [String.eqb ?a ?b] => destruct (String.eqb a b) end;
      lia.
Qed.

Lemma StronglySorted_weaken {A} (R R' : A -> A -> Prop) (l : list A) :
  StronglySorted R l -> (forall a b, R a b -> R' a b) -> StronglySorted R' l.
Proof.
  intros Hs Himp. induction Hs as [|a l Hl IH Ha]; constructor; [exact IH|].
  eapply Forall_impl; [exact Ha|]. intros b Hb. apply Himp. exact Hb.
Qed.


End PersonalSuggestions.

(** ** The exploration regime of the selector *)

Section Exploration.

Import Recommendation Spec.

Lemma randomIndex_lt (random : Q) (len : nat) :
  (0 <= random)%Q -> (random < 1)%Q -> (0 < len)%nat -> (randomIndex random len < len)%nat.
Proof.
  intros H0 H1 Hlen. unfold randomIndex.
  assert (HL : (0 < inject_Z (Z.of_nat len))%Q).
  { change 0%Q with (inject_Z 0). rewrite <- Zlt_Qlt. lia. }
  assert (Hx : (random * inject_Z (Z.of_nat len) < inject_Z (Z.of_nat len))%Q).
  { rewrite <- (Qmult_1_l (inject_Z (Z.of_nat len))) at 2.
    apply Qmult_lt_r; assumption. }
  assert (Hnn : (0 <= random * inject_Z (Z.of_nat len))%Q).
  { apply Qmult_le_0_compat; [exact H0|apply Qlt_le_weak; exact HL]. }
  assert (Hf0 : 0 <= Qfloor (random * inject_Z (Z.of_nat len))).
  { rewrite <- (Qfloor_Z 0). apply Qfloor_resp_le. exact Hnn. }
  assert (Hf1 : Qfloor (random * inject_Z (Z.of_nat len)) < Z.of_nat len).
  { rewrite Zlt_Qlt. eapply Qle_lt_trans; [apply Qfloor_le|exact Hx]. }
  lia.
Qed.

Lemma randomIndex_hits (i len : nat) :
  (i < len)%nat ->
  randomIndex (inject_Z (Z.of_nat i) / inject_Z (Z.of_nat len)) len = i /\
  (0 <= inject_Z (Z.of_nat i) / inject_Z (Z.of_nat len))%Q /\
  (inject_Z (Z.of_nat i) / inject_Z (Z.of_nat len) < 1)%Q.
Proof.
  intros Hi.
  assert (HL : (0 < inject_Z (Z.of_nat len))%Q).
  { change 0%Q with (inject_Z 0). rewrite <- Zlt_Qlt. lia. }
  assert (Hne : ~ (inject_Z (Z.of_nat len) == 0)%Q).
  { intros Heq. rewrite Heq in HL. apply (Qlt_irrefl 0). exact HL. }
  split; [|split].
  - unfold randomIndex.
    assert (Heq : (inject_Z (Z.of_nat i) / inject_Z (Z.of_nat len) * inject_Z (Z.of_nat len)
                   == inject_Z (Z.of_nat i))%Q).
    { rewrite Qmult_comm. apply Qmult_div_r. exact Hne. }
    rewrite Heq, Qfloor_Z. apply Nat2Z.id.
  - apply Qle_shift_div_l; [exact HL|]. rewrite Qmult_0_l.
    change 0%Q with (inject_Z 0). rewrite <- Zle_Qle. lia.
  - apply Qlt_shift_div_r; [exact HL|]. rewrite Qmult_1_l. rewrite <- Zlt_Qlt. lia.
Qed.

Lemma established_pick db profileId random :
  (20 <= length (profileRatings db profileId))%nat ->
  getNextRecipeToRate db profileId random
  = nth_error (firstn 20 (order_by_external_rating (unratedRecipes db profileId)))
      (randomIndex random
         (length (firstn 20 (order_by_external_rating (unratedRecipes db profileId))))).
Proof.
  intros Hn. unfold getNextRecipeToRate. rewrite unratedQuery_filter.
  assert ((Z.of_nat (length (profileRatings db profileId)) <? 20) = false) as ->
    by (apply Z.ltb_ge; lia).
  assert ((20 <=? Z.of_nat (length (profileRatings db profileId))) = true) as ->
    by (apply Z.leb_le; lia).
  destruct (firstn 20 (order_by_external_rating (unratedRecipes db profileId))) eqn:Hf;
    [|reflexivity].
  destruct (randomIndex random (length (@nil Recipe))); reflexivity.
Qed.

(** X11.  With twenty ratings or more and a draw in [0, 1) the selector
    returns one of the twenty best rated unrated recipes, nothing only when
    no recipe is unrated; and each of those twenty is returned for some
    draw. *)
Theorem exploration_picks_among_top_twenty (db : Database) (profileId : string)
  (random : Q) :
  (20 <= length (profileRatings db profileId))%nat ->
  (0 <= random)%Q -> (random < 1)%Q ->
  (getNextRecipeToRate db profileId random = None <-> unratedRecipes db profileId = []) /\
  (forall r, getNextRecipeToRate db profileId random = Some r ->
             r ∈ firstn 20 (order_by_external_rating (unratedRecipes db profileId)) /\
             r ∈ recipes db /\ (recipe_id_of r ∉ ratedIdsOf db profileId)) /\
  (forall r, r ∈ firstn 20 (order_by_external_rating (unratedRecipes db profileId)) ->
             exists random', (0 <= random')%Q /\ (random' < 1)%Q /\
                             getNextRecipeToRate db profileId random' = Some r).
Proof.
  intros Hn H0 H1. rewrite (established_pick db profileId random Hn).
  set (rows := firstn 20 (order_by_external_rating (unratedRecipes db profileId))).
  split; [|split].
  - split.
    + intros Hnone. apply nth_error_None in Hnone.
      destruct rows as [|r0 rows'] eqn:Hrows.
      * apply (sort_head_none external_rating_cmp). unfold rows in Hrows.
        fold (order_by_external_rating (unratedRecipes db profileId)).
        destruct (order_by_external_rating (unratedRecipes db profileId));
          [reflexivity|discriminate].
      * pose proof (randomIndex_lt random (length (r0 :: rows')) H0 H1) as Hlt.
        simpl in Hlt, Hnone. lia.
    + intros Hno. unfold rows. rewrite Hno.
      change (firstn 20 (order_by_external_rating (@nil Recipe))) with (@nil Recipe).
      destruct (randomIndex random (length (@nil Recipe))); reflexivity.
  - intros r Hr. apply nth_error_In, list_elem_of_In in Hr. split; [exact Hr|].
    apply unratedRecipes_elem, (sort_elem_of external_rating_cmp).
    apply (elem_of_firstn _ 20). exact Hr.
  - intros r Hr. apply list_elem_of_In, In_nth_error in Hr as [i Hi].
    assert (Hlt : (i < length rows)%nat) by (apply nth_error_Some; congruence).
    destruct (randomIndex_hits i (length rows) Hlt) as (Hidx & Hge & Hlt1).
    exists (inject_Z (Z.of_nat i) / inject_Z (Z.of_nat (length rows)))%Q.
    split; [exact Hge|]. split; [exact Hlt1|].
    rewrite (established_pick db profileId _ Hn). fold rows. rewrite Hidx. exact Hi.
Qed.

End Exploration.

(** ** What a rating event does to the table *)

Section RatingEvents.

Import Spec Schema Store.

Lemma feature_keys_profile pid fs k : k ∈ feature_keys pid fs -> fst (fst k) = pid.
Proof.
  unfold feature_keys. intros Hk. apply list_elem_of_In, in_flat_map in Hk as (e & _ & Hk).
  destruct (cast_feature_type (fst e)) as [ft|]; [|destruct Hk].
  destruct (snd e) as [|s|elems].
  - destruct Hk as [<-|[]]. reflexivity.
  - destruct Hk as [<-|[]]. reflexivity.
  - apply in_map_iff in Hk as (x & <- & _). reflexivity.
Qed.

Lemma excluded_keys_profile NEW k : k ∈ excluded_keys NEW -> fst (fst k) = profile_id NEW.
Proof.
  unfold excluded_keys. intros Hk. apply list_elem_of_fmap in Hk as (x & -> & _). reflexivity.
Qed.

Lemma fold_upsert_is_Some delta keys tbl k :
  is_Some (tbl !! k) -> is_Some (fold_left (upsert_key delta) keys tbl !! k).
Proof.
  revert tbl. induction keys as [|a keys IH]; intros tbl Hk; simpl; [exact Hk|].
  apply IH. rewrite upsert_key_lookup. destruct (decide (a = k)); [eexists; reflexivity|exact Hk].
Qed.

Lemma fold_penalise_is_Some keys tbl k :
  is_Some (tbl !! k) -> is_Some (fold_left penalise_key keys tbl !! k).
Proof.
  revert tbl. induction keys as [|a keys IH]; intros tbl Hk; simpl; [exact Hk|].
  apply IH. unfold penalise_key. rewrite upsert_excluded_lookup.
  destruct (decide (_ = k)); [eexists; reflexivity|exact Hk].
Qed.

Lemma rating_frame recipes NEW tbl k :
  k ∉ feature_keys (profile_id NEW) (default [] (recipes !! recipe_id NEW)) ->
  k ∉ excluded_keys NEW ->
  on_rating_insert recipes tbl NEW !! k = tbl !! k.
Proof.
  intros Hf He. unfold on_rating_insert.
  destruct (update_preference_weights recipes NEW tbl) as [tbl'|] eqn:Ht; simpl;
    [|reflexivity].
  apply trigger_folds in Ht as [-> _]. unfold excluded_keys in *.
  rewrite fold_penalise_other by exact He. apply fold_upsert_other. exact Hf.
Qed.

(** X12.  A rating event writes only rows of its own profile, under the
    keys of the recipe's features and of the excluded names: every other
    row is as before, the rows of every other profile among them, and no
    row is ever removed. *)
Theorem rating_touches_only_its_keys (recipes : recipes_table) (NEW : ratings_row)
  (tbl : weights_table) (k : string * feature_type * string) :
  (k ∉ feature_keys (profile_id NEW) (default [] (recipes !! recipe_id NEW)) ->
   k ∉ excluded_keys NEW ->
   on_rating_insert recipes tbl NEW !! k = tbl !! k) /\
  (fst (fst k) <> profile_id NEW -> on_rating_insert recipes tbl NEW !! k = tbl !! k) /\
  (is_Some (tbl !! k) -> is_Some (on_rating_insert recipes tbl NEW !! k)).
Proof.
  split; [apply rating_frame|]. split.
  - intros Hp. apply rating_frame.
    + intros Hk. apply feature_keys_profile in Hk. congruence.
    + intros Hk. apply excluded_keys_profile in Hk. congruence.
  - intros Hk. unfold on_rating_insert.
    destruct (update_preference_weights recipes NEW tbl) as [tbl'|] eqn:Ht; simpl;
      [|exact Hk].
    apply trigger_folds in Ht as [-> _].
    apply fold_penalise_is_Some, fold_upsert_is_Some. exact Hk.
Qed.

(** *** Sample counts *)

Lemma touches_cons k a keys :
  touches k (a :: keys) = (if decide (a = k) then 1 else 0) + touches k keys.
Proof.
  unfold touches. simpl. destruct (decide (a = k)) as [Heq|Hne].
  - rewrite bool_decide_eq_true_2 by exact Heq. simpl length. lia.
  - rewrite bool_decide_eq_false_2 by exact Hne. lia.
Qed.

Lemma touches_app k l1 l2 : touches k (l1 ++ l2) = touches k l1 + touches k l2.
Proof. unfold touches. rewrite List.filter_app, length_app. lia. Qed.

Lemma touches_nonneg k keys : 0 <= touches k keys.
Proof. unfold touches. lia. Qed.

Lemma fold_upsert_count delta keys tbl k :
  sample_count_of (fold_left (upsert_key delta) keys tbl) k
  = sample_count_of tbl k + touches k keys.
Proof.
  revert tbl. induction keys as [|a keys IH]; intros tbl; simpl.
  - unfold touches. simpl. lia.
  - rewrite IH, touches_cons. unfold sample_count_of. rewrite upsert_key_lookup.
    destruct (decide (a = k)); [|lia].
    destruct (tbl !! k) as [[w n]|]; simpl; lia.
Qed.

Lemma fold_penalise_count keys tbl k :
  sample_count_of (fold_left penalise_key keys tbl) k
  = sample_count_of tbl k
    + touches k (map (fun a => (fst (fst a), ingredient, snd a)) keys).
Proof.
  revert tbl. induction keys as [|a keys IH]; intros tbl; simpl.
  - unfold touches. simpl. lia.
  - rewrite IH, touches_cons. unfold sample_count_of, penalise_key.
    rewrite upsert_excluded_lookup.
    destruct (decide ((fst (fst a), ingredient, snd a) = k)); [|lia].
    destruct (tbl !! k) as [[w n]|]; simpl; lia.
Qed.

Lemma excluded_keys_ingredient NEW :
  map (fun a => (fst (fst a), ingredient, snd a)) (excluded_keys NEW) = excluded_keys NEW.
Proof.
  unfold excluded_keys. rewrite map_map. reflexivity.
Qed.

(** X13.  The sample count of a row counts the upserts: an event that
    completes adds to the count of every key the number of times the key
    stands among the keys of the recipe's features and of the excluded
    names (a key without a row counting 0); no count ever goes down. *)
Theorem rating_counts_samples (recipes : recipes_table) (NEW : ratings_row)
  (tbl tbl' : weights_table) (k : string * feature_type * string) :
  update_preference_weights recipes NEW tbl = Some tbl' ->
  sample_count_of tbl' k
  = sample_count_of tbl k
    + touches k (feature_keys (profile_id NEW) (default [] (recipes !! recipe_id NEW))
                 ++ excluded_keys NEW) /\
  sample_count_of tbl k <= sample_count_of tbl' k.
Proof.
  intros Ht. apply trigger_folds in Ht as [-> _].
  rewrite fold_penalise_count, fold_upsert_count, excluded_keys_ingredient, touches_app.
  pose proof (touches_nonneg k (feature_keys (profile_id NEW)
                                  (default [] (recipes !! recipe_id NEW)))).
  pose proof (touches_nonneg k (excluded_keys NEW)). lia.
Qed.

(** *** When the trigger raises *)

Lemma upsert_cast_valid pid fk delta elems tbl ft :
  cast_feature_type fk = Some ft ->
  is_Some (fold_left (upsert_cast pid fk delta) elems (Some tbl)).
Proof.
  intros Hc. revert tbl. induction elems as [|e elems IH]; intros tbl; cbn [fold_left].
  - eexists; reflexivity.
  - rewrite upsert_cast_some, Hc. apply IH.
Qed.

Lemma update_feature_raises pid delta tbl entry :
  update_feature pid delta (Some tbl) entry = None <-> unknown_name entry = true.
Proof.
  destruct entry as [fk v]. unfold unknown_name. cbn [fst snd].
  destruct v as [|s|elems]; unfold update_feature; cbv beta iota.
  - rewrite upsert_cast_some. destruct (cast_feature_type fk); split; congruence.
  - rewrite upsert_cast_some. destruct (cast_feature_type fk); split; congruence.
  - destruct (cast_feature_type fk) as [ft|] eqn:Hc.
    + split; [|discriminate]. intros Hn.
      destruct (upsert_cast_valid pid fk delta elems tbl ft Hc) as [t Ht]. congruence.
    + destruct elems as [|e elems]; cbn [fold_left]; [split; discriminate|].
      rewrite upsert_cast_some, Hc, upsert_cast_none. split; reflexivity.
Qed.

Lemma feature_loop_raises pid delta fs tbl :
  fold_left (update_feature pid delta) fs (Some tbl) = None <->
  exists entry, entry ∈ fs /\ unknown_name entry = true.
Proof.
  revert tbl. induction fs as [|e fs IH]; intros tbl; cbn [fold_left].
  - split; [discriminate|]. intros (entry & Hin & _). inversion Hin.
  - destruct (update_feature pid delta (Some tbl) e) as [mid|] eqn:He.
    + rewrite IH. split.
      * intros (entry & Hin & Hu). exists entry. split; [right; exact Hin|exact Hu].
      * intros (entry & Hin & Hu). apply elem_of_cons in Hin as [->|Hin].
        -- apply (update_feature_raises pid delta tbl) in Hu. congruence.
        -- exists entry. split; assumption.
    + rewrite update_feature_none. split; [|reflexivity]. intros _.
      exists e. split; [left|]. apply (update_feature_raises pid delta tbl). exact He.
Qed.

Lemma trigger_raises recipes NEW tbl :
  update_preference_weights recipes NEW tbl = None <->
  exists entry, entry ∈ default [] (recipes !! recipe_id NEW) /\ unknown_name entry = true.
Proof.
  rewrite <- (feature_loop_raises (profile_id NEW) (weight_delta_of (rating NEW)) _ tbl).
  unfold update_preference_weights, feature_updates.
  destruct (fold_left _ _ (Some tbl)); simpl; split; congruence.
Qed.

(** X14.  The trigger raises exactly when the recipe has a feature whose
    name is no label of the enum [feature_type] and whose value is a scalar
    or an array with a member, whatever the rating, the exclusions and the
    table; the insert is then undone and the table is as before. *)
Theorem rating_raises_iff_unknown_name (recipes : recipes_table) (NEW : ratings_row)
  (tbl : weights_table) :
  (update_preference_weights recipes NEW tbl = None <->
   exists entry, entry ∈ default [] (recipes !! recipe_id NEW) /\
                 unknown_name entry = true) /\
  (update_preference_weights recipes NEW tbl = None ->
   on_rating_insert recipes tbl NEW = tbl).
Proof.
  split; [apply trigger_raises|].
  intros Hn. unfold on_rating_insert. rewrite Hn. reflexivity.
Qed.

(** *** The direction of a rating *)

Lemma upsert_key_down delta tbl k k' :
  delta <= 0 -> -1000 <= weight_of tbl k' ->
  weight_of (upsert_key delta tbl k) k' <= weight_of tbl k'.
Proof.
  intros Hd Hw. unfold weight_of in *. rewrite upsert_key_lookup.
  destruct (decide (k = k')); [|lia].
  destruct (tbl !! k') as [[w n]|]; simpl in *; lia.
Qed.

Lemma upsert_key_up delta tbl k k' :
  0 <= delta -> weight_of tbl k' <= 1000 ->
  weight_of tbl k' <= weight_of (upsert_key delta tbl k) k'.
Proof.
  intros Hd Hw. unfold weight_of in *. rewrite upsert_key_lookup.
  destruct (decide (k = k')); [|lia].
  destruct (tbl !! k') as [[w n]|]; simpl in *; lia.
Qed.

Lemma penalise_key_down tbl k k' :
  -1000 <= weight_of tbl k' -> weight_of (penalise_key tbl k) k' <= weight_of tbl k'.
Proof.
  intros Hw. unfold penalise_key, weight_of in *. rewrite upsert_excluded_lookup.
  destruct (decide (_ = k')); [|lia].
  destruct (tbl !! k') as [[w n]|]; simpl in *; lia.
Qed.

Lemma fold_upsert_bounds delta keys tbl :
  -1000 <= delta <= 1000 -> in_bounds tbl ->
  in_bounds (fold_left (upsert_key delta) keys tbl).
Proof.
  intros Hd. revert tbl. induction keys as [|a keys IH]; intros tbl Hb; simpl; [exact Hb|].
  apply IH, upsert_key_bounds; assumption.
Qed.

Lemma fold_upsert_down delta keys tbl k :
  -1000 <= delta <= 0 -> in_bounds tbl ->
  weight_of (fold_left (upsert_key delta) keys tbl) k <= weight_of tbl k.
Proof.
  intros Hd. revert tbl. induction keys as [|a keys IH]; intros tbl Hb; simpl; [lia|].
  etransitivity; [apply IH, upsert_key_bounds; [lia|exact Hb]|].
  apply upsert_key_down; [lia|apply Hb].
Qed.

Lemma fold_upsert_up delta keys tbl k :
  0 <= delta <= 1000 -> in_bounds tbl ->
  weight_of tbl k <= weight_of (fold_left (upsert_key delta) keys tbl) k.
Proof.
  intros Hd. revert tbl. induction keys as [|a keys IH]; intros tbl Hb; simpl; [lia|].
  etransitivity; [|apply IH, upsert_key_bounds; [lia|exact Hb]].
  apply upsert_key_up; [lia|apply Hb].
Qed.

Lemma fold_penalise_down keys tbl k :
  in_bounds tbl -> weight_of (fold_left penalise_key keys tbl) k <= weight_of tbl k.
Proof.
  revert tbl. induction keys as [|a keys IH]; intros tbl Hb; simpl; [lia|].
  etransitivity; [apply IH, penalise_key_bounds; exact Hb|].
  apply penalise_key_down, Hb.
Qed.

(** X15.  On a table within bounds a rating moves no weight against its
    sign: after [neutral], [disliked] or [hated] no weight is higher than
    before; after [neutral], [liked] or [loved] no weight is lower, the
    excluded names apart; and a [neutral] rating without exclusions leaves
    every weight as it was. *)
Theorem rating_moves_weights_one_way (recipes : recipes_table) (NEW : ratings_row)
  (tbl : weights_table) (k : string * feature_type * string) :
  in_bounds tbl ->
  (weight_delta_of (rating NEW) <= 0 ->
   weight_of (on_rating_insert recipes tbl NEW) k <= weight_of tbl k) /\
  (0 <= weight_delta_of (rating NEW) -> k ∉ excluded_keys NEW ->
   weight_of tbl k <= weight_of (on_rating_insert recipes tbl NEW) k) /\
  (rating NEW = neutral -> excluded_ingredients NEW = [] ->
   weight_of (on_rating_insert recipes tbl NEW) k = weight_of tbl k).
Proof.
  intros Hb. pose proof (weight_delta_small (rating NEW)) as Hsmall.
  assert (Hdown : weight_delta_of (rating NEW) <= 0 ->
                  weight_of (on_rating_insert recipes tbl NEW) k <= weight_of tbl k).
  { intros Hd. unfold on_rating_insert.
    destruct (update_preference_weights recipes NEW tbl) as [tbl'|] eqn:Ht; simpl; [|lia].
    apply trigger_folds in Ht as [-> _].
    etransitivity; [apply fold_penalise_down, fold_upsert_bounds; [lia|exact Hb]|].
    apply fold_upsert_down; [lia|exact Hb]. }
  assert (Hup : 0 <= weight_delta_of (rating NEW) -> k ∉ excluded_keys NEW ->
                weight_of tbl k <= weight_of (on_rating_insert recipes tbl NEW) k).
  { intros Hd Hk. unfold on_rating_insert.
    destruct (update_preference_weights recipes NEW tbl) as [tbl'|] eqn:Ht; simpl; [|lia].
    apply trigger_folds in Ht as [-> _].
    unfold weight_of at 2. unfold excluded_keys in *.
    rewrite fold_penalise_other by exact Hk.
    apply (fold_upsert_up (weight_delta_of (rating NEW))); [lia|exact Hb]. }
  split; [exact Hdown|]. split; [exact Hup|].
  intros Hr He. apply Z.le_antisymm.
  - apply Hdown. rewrite Hr. simpl. lia.
  - apply Hup; [rewrite Hr; simpl; lia|].
    unfold excluded_keys. rewrite He. simpl. apply not_elem_of_nil.
Qed.

End RatingEvents.

(** ** Extraction followed by a rating *)

Section ExtractThenRate.

Import Spec Features Store.
Context {rt : StringRuntime}.

Lemma keyIngredients_nonempty ingredients i :
  i ∈ ingredients -> (2 < Js.length (normalizeIngredient (ingredient i)))%nat ->
  keyIngredientsOf ingredients <> [].
Proof.
  intros Hi Hlen. unfold keyIngredientsOf.
  assert (Hin : normalizeIngredient (ingredient i)
                ∈ List.filter (fun i => (2 <? Js.length i)%nat)
                    (map (fun i => normalizeIngredient (ingredient i)) ingredients)).
  { apply list_elem_of_In, filter_In. split.
    - apply in_map_iff. exists i. split; [reflexivity|apply list_elem_of_In; exact Hi].
    - apply Nat.ltb_lt. exact Hlen. }
  destruct (List.filter _ _) as [|x xs]; [inversion Hin|]. simpl. discriminate.
Qed.

(** X16.  A recipe whose stored features are those [extractFeatures]
    gives for an ingredient list with a name longer than two characters
    once normalised carries the name [ingredients], which is no label of
    the enum: the trigger raises on every rating of it, and no rating of
    the recipe changes the table. *)
Theorem extracted_recipe_cannot_be_rated (ingredients : list Ingredient)
  (recipeName : string) (prepTime cookTime : option Z) (i : Ingredient)
  (recipes : Schema.recipes_table) (stored : list (string * Schema.jsonb))
  (NEW : Schema.ratings_row) (tbl : Schema.weights_table) :
  i ∈ ingredients -> (2 < Js.length (normalizeIngredient (ingredient i)))%nat ->
  recipes !! Schema.recipe_id NEW = Some stored ->
  stored ≡ₚ stored_features (extractFeatures ingredients recipeName prepTime cookTime) ->
  Schema.update_preference_weights recipes NEW tbl = None /\
  Schema.on_rating_insert recipes tbl NEW = tbl.
Proof.
  intros Hi Hlen Hstored Hperm.
  assert (Hraise : Schema.update_preference_weights recipes NEW tbl = None).
  { apply trigger_raises. rewrite Hstored. simpl.
    pose proof (extractFeatures_ingredients ingredients recipeName prepTime cookTime) as Hg.
    pose proof (keyIngredients_nonempty ingredients i Hi Hlen) as Hne.
    destruct (keyIngredientsOf ingredients) as [|k ks]; [congruence|].
    apply get_elem_of in Hg.
    exists ("ingredients", Schema.JArray (k :: ks)). split; [|reflexivity].
    rewrite Hperm. unfold stored_features. apply list_elem_of_fmap.
    exists ("ingredients", FArray (k :: ks)). split; [reflexivity|exact Hg]. }
  split; [exact Hraise|]. unfold Schema.on_rating_insert. rewrite Hraise. reflexivity.
Qed.

End ExtractThenRate.

(** ** The scorers on the stored table *)

Section StoredWeights.

Import Spec Recommendation Store SqlFunctions.

Lemma label_inj a b : feature_type_label a = feature_type_label b -> a = b.
Proof. destruct a, b; simpl; intros Heq; try reflexivity; discriminate. Qed.

Lemma label_colon_free ft : colon_free (feature_type_label ft) = true.
Proof. destruct ft; reflexivity. Qed.

Lemma cast_label ft : Schema.cast_feature_type (feature_type_label ft) = Some ft.
Proof. destruct ft; reflexivity. Qed.

Lemma cast_is_label s ft :
  Schema.cast_feature_type s = Some ft -> s = feature_type_label ft.
Proof.
  unfold Schema.cast_feature_type.
  repeat match goal with
         | |- context [String.eqb s ?l] =>
             destruct (String.eqb_spec s l) as [->|_]; [intros [= <-]; reflexivity|]
         end.
  discriminate.
Qed.

Lemma rows_of_elem tbl w :
  w ∈ rows_of tbl <-> exists k v, tbl !! k = Some v /\ w = row_of k v.
Proof.
  unfold rows_of. split.
  - intros Hin. apply list_elem_of_fmap in Hin as ([k v] & -> & Hin).
    apply elem_of_map_to_list in Hin. exists k, v. split; [exact Hin|reflexivity].
  - intros (k & v & Hk & ->). apply list_elem_of_fmap. exists (k, v).
    split; [reflexivity|apply elem_of_map_to_list; exact Hk].
Qed.

Lemma rows_of_NoDup tbl : NoDup (map full_key (rows_of tbl)).
Proof.
  unfold rows_of. rewrite map_map.
  assert (Heq : map (fun kv => full_key (row_of (fst kv) (snd kv))) (map_to_list tbl)
                = map (fun k : string * Schema.feature_type * string =>
                         (fst (fst k), feature_type_label (snd (fst k)), snd k))
                      (map fst (map_to_list tbl))).
  { rewrite map_map. reflexivity. }
  rewrite Heq. apply NoDup_fmap_2; [|apply NoDup_fst_map_to_list].
  intros [[p t] v] [[p' t'] v']. simpl. intros [= -> Ht ->].
  apply label_inj in Ht as ->. reflexivity.
Qed.

Lemma profile_rows_unique tbl pid : unique_keys (profile_rows tbl pid).
Proof.
  split.
  - unfold profile_rows. pose proof (rows_of_NoDup tbl) as Hnd.
    induction (rows_of tbl) as [|w ws IH]; simpl; [constructor|].
    simpl in Hnd. apply NoDup_cons in Hnd as [Hw Hnd].
    destruct (String.eqb_spec (profile_id w) pid) as [Hp|Hp]; [|apply IH; exact Hnd].
    simpl. apply NoDup_cons. split; [|apply IH; exact Hnd].
    intros Hin. apply Hw. apply list_elem_of_fmap in Hin as (y & Hy & Hyin).
    apply list_elem_of_In, filter_In in Hyin as [Hyin Hyp]. apply String.eqb_eq in Hyp.
    apply list_elem_of_fmap. exists y. split; [|apply list_elem_of_In; exact Hyin].
    unfold full_key. injection Hy as Ht Hv. congruence.
  - apply Forall_forall. intros w Hw. apply list_elem_of_In, filter_In in Hw as [Hw _].
    apply list_elem_of_In, rows_of_elem in Hw as (k & v & _ & ->). apply label_colon_free.
Qed.

Lemma sumZ_indicator_present ws w :
  NoDup (map pair_key ws) -> w ∈ ws -> sumZ (indicator (pair_key w)) ws = weight w.
Proof.
  induction ws as [|a ws IH]; intros Hnd Hin; [inversion Hin|].
  simpl in Hnd. apply NoDup_cons in Hnd as [Ha Hnd]. simpl.
  apply elem_of_cons in Hin as [->|Hin].
  - rewrite (indicator_absent _ _ Ha). unfold indicator.
    destruct (decide (pair_key a = pair_key a)); [lia|congruence].
  - rewrite (IH Hnd Hin). unfold indicator at 1.
    destruct (decide (pair_key a = pair_key w)) as [Heq|]; [|lia].
    exfalso. apply Ha. rewrite Heq. apply list_elem_of_fmap.
    exists w. split; [reflexivity|exact Hin].
Qed.

(** The weight map built from the rows of a profile holds, under the
    key of a label and a value, the stored weight. *)
Lemma lookup_stored tbl pid ft v :
  lookup0 (buildWeightMap (profile_rows tbl pid)) (weight_key (feature_type_label ft) v)
  = Schema.weight_of tbl (pid, ft, v).
Proof.
  rewrite weightMap_lookup; [|apply label_colon_free|apply profile_rows_unique].
  unfold Schema.weight_of.
  destruct (tbl !! (pid, ft, v)) as [[w n]|] eqn:Hk.
  - assert (Hin : row_of (pid, ft, v) (w, n) ∈ profile_rows tbl pid).
    { apply list_elem_of_In, filter_In. split.
      - apply list_elem_of_In, rows_of_elem. exists (pid, ft, v), (w, n).
        split; [exact Hk|reflexivity].
      - apply String.eqb_refl. }
    change (feature_type_label ft, v) with (pair_key (row_of (pid, ft, v) (w, n))).
    rewrite sumZ_indicator_present; [reflexivity|apply profile_rows_unique|exact Hin].
  - apply indicator_absent. intros Hin. apply list_elem_of_fmap in Hin as (y & Hy & Hyin).
    apply list_elem_of_In, filter_In in Hyin as [Hyin Hp]. apply String.eqb_eq in Hp.
    apply list_elem_of_In, rows_of_elem in Hyin as ([[p t] x] & [w n] & Hk' & ->).
    unfold pair_key in Hy. simpl in Hy, Hp. injection Hy as Ht Hx.
    apply label_inj in Ht. subst. congruence.
Qed.

Lemma lookup_unlabelled tbl pid t v :
  colon_free t = true -> Schema.cast_feature_type t = None ->
  lookup0 (buildWeightMap (profile_rows tbl pid)) (weight_key t v) = 0.
Proof.
  intros Hcf Hc. rewrite weightMap_lookup; [|exact Hcf|apply profile_rows_unique].
  apply indicator_absent. intros Hin. apply list_elem_of_fmap in Hin as (y & Hy & Hyin).
  apply list_elem_of_In, filter_In in Hyin as [Hyin _].
  apply list_elem_of_In, rows_of_elem in Hyin as (k & x & _ & ->).
  unfold pair_key in Hy. simpl in Hy. injection Hy as Ht _.
  rewrite Ht, cast_label in Hc. discriminate.
Qed.

Lemma calculateScore_table tbl pid f :
  Forall (fun e => colon_free (fst e) = true) f ->
  calculateScore f (profile_rows tbl pid) = sumZ (Schema.weight_of tbl) (ts_keys pid f).
Proof.
  intros Hcf. rewrite calculateScore_pairs. unfold feature_pairs, ts_keys.
  induction f as [|[t fv] f IH]; [reflexivity|].
  apply Forall_cons in Hcf as [Ht Hcf]. cbn [flat_map fst snd].
  rewrite !sumZ_app, (IH Hcf). f_equal. simpl in Ht.
  destruct (Schema.cast_feature_type t) as [ft|] eqn:Hc.
  - apply cast_is_label in Hc as ->. destruct fv as [|s|vs].
    + reflexivity.
    + simpl. rewrite lookup_stored. reflexivity.
    + rewrite !sumZ_map. apply sumZ_ext. intros v _. simpl. apply lookup_stored.
  - destruct fv as [|s|vs].
    + reflexivity.
    + simpl. rewrite lookup_unlabelled by assumption. reflexivity.
    + rewrite sumZ_map. rewrite (sumZ_ext _ (fun _ => 0)); [apply sumZ_zero|].
      intros v _. simpl. apply lookup_unlabelled; assumption.
Qed.

Lemma select_weight_stored db tbl pid ft v :
  preference_weights db = rows_of tbl ->
  select_weight db pid (feature_type_label ft) v = Some (fst <$> tbl !! (pid, ft, v)).
Proof.
  intros Hdb. unfold select_weight. rewrite cast_label. cbn [mbind option_bind].
  f_equal. rewrite Hdb.
  destruct (find _ (rows_of tbl)) as [w|] eqn:Hf.
  - apply find_some in Hf as [Hin Hp].
    apply list_elem_of_In, rows_of_elem in Hin as ([[p t] x] & [w' n] & Hk & ->).
    simpl in Hp. apply andb_true_iff in Hp as [Hp Hx]. apply andb_true_iff in Hp as [Hp Ht].
    apply String.eqb_eq in Hp. apply String.eqb_eq in Ht. apply String.eqb_eq in Hx.
    apply label_inj in Ht. subst. rewrite Hk. reflexivity.
  - destruct (tbl !! (pid, ft, v)) as [[w n]|] eqn:Hk; [|reflexivity].
    exfalso. pose proof (find_none _ _ Hf (row_of (pid, ft, v) (w, n))) as Hn.
    simpl in Hn. rewrite !String.eqb_refl in Hn. simpl in Hn.
    assert (true = false); [|discriminate]. apply Hn.
    apply list_elem_of_In, rows_of_elem. exists (pid, ft, v), (w, n).
    split; [exact Hk|reflexivity].
Qed.

Lemma add_user_weight_stored db tbl pid ft total v :
  preference_weights db = rows_of tbl ->
  add_user_weight db pid (feature_type_label ft) (Some total) v
  = Some (total + Schema.weight_of tbl (pid, ft, v)).
Proof.
  intros Hdb. unfold add_user_weight. cbn [mbind option_bind].
  rewrite (select_weight_stored _ _ _ _ _ Hdb). cbn [mbind option_bind].
  unfold Schema.weight_of. destruct (tbl !! (pid, ft, v)) as [[w n]|]; simpl; f_equal; lia.
Qed.

Lemma add_user_weight_fold db tbl pid ft elems total :
  preference_weights db = rows_of tbl ->
  fold_left (add_user_weight db pid (feature_type_label ft)) elems (Some total)
  = Some (total + sumZ (Schema.weight_of tbl) (map (fun e => (pid, ft, e)) elems)).
Proof.
  intros Hdb. revert total. induction elems as [|e elems IH]; intros total; cbn [fold_left].
  - simpl. f_equal. lia.
  - rewrite (add_user_weight_stored _ _ _ _ _ _ Hdb), IH. simpl. f_equal. lia.
Qed.

Lemma score_entries_stored db tbl pid f total :
  preference_weights db = rows_of tbl ->
  Forall (fun e => is_Some (Schema.cast_feature_type (fst e))) f ->
  fold_left (score_entry db pid) f (Some total)
  = Some (total + sumZ (Schema.weight_of tbl) (feature_keys pid (stored_features f))).
Proof.
  intros Hdb Hl. revert total. induction f as [|[t fv] f IH]; intros total; cbn [fold_left].
  - simpl. f_equal. lia.
  - apply Forall_cons in Hl as [[ft Ht] Hl]. simpl in Ht.
    unfold feature_keys, stored_features. cbn [map flat_map fst snd].
    fold (stored_features f). fold (feature_keys pid (stored_features f)).
    rewrite Ht, sumZ_app. apply cast_is_label in Ht as ->.
    unfold score_entry at 2. cbn [fst snd].
    destruct fv as [|s|vs]; cbn [to_jsonb].
    + rewrite (add_user_weight_stored _ _ _ _ _ _ Hdb), (IH Hl). simpl. f_equal. lia.
    + rewrite (add_user_weight_stored _ _ _ _ _ _ Hdb), (IH Hl). simpl. f_equal. lia.
    + rewrite (add_user_weight_fold _ _ _ _ _ _ Hdb), (IH Hl). f_equal. lia.
Qed.

(** X17.  Both scorers sum stored weights of the profile, one per
    feature value, and they read different keys.  [calculateScore], on the
    rows of the profile, reads the key of each array member and of each
    scalar as it stands; [calculate_recipe_score] reads the keys the
    trigger writes: the array members, and each scalar under its JSON text,
    quotes included. *)
Theorem scorers_read_the_table (db : Database) (tbl : Schema.weights_table)
  (pid rid : string) (r : Recipe) :
  preference_weights db = rows_of tbl ->
  find (fun r' => String.eqb (recipe_id_of r') rid) (recipes db) = Some r ->
  Forall (fun e => is_Some (Schema.cast_feature_type (fst e))) (features r) ->
  calculateScore (features r) (profile_rows tbl pid)
  = sumZ (Schema.weight_of tbl) (ts_keys pid (features r)) /\
  calculate_recipe_score db pid rid
  = Some (sumZ (Schema.weight_of tbl) (feature_keys pid (stored_features (features r)))).
Proof.
  intros Hdb Hfind Hl. split.
  - apply calculateScore_table. eapply Forall_impl; [exact Hl|].
    intros e [ft He]. apply cast_is_label in He as ->. apply label_colon_free.
  - unfold calculate_recipe_score. rewrite Hfind.
    rewrite (score_entries_stored db tbl pid (features r) 0 Hdb Hl). f_equal.
Qed.

End StoredWeights.

(** ** A first rating, then the scores *)

Section LearningLoop.

Import Spec Recommendation Store SqlFunctions.

Lemma string_length_app (a b : string) :
  String.length (a +:+ b) = (String.length a + String.length b)%nat.
Proof. induction a as [|c a IH]; simpl; [reflexivity|]. rewrite IH. reflexivity. Qed.

Lemma json_escape_length s : (String.length s <= String.length (Schema.json_escape s))%nat.
Proof.
  induction s as [|c s IH]; simpl; [lia|].
  destruct (Ascii.eqb c (ascii_of_nat 34)); [|destruct (Ascii.eqb c (ascii_of_nat 92))].
  - rewrite !string_length_app. simpl. lia.
  - rewrite !string_length_app. simpl. lia.
  - simpl. lia.
Qed.

(** The JSON text of a string is never the string. *)
Lemma quoted_differs s : Schema.jsonb_text (Schema.JString s) <> s.
Proof.
  intros Heq. apply (f_equal String.length) in Heq. simpl in Heq.
  rewrite !string_length_app in Heq. pose proof (json_escape_length s). simpl in Heq. lia.
Qed.

Lemma flat_map_perm {A B} (g : A -> list B) (l l' : list A) :
  l ≡ₚ l' -> flat_map g l ≡ₚ flat_map g l'.
Proof.
  induction 1 as [|x l l' _ IH|x y l|l l' l'' _ IH1 _ IH2]; simpl.
  - reflexivity.
  - rewrite IH. reflexivity.
  - rewrite !app_assoc. apply Permutation_app_tail, Permutation_app_comm.
  - etransitivity; eassumption.
Qed.

Lemma feature_keys_elem pid fs k :
  k ∈ feature_keys pid fs <->
  exists e, e ∈ fs /\ fst (fst k) = pid /\
            Schema.cast_feature_type (fst e) = Some (snd (fst k)) /\
            match snd e with
            | Schema.JArray elems => snd k ∈ elems
            | v => snd k = Schema.jsonb_text v
            end.
Proof.
  unfold feature_keys. split.
  - intros Hk. apply list_elem_of_In, in_flat_map in Hk as (e & He & Hk).
    exists e. split; [apply list_elem_of_In; exact He|].
    destruct (Schema.cast_feature_type (fst e)) as [ft|]; [|destruct Hk].
    destruct (snd e) as [|s|elems].
    + destruct Hk as [<-|[]]. repeat split.
    + destruct Hk as [<-|[]]. repeat split.
    + apply in_map_iff in Hk as (x & <- & Hx). repeat split.
      apply list_elem_of_In. exact Hx.
  - intros (e & He & Hp & Hc & Hv). apply list_elem_of_In, in_flat_map.
    exists e. split; [apply list_elem_of_In; exact He|]. rewrite Hc.
    destruct k as [[p t] v]. simpl in *. subst p.
    destruct (snd e) as [|s|elems].
    + left. congruence.
    + left. congruence.
    + apply in_map_iff. exists v. split; [reflexivity|apply list_elem_of_In; exact Hv].
Qed.

Lemma stored_features_elem f e :
  e ∈ stored_features f <-> exists e', e' ∈ f /\ e = (fst e', to_jsonb (snd e')).
Proof.
  unfold stored_features. split.
  - intros He. apply list_elem_of_fmap in He as (e' & -> & He'). exists e'. split; [exact He'|reflexivity].
  - intros (e' & He' & ->). apply list_elem_of_fmap. exists e'. split; [reflexivity|exact He'].
Qed.

Lemma NoDup_fst_eq {A B} (l : list (A * B)) (x y : A * B) :
  NoDup (map fst l) -> x ∈ l -> y ∈ l -> fst x = fst y -> x = y.
Proof.
  induction l as [|a l IH]; intros Hnd Hx Hy Heq; [inversion Hx|].
  simpl in Hnd. apply NoDup_cons in Hnd as [Ha Hnd].
  apply elem_of_cons in Hx as [->|Hx]; apply elem_of_cons in Hy as [->|Hy].
  - reflexivity.
  - exfalso. apply Ha. rewrite Heq. apply list_elem_of_fmap. exists y. split; [reflexivity|exact Hy].
  - exfalso. apply Ha. rewrite <- Heq. apply list_elem_of_fmap. exists x. split; [reflexivity|exact Hx].
  - apply IH; assumption.
Qed.

Lemma feature_keys_NoDup pid f :
  NoDup (map fst f) ->
  Forall (fun e => match snd e with FArray vs => NoDup vs | _ => True end) f ->
  NoDup (feature_keys pid (stored_features f)).
Proof.
  induction f as [|[t fv] f IH]; intros Hnd Hv; [constructor|].
  simpl in Hnd. apply NoDup_cons in Hnd as [Ht Hnd]. apply Forall_cons in Hv as [Hfv Hv].
  unfold feature_keys, stored_features. cbn [map flat_map fst snd].
  fold (stored_features f). fold (feature_keys pid (stored_features f)).
  apply NoDup_app. split; [|split; [|apply IH; assumption]].
  - destruct (Schema.cast_feature_type t) as [ft|]; [|constructor].
    destruct fv as [|s|vs]; cbn [to_jsonb].
    + apply NoDup_singleton.
    + apply NoDup_singleton.
    + simpl in Hfv. apply NoDup_fmap_2; [|exact Hfv]. intros x y [=]. assumption.
  - intros k Hk Hk'. apply feature_keys_elem in Hk' as (e & He & _ & Hc & _).
    apply stored_features_elem in He as (e' & He' & ->). simpl in Hc.
    destruct (Schema.cast_feature_type t) as [ft|] eqn:Hct; [|inversion Hk].
    assert (Hft : snd (fst k) = ft).
    { destruct (to_jsonb fv) as [|s|elems].
      - apply list_elem_of_singleton in Hk as ->. reflexivity.
      - apply list_elem_of_singleton in Hk as ->. reflexivity.
      - apply list_elem_of_fmap in Hk as (x & -> & _). reflexivity. }
    rewrite Hft in Hc. apply cast_is_label in Hc. apply cast_is_label in Hct.
    apply Ht. rewrite Hct, <- Hc. apply list_elem_of_fmap.
    exists e'. split; [reflexivity|exact He'].
Qed.

Lemma sumZ_const {A} (g : A -> Z) (c : Z) (l : list A) :
  (forall x, x ∈ l -> g x = c) -> sumZ g l = c * Z.of_nat (length l).
Proof.
  induction l as [|a l IH]; intros Hc; [simpl; lia|].
  cbn [sumZ fold_right length]. fold (sumZ g l).
  rewrite (Hc a) by left. rewrite IH by (intros x Hx; apply Hc; right; exact Hx). lia.
Qed.

(** X18.  A profile without rows rates, without exclusions, a recipe
    whose feature names are labels of the enum, each once, and whose arrays
    list their members once: the trigger completes; [calculateScore] of
    that recipe on the new rows is the delta times the number of array
    members, since the weights of the scalar features lie under quoted
    values it never looks up; [calculate_recipe_score] gives the delta
    times the number of all the keys written. *)
Theorem first_rating_then_scores (f : RecipeFeatures)
  (stored : list (string * Schema.jsonb)) (stored_recipes : Schema.recipes_table)
  (NEW : Schema.ratings_row) (tbl : Schema.weights_table) :
  stored_recipes !! Schema.recipe_id NEW = Some stored ->
  stored ≡ₚ stored_features f ->
  NoDup (map fst f) ->
  Forall (fun e => is_Some (Schema.cast_feature_type (fst e)) /\
                   match snd e with FArray vs => NoDup vs | _ => True end) f ->
  (forall ft v, tbl !! (Schema.profile_id NEW, ft, v) = None) ->
  Schema.excluded_ingredients NEW = [] ->
  exists tbl',
    Schema.update_preference_weights stored_recipes NEW tbl = Some tbl' /\
    calculateScore f (profile_rows tbl' (Schema.profile_id NEW))
    = Schema.weight_delta_of (Schema.rating NEW) * Z.of_nat (length (array_members f)) /\
    forall db rid r,
      preference_weights db = rows_of tbl' ->
      find (fun r' => String.eqb (recipe_id_of r') rid) (recipes db) = Some r ->
      features r = f ->
      calculate_recipe_score db (Schema.profile_id NEW) rid
      = Some (Schema.weight_delta_of (Schema.rating NEW)
              * Z.of_nat (length (feature_keys (Schema.profile_id NEW)
                                               (stored_features f)))).
Proof.
  intros Hstored Hperm Hnames Hf Hfresh Hexcl.
  set (pid := Schema.profile_id NEW). set (delta := Schema.weight_delta_of (Schema.rating NEW)).
  assert (Hlabels : Forall (fun e => is_Some (Schema.cast_feature_type (fst e))) f).
  { eapply Forall_impl; [exact Hf|]. intros e [He _]. exact He. }
  assert (Harrays : Forall (fun e => match snd e with FArray vs => NoDup vs | _ => True end) f).
  { eapply Forall_impl; [exact Hf|]. intros e [_ He]. exact He. }
  destruct (Schema.update_preference_weights stored_recipes NEW tbl) as [tbl'|] eqn:Ht.
  2:{ exfalso. apply trigger_raises in Ht as (e & He & Hu). rewrite Hstored in He.
      simpl in He. rewrite Hperm in He. apply stored_features_elem in He as (e' & He' & ->).
      rewrite Forall_forall in Hlabels. destruct (Hlabels e' He') as [ft Hc].
      unfold unknown_name in Hu. simpl in Hu. rewrite Hc in Hu. discriminate. }
  exists tbl'. split; [reflexivity|].
  apply trigger_folds in Ht as [Htbl _]. rewrite Hstored in Htbl. simpl in Htbl.
  unfold excluded_keys in Htbl. rewrite Hexcl in Htbl. simpl in Htbl.
  fold pid delta in Htbl.
  assert (Hkeys : feature_keys pid stored ≡ₚ feature_keys pid (stored_features f)).
  { unfold feature_keys. apply flat_map_perm. exact Hperm. }
  assert (Hnd : NoDup (feature_keys pid stored)).
  { rewrite Hkeys. apply feature_keys_NoDup; assumption. }
  assert (Hwritten : forall k, k ∈ feature_keys pid (stored_features f) ->
                               Schema.weight_of tbl' k = delta).
  { intros k Hk. unfold Schema.weight_of. rewrite Htbl.
    rewrite fold_upsert_once; [|exact Hnd|rewrite Hkeys; exact Hk].
    apply feature_keys_elem in Hk as (_ & _ & Hp & _).
    destruct k as [[p t] v]. simpl in Hp. subst p. unfold pid. rewrite Hfresh. reflexivity. }
  assert (Hother : forall ft v, (pid, ft, v) ∉ feature_keys pid (stored_features f) ->
                                Schema.weight_of tbl' (pid, ft, v) = 0).
  { intros ft v Hk. unfold Schema.weight_of. rewrite Htbl.
    rewrite fold_upsert_other by (rewrite Hkeys; exact Hk).
    unfold pid. rewrite Hfresh. reflexivity. }
  split.
  - rewrite calculateScore_table.
    2:{ eapply Forall_impl; [exact Hlabels|]. intros e [ft He].
        apply cast_is_label in He as ->. apply label_colon_free. }
    assert (Hgen : forall g, (forall e, e ∈ g -> e ∈ f) ->
              sumZ (Schema.weight_of tbl') (ts_keys pid g)
              = delta * Z.of_nat (length (array_members g))).
    { induction g as [|[t fv] g IH]; intros Hsub; [simpl; lia|].
      unfold ts_keys, array_members. cbn [flat_map fst snd].
      fold (ts_keys pid g). fold (array_members g).
      rewrite sumZ_app, length_app, IH by (intros e He; apply Hsub; right; exact He).
      assert (Hin : (t, fv) ∈ f) by (apply Hsub; left).
      rewrite Forall_forall in Hlabels. destruct (Hlabels _ Hin) as [ft Hc]. simpl in Hc.
      rewrite Hc. destruct fv as [|s|vs].
      - simpl. lia.
      - simpl. rewrite Hother; [lia|].
        intros Hk. apply feature_keys_elem in Hk as (e & He & _ & Hc' & Hv).
        apply stored_features_elem in He as (e' & He' & ->). simpl in Hc', Hv.
        assert (Heq : e' = (t, FScalar s)).
        { apply (NoDup_fst_eq f); try assumption. simpl.
          apply cast_is_label in Hc. apply cast_is_label in Hc'. congruence. }
        subst e'. simpl in Hv. symmetry in Hv. revert Hv. apply quoted_differs.
      - rewrite (sumZ_const _ delta).
        + rewrite length_map. lia.
        + intros k Hk. apply Hwritten. apply list_elem_of_fmap in Hk as (v & -> & Hv).
          apply feature_keys_elem. exists (t, Schema.JArray vs).
          split; [|repeat split; assumption].
          apply stored_features_elem. exists (t, FArray vs). split; [exact Hin|reflexivity]. }
    apply Hgen. intros e He. exact He.
  - intros db rid r Hdb Hfind Hfr. subst f.
    unfold calculate_recipe_score. rewrite Hfind.
    rewrite (score_entries_stored db tbl' pid (features r) 0 Hdb Hlabels).
    rewrite (sumZ_const _ delta) by exact Hwritten. f_equal.
Qed.

End LearningLoop.

(** ** What a family suggestion reports *)

Section FamilyReport.

Import Recommendation Spec.

Lemma scoreFamily_keeps f wbp profs acc n :
  n ∉ map display_name profs ->
  fst (fold_left (scoreMember f wbp) profs acc) !! n = fst acc !! n.
Proof.
  revert acc. induction profs as [|p profs IH]; intros acc Hn; simpl; [reflexivity|].
  simpl in Hn. apply not_elem_of_cons in Hn as [Hne Hn].
  rewrite (IH _ Hn). simpl. apply lookup_insert_ne. congruence.
Qed.

Lemma scoreFamily_member f wbp profs acc p :
  NoDup (map display_name profs) -> p ∈ profs ->
  fst (fold_left (scoreMember f wbp) profs acc) !! display_name p
  = Some (Js.round2 (calculateScore f (default [] (wbp !! id p)))).
Proof.
  revert acc. induction profs as [|q profs IH]; intros acc Hnd Hp; [inversion Hp|].
  simpl in Hnd. apply NoDup_cons in Hnd as [Hq Hnd]. simpl.
  apply elem_of_cons in Hp as [->|Hp].
  - rewrite (scoreFamily_keeps _ _ _ _ _ Hq). simpl. apply lookup_insert_eq.
  - apply IH; assumption.
Qed.


End FamilyReport.

(** ** Ties in the rankings *)

Section Stability.

Context {A : Type} (cmp : A -> A -> Z).

(** An element is inserted before the elements it does not have to
    follow: it passes none of those it may stand before. *)
Lemma sort_insert_filter (P : A -> bool) x l :
  (P x = true -> forall y, y ∈ l -> P y = true -> cmp x y <= 0) ->
  List.filter P (Js.sort_insert cmp x l) = List.filter P (x :: l).
Proof.
  induction l as [|y l IH]; intros Hx; [reflexivity|].
  cbn [Js.sort_insert]. destruct (cmp x y <=? 0) eqn:Hxy; [reflexivity|].
  apply Z.leb_gt in Hxy. cbn [List.filter]. rewrite IH.
  - cbn [List.filter]. destruct (P x) eqn:Hpx, (P y) eqn:Hpy; try reflexivity.
    exfalso. assert (cmp x y <= 0) by (apply Hx; [reflexivity|left|exact Hpy]). lia.
  - intros Hpx z Hz Hpz. apply Hx; [exact Hpx|right; exact Hz|exact Hpz].
Qed.

Lemma sort_filter_stable (P : A -> bool) l :
  (forall x y, x ∈ l -> y ∈ l -> P x = true -> P y = true -> cmp x y <= 0) ->
  List.filter P (Js.sort cmp l) = List.filter P l.
Proof.
  induction l as [|a l IH]; intros H; [reflexivity|].
  cbn [Js.sort fold_right]. fold (Js.sort cmp l). rewrite sort_insert_filter.
  - cbn [List.filter]. rewrite IH; [reflexivity|].
    intros x y Hx Hy. apply H; right; assumption.
  - intros Hpa y Hy Hpy. apply sort_elem_of in Hy.
    apply H; [left|right; exact Hy|exact Hpa|exact Hpy].
Qed.

Lemma filter_firstn_prefix (P : A -> bool) n l :
  List.filter P (firstn n l) `prefix_of` List.filter P l.
Proof.
  revert n. induction l as [|a l IH]; intros [|n]; simpl; try apply prefix_nil.
  destruct (P a); [apply prefix_cons|]; apply IH.
Qed.

Lemma filter_map_comm {B} (P : A -> bool) (g : B -> A) (l : list B) :
  List.filter P (map g l) = map g (List.filter (fun x => P (g x)) l).
Proof.
  induction l as [|b l IH]; simpl; [reflexivity|].
  destruct (P (g b)); simpl; rewrite IH; reflexivity.
Qed.

End Stability.

Section Ties.

Import Recommendation Spec Suggestions.

(** X20.  Among the family suggestions with the same reported group
    score the order is that of the candidate pool, which is the order of
    the external rating: the suggestions reporting a given score are the
    first of the accepted candidates rounding to that score, in pool
    order. *)
Theorem family_ties_keep_pool_order (db : Database) (householdId : string) (limit : nat)
  (m : Z) :
  List.filter (fun e => match min_score e with
                        | Js.Num x => x =? m
                        | Js.Infinity => false
                        end)
              (getFamilySuggestions db householdId limit)
  `prefix_of`
  map (entryOf db (householdProfiles db householdId))
      (List.filter (fun r => match Js.round2_number
                                     (groupScore db (householdProfiles db householdId) r) with
                             | Js.Num x => x =? m
                             | Js.Infinity => false
                             end)
                   (accepted db (householdProfiles db householdId))).
Proof.
  destruct (householdProfiles db householdId) as [|p profs] eqn:Hp.
  - unfold getFamilySuggestions. rewrite Hp. apply prefix_nil.
  - rewrite <- Hp. rewrite getFamilySuggestions_unfold by congruence.
    etransitivity; [apply filter_firstn_prefix|].
    rewrite sort_filter_stable.
    + rewrite familyScoredOf_accepted, filter_map_comm. reflexivity.
    + intros x y _ _ Hx Hy. unfold min_score_cmp.
      destruct (min_score x) as [|a]; [discriminate|].
      destruct (min_score y) as [|b]; [discriminate|].
      apply Z.eqb_eq in Hx, Hy. lia.
Qed.


End Ties.

(** ** The size of a score *)

Section ScoreBound.

Import Recommendation Spec.

Lemma weightMap_value ws (m : gmap string Z) k v :
  fold_left (fun m w => <[weight_key (feature_type w) (feature_value w) := weight w]> m)
            ws m !! k = Some v ->
  (exists w, w ∈ ws /\ weight w = v) \/ m !! k = Some v.
Proof.
  revert m. induction ws as [|a ws IH]; intros m; simpl; intros H; [right; exact H|].
  destruct (IH _ H) as [(w & Hw & Hv)|Hm].
  - left. exists w. split; [right; exact Hw|exact Hv].
  - rewrite lookup_insert in Hm.
    destruct (decide (weight_key (feature_type a) (feature_value a) = k)).
    + left. exists a. split; [left|congruence].
    + right. exact Hm.
Qed.

(** X22.  With every weight of the list in [-1.0, 1.0], as the trigger
    keeps them, a score is at most the number of feature values of the
    recipe (scalars and array members) and at least minus that number. *)
Theorem score_bounded_by_feature_count (f : RecipeFeatures) (ws : list PreferenceWeight) :
  Forall (fun w => -1000 <= weight w <= 1000) ws ->
  - (1000 * Z.of_nat (length (feature_pairs f))) <= calculateScore f ws
  <= 1000 * Z.of_nat (length (feature_pairs f)).
Proof.
  intros Hb. rewrite calculateScore_pairs.
  assert (Hone : forall k, -1000 <= lookup0 (buildWeightMap ws) k <= 1000).
  { intros k. unfold lookup0, buildWeightMap.
    destruct (fold_left _ ws ∅ !! k) as [v|] eqn:Hk; simpl; [|lia].
    apply weightMap_value in Hk as [(w & Hw & <-)|Hk].
    - rewrite Forall_forall in Hb. apply Hb. exact Hw.
    - rewrite lookup_empty in Hk. discriminate. }
  induction (feature_pairs f) as [|p l IH]; simpl; [lia|].
  specialize (Hone (weight_key (fst p) (snd p))). lia.
Qed.

End ScoreBound.

(** ** The further properties on concrete inputs *)

Lemma carb_first_match_wins_witness :
  exists kw c,
    FScalar "pasta" = FScalar c /\
    FeaturesSpec.first_match (rt := Features.Latin1.runtime) Features.CARB_KEYWORDS
      (Features.allTextOf (rt := Features.Latin1.runtime)
         Samples.carbonara_ingredients Samples.carbonara_name) (kw, c).
Proof.
  apply (proj1 (proj1 (carb_first_match_wins (rt := Features.Latin1.runtime)
                         Samples.carbonara_ingredients Samples.carbonara_name None None)
                      (FScalar "pasta"))).
  vm_compute. reflexivity.
Defined.

Lemma protein_is_set_of_matches_witness :
  exists ps, FArray ["pork"; "egg"] = FArray ps /\ ps <> [] /\ NoDup ps /\
    forall p, p ∈ ps <->
              exists kw, (kw, p) ∈ Features.PROTEIN_KEYWORDS /\
                         Features.matches (rt := Features.Latin1.runtime)
                           (Features.allTextOf (rt := Features.Latin1.runtime)
                              Samples.carbonara_ingredients Samples.carbonara_name) kw
                         = true.
Proof.
  apply (proj1 (protein_is_set_of_matches (rt := Features.Latin1.runtime)
                  Samples.carbonara_ingredients Samples.carbonara_name None None)
               (FArray ["pork"; "egg"])).
  vm_compute. reflexivity.
Defined.

Lemma spice_level_precedence_witness :
  Js.get (Features.extractFeatures (rt := Features.Latin1.runtime)
            Samples.vindaloo_ingredients Samples.vindaloo_name None None) "spice_level"
  = Some (FScalar "hot").
Proof.
  apply (proj1 (spice_level_precedence (rt := Features.Latin1.runtime)
                  Samples.vindaloo_ingredients Samples.vindaloo_name None None)).
  exists "chili". split; [left|vm_compute; reflexivity].
Defined.


Lemma explanation_is_grounded_witness :
  exists shown,
    Explain.explainSuggestion Examples.salmon_features
      [Examples.mk_weight "lisa" "cuisine" "swedish" 500]
    = "You like " +:+ Explain.join ", " shown /\
    (0 < length shown <= 3)%nat.
Proof.
  destruct (proj2 (explanation_is_grounded Examples.salmon_features
                     [Examples.mk_weight "lisa" "cuisine" "swedish" 500]))
    as (shown & Heq & Hlen & _).
  - vm_compute. discriminate.
  - exists shown. split; assumption.
Defined.

Lemma exploration_picks_among_top_twenty_witness :
  Examples.pasta_recipe
    ∈ firstn 20 (Recommendation.order_by_external_rating
                   (Spec.unratedRecipes Samples.seasoned_db "lisa")) /\
  exists random', (0 <= random')%Q /\ (random' < 1)%Q /\
    Recommendation.getNextRecipeToRate Samples.seasoned_db "lisa" random'
    = Some Examples.fish_recipe.
Proof.
  assert (Hn : (20 <= length (Recommendation.profileRatings Samples.seasoned_db "lisa"))%nat)
    by (vm_compute; lia).
  assert (H0 : (0 <= 1 # 2)%Q) by (unfold Qle; simpl; lia).
  assert (H1 : (1 # 2 < 1)%Q) by (unfold Qlt; simpl; lia).
  destruct (exploration_picks_among_top_twenty Samples.seasoned_db "lisa" (1 # 2) Hn H0 H1)
    as (_ & Hin & Hall).
  split.
  - apply (Hin Examples.pasta_recipe). vm_compute. reflexivity.
  - apply Hall. vm_compute. left.
Defined.

Lemma rating_touches_only_its_keys_witness :
  Schema.on_rating_insert Examples.stored_recipes ∅
    (Examples.mk_rating "plain" Schema.loved ["lax"]) !! ("erik", Schema.protein, "salmon")
  = (∅ : Schema.weights_table) !! ("erik", Schema.protein, "salmon").
Proof.
  apply (proj1 (proj2 (rating_touches_only_its_keys Examples.stored_recipes
                         (Examples.mk_rating "plain" Schema.loved ["lax"]) ∅
                         ("erik", Schema.protein, "salmon")))).
  simpl. discriminate.
Defined.

Lemma rating_counts_samples_witness :
  exists tbl',
    Schema.update_preference_weights Examples.stored_recipes
      (Examples.mk_rating "salmon" Schema.liked ["lax"]) ∅ = Some tbl' /\
    Schema.sample_count_of tbl' Examples.lax_key = 2.
Proof.
  destruct (Schema.update_preference_weights Examples.stored_recipes
              (Examples.mk_rating "salmon" Schema.liked ["lax"]) ∅) as [tbl'|] eqn:Ht.
  - exists tbl'. split; [reflexivity|].
    destruct (rating_counts_samples _ _ _ _ Examples.lax_key Ht) as [Hc _].
    rewrite Hc. vm_compute. reflexivity.
  - exfalso.
    assert (Hsome : is_Some (Schema.update_preference_weights Examples.stored_recipes
                               (Examples.mk_rating "salmon" Schema.liked ["lax"]) ∅))
      by by_decide.
    rewrite Ht in Hsome. destruct Hsome as [? [=]].
Defined.

Lemma rating_raises_iff_unknown_name_witness :
  Schema.on_rating_insert Samples.seed_recipes ∅
    (Examples.mk_rating "meatballs" Schema.loved []) = ∅.
Proof.
  destruct (rating_raises_iff_unknown_name Samples.seed_recipes
              (Examples.mk_rating "meatballs" Schema.loved []) ∅) as [Hiff Hroll].
  apply Hroll, Hiff.
  exists ("ingredients", Schema.JArray ["blandfärs"; "ägg"; "grädde"; "lök"; "ströbröd"]).
  split; [|reflexivity]. vm_compute. do 4 right. left.
Defined.

Lemma rating_moves_weights_one_way_witness :
  Schema.weight_of (Schema.on_rating_insert Examples.stored_recipes ∅
                      (Examples.mk_rating "plain" Schema.neutral []))
                   ("lisa", Schema.protein, "salmon")
  = Schema.weight_of ∅ ("lisa", Schema.protein, "salmon").
Proof.
  assert (Hb : Spec.in_bounds ∅).
  { intros k. unfold Schema.weight_of. rewrite lookup_empty. lia. }
  apply (proj2 (proj2 (rating_moves_weights_one_way Examples.stored_recipes
                         (Examples.mk_rating "plain" Schema.neutral []) ∅
                         ("lisa", Schema.protein, "salmon") Hb))); reflexivity.
Defined.

Lemma extracted_recipe_cannot_be_rated_witness :
  Schema.update_preference_weights Samples.tikka_recipes
    (Examples.mk_rating "tikka" Schema.loved []) ∅ = None /\
  Schema.on_rating_insert Samples.tikka_recipes ∅
    (Examples.mk_rating "tikka" Schema.loved []) = ∅.
Proof.
  apply (extracted_recipe_cannot_be_rated (rt := Features.Latin1.runtime)
           Examples.tikka_ingredients Examples.tikka_name (Some 20) (Some 25)
           (Examples.mk_ingredient "Curry") Samples.tikka_recipes Samples.tikka_stored).
  - unfold Examples.tikka_ingredients. right. left.
  - vm_compute. lia.
  - apply lookup_singleton_eq.
  - reflexivity.
Defined.

Lemma scorers_read_the_table_witness :
  Recommendation.calculateScore (features Samples.plain_recipe)
    (Store.profile_rows Samples.learned_table "lisa")
  = Spec.sumZ (Schema.weight_of Samples.learned_table)
              (Store.ts_keys "lisa" (features Samples.plain_recipe)) /\
  SqlFunctions.calculate_recipe_score Samples.learned_db "lisa" "plain"
  = Some (Spec.sumZ (Schema.weight_of Samples.learned_table)
                    (Spec.feature_keys "lisa"
                       (Store.stored_features (features Samples.plain_recipe)))).
Proof.
  apply (scorers_read_the_table Samples.learned_db Samples.learned_table "lisa" "plain"
           Samples.plain_recipe).
  - reflexivity.
  - reflexivity.
  - repeat (constructor; [eexists; reflexivity|]). constructor.
Defined.

Lemma first_rating_then_scores_witness :
  exists tbl',
    Schema.update_preference_weights Examples.stored_recipes
      (Examples.mk_rating "plain" Schema.loved []) ∅ = Some tbl' /\
    Recommendation.calculateScore Samples.plain_features (Store.profile_rows tbl' "lisa")
    = 150 /\
    forall db rid r,
      preference_weights db = Store.rows_of tbl' ->
      find (fun r' => String.eqb (recipe_id_of r') rid) (recipes db) = Some r ->
      features r = Samples.plain_features ->
      SqlFunctions.calculate_recipe_score db "lisa" rid = Some 300.
Proof.
  destruct (first_rating_then_scores Samples.plain_features Examples.plain_salmon_jsonb
              Examples.stored_recipes (Examples.mk_rating "plain" Schema.loved []) ∅)
    as (tbl' & Ht & Hts & Hsql).
  - vm_compute. reflexivity.
  - reflexivity.
  - by_decide.
  - repeat (constructor; [split; [eexists; reflexivity|simpl; try exact I; by_decide]|]).
    constructor.
  - intros ft v. apply lookup_empty.
  - reflexivity.
  - exists tbl'. split; [exact Ht|]. split; [exact Hts|exact Hsql].
Defined.


Lemma score_bounded_by_feature_count_witness :
  - (1000 * Z.of_nat (length (Spec.feature_pairs Examples.salmon_features)))
  <= Recommendation.calculateScore Examples.salmon_features Examples.lisa_weights
  <= 1000 * Z.of_nat (length (Spec.feature_pairs Examples.salmon_features)).
Proof.
  apply (score_bounded_by_feature_count Examples.salmon_features Examples.lisa_weights).
  repeat (constructor; [simpl; lia|]). constructor.
Defined.
